(** * The JavaGoat conversation and generation orchestrator

    A shallow embedding of [assets/modules/chat.js] and
    [assets/modules/image.js] (with the helpers of [utils.js],
    [security.js], [storage.js] and [ui.js] they call), followed by the
    properties of the orchestrator: streaming accumulation, cancellation,
    the single-generation guard, finalization, image-provider fallback,
    regeneration and the outbound payload.  The other entry points of
    [chat.js], the loading and deleting of [storage.js], the tokens and
    dates of [utils.js] and the checks of [security.js] follow, with
    their own properties.

    Conventions.  JavaScript strings are [string]; [undefined] is [None];
    the global [STATE] object and the DOM values the code reads are the
    fields of [World]; a [throw] is the [Thrown] outcome of the monad [M];
    what the program does to its collaborators (toasts, requests, UI calls,
    localStorage writes) is appended to the [effects] trace in program
    order.  [window.log] only writes to the console and is left out. *)

From Stdlib Require Import String Ascii List Bool Arith Lia QArith DecimalString
  Permutation.
Import ListNotations.
Local Open Scope list_scope.
Local Open Scope nat_scope.
Local Open Scope string_scope.

Set Implicit Arguments.

(* ================================================================== *)
(** ** JavaScript strings *)
(* ================================================================== *)

Module JsString.

Definition LF : ascii := "010"%char.
Definition DQ : ascii := "034"%char.

(** ["\n\n"], the event delimiter of the stream. *)
Definition LFLF : string := String LF (String LF EmptyString).

(** [s.startsWith(p)]. *)
Definition startsWith (p s : string) : bool := String.prefix p s.

(** [s.substring(n)]: the string without its first [n] characters. *)
Fixpoint substring_from (n : nat) (s : string) : string :=
  match n, s with
  | O, _ => s
  | S _, EmptyString => EmptyString
  | S k, String _ r => substring_from k r
  end.

(** [s.substring(0, n)]. *)
Fixpoint substring_to (n : nat) (s : string) : string :=
  match n, s with
  | O, _ => EmptyString
  | S _, EmptyString => EmptyString
  | S k, String c r => String c (substring_to k r)
  end.

(** The characters [String.prototype.trim] removes, within ASCII:
    tab, line feed, vertical tab, form feed, carriage return, space. *)
Definition isWhiteSpace (c : ascii) : bool :=
  let n := nat_of_ascii c in
  (((9 <=? n) && (n <=? 13)) || (n =? 32))%nat.

Fixpoint trimStart (s : string) : string :=
  match s with
  | EmptyString => EmptyString
  | String c r => if isWhiteSpace c then trimStart r else s
  end.

Fixpoint trimEnd (s : string) : string :=
  match s with
  | EmptyString => EmptyString
  | String c r =>
      match trimEnd r with
      | EmptyString => if isWhiteSpace c then EmptyString
                       else String c EmptyString
      | r' => String c r'
      end
  end.

(** [s.trim()]. *)
Definition trim (s : string) : string := trimEnd (trimStart s).

(** [s.split(sep)] for a non-empty separator: the pieces between the
    leftmost, non-overlapping occurrences of [sep].  [skip] counts the
    characters of an occurrence still to be passed over and [cur] is the
    piece being read. *)
Fixpoint split_from (sep : string) (skip : nat) (cur s : string)
  : list string :=
  match s with
  | EmptyString => [cur]
  | String c r =>
      match skip with
      | S k => split_from sep k cur r
      | O =>
          if String.prefix sep s
          then cur :: split_from sep (String.length sep - 1) EmptyString r
          else split_from sep 0 (cur ++ String c EmptyString) r
      end
  end.

Definition split (sep s : string) : list string :=
  split_from sep 0 EmptyString s.

(** [xs.join(sep)]. *)
Fixpoint join (sep : string) (xs : list string) : string :=
  match xs with
  | [] => EmptyString
  | [x] => x
  | x :: r => x ++ sep ++ join sep r
  end.

(** [!s] for a string: only the empty string is falsy. *)
Definition isEmpty (s : string) : bool :=
  match s with EmptyString => true | _ => false end.

End JsString.
Import JsString.

(* ================================================================== *)
(** ** JSON values and the property reads the code performs *)
(* ================================================================== *)

(** What [JSON.parse] and [response.json()] deliver.  An object lists
    its own properties, each key once. *)
#[local] Set Warnings "-register-all".
Inductive JSON : Type :=
| JNull
| JBool (b : bool)
| JNum (q : Q)
| JStr (s : string)
| JArr (items : list JSON)
| JObj (fields : list (string * JSON)).

(** A JavaScript value of the kinds met here: [None] is [undefined]. *)
Definition JsValue : Type := option JSON.

Fixpoint assoc (k : string) (fs : list (string * JSON)) : JsValue :=
  match fs with
  | [] => None
  | (k', v) :: r => if String.eqb k k' then Some v else assoc k r
  end.

(** [v.k] on a value that is neither [null] nor [undefined], for the keys
    the code reads ([choices], [delta], [content], [error], [message],
    [data], [url]); none of them is inherited by strings, numbers,
    booleans or arrays. *)
Definition prop (k : string) (v : JSON) : JsValue :=
  match v with
  | JObj fs => assoc k fs
  | _ => None
  end.

(** [v[0]] on a value that is neither [null] nor [undefined]. *)
Definition item0 (v : JSON) : JsValue :=
  match v with
  | JArr xs => hd_error xs
  | JStr (String c _) => Some (JStr (String c EmptyString))
  | JObj fs => assoc "0" fs
  | _ => None
  end.

(** [v?.k]. *)
Definition optProp (k : string) (v : JsValue) : JsValue :=
  match v with
  | None | Some JNull => None
  | Some x => prop k x
  end.

(** Truthiness. *)
Definition truthy (v : JsValue) : bool :=
  match v with
  | None | Some JNull => false
  | Some (JBool b) => b
  | Some (JNum q) => negb (Qeq_bool q 0)
  | Some (JStr s) => negb (isEmpty s)
  | Some (JArr _) | Some (JObj _) => true
  end.

(** [xs.length > 0] for [xs = v.data]: arrays and strings have a length;
    on any other value [length] is [undefined] and the test is false. *)
Definition hasPositiveLength (v : JSON) : bool :=
  match v with
  | JArr (_ :: _) => true
  | JStr (String _ _) => true
  | JObj fs => match assoc "length" fs with
               | Some (JNum q) => Qle_bool 0 q && negb (Qeq_bool q 0)
               | _ => false
               end
  | _ => false
  end.

(* ================================================================== *)
(** ** The data model: messages, conversations, settings *)
(* ================================================================== *)

Inductive Role : Type := user | ai.
Inductive MessageType : Type := text | image.
Inductive Mode : Type := chat | imageMode.

Definition Role_eqb (a b : Role) : bool :=
  match a, b with user, user | ai, ai => true | _, _ => false end.
Definition MessageType_eqb (a b : MessageType) : bool :=
  match a, b with text, text | image, image => true | _, _ => false end.

(** A message object.  [prompt], [error] and [errorMessage] are absent
    ([None]) on the object literals that create a message and are written
    later. *)
Record Message : Type := mkMessage {
  msg_id : string;
  msg_role : Role;
  msg_type : MessageType;
  msg_content : string;
  msg_timestamp : nat;
  msg_prompt : option string;
  msg_error : option bool;
  msg_errorMessage : option string
}.

Record Conversation : Type := mkConversation {
  conv_id : string;
  conv_title : string;
  conv_messages : list Message;
  conv_lastUpdated : nat
}.

(** [STATE.settings], as far as the orchestrator reads it. *)
Record Settings : Type := mkSettings {
  openrouterKey : string;
  modelId : string;
  systemPrompt : string;
  imageProvider : string;
  imageModel : string
}.

(** A thrown value: all of them are [Error] objects. *)
Record Exn : Type := mkExn {
  exn_name : string;
  message : string
}.

Definition Error (m : string) : Exn := mkExn "Error" m.
Definition TypeError (m : string) : Exn := mkExn "TypeError" m.

(** The message of the [TypeError] for reading property [p] of [base]
    ([undefined] or [null]). *)
Definition cannotRead (base p : string) : Exn :=
  TypeError ("Cannot read properties of " ++ base
             ++ " (reading '" ++ p ++ "')").

(* ================================================================== *)
(** ** Requests, responses and the trace of outward effects *)
(* ================================================================== *)

(** One entry of the [messages] array of a chat-completion request. *)
Record ApiMessage : Type := mkApiMessage {
  api_role : string;
  api_content : string
}.

Inductive RequestBody : Type :=
| NoBody
| ChatBody (model : string) (messages : list ApiMessage) (stream : bool)
| ImageBody (prompt model size quality : string) (n : nat).

Record Request : Type := mkRequest {
  req_url : string;
  req_method : string;
  req_headers : list (string * string);
  req_body : RequestBody
}.

(** What an [await] meets.  [Stopped e] is the user pressing the stop
    button while the promise is pending: [stopGenerating()] runs and the
    promise then rejects with [e], the transport's abort error. *)
Inductive Await (A : Type) : Type :=
| Resolved (a : A)
| Rejected (e : Exn)
| Stopped (e : Exn).
Arguments Rejected {A} e.
Arguments Stopped {A} e.

(** A response as the sessions read it: status line, content type, the
    body parsed by [response.json()], and the body as a stream: the text
    of the chunks [reader.read()] resolves to one after the other (each
    already run through [decoder.decode]), then how the read after the
    last chunk ends ([Resolved tt] is [done]). *)
Record Response : Type := mkResponse {
  status : nat;
  statusText : string;
  contentType : option string;
  json : Await JSON;
  body : list string;
  bodyEnd : Await unit
}.

(** [response.ok]. *)
Definition ok (r : Response) : bool :=
  ((200 <=? status r) && (status r <=? 299))%nat.

Inductive ToastType : Type := success | error | info | warning.

Inductive UICall : Type :=
| appendMessageToChat (m : Message) (isStreaming : bool)
| renderConversationHistory
| scrollToBottom
| renderApp
| renderChatArea
| updateChatInputArea
| showTypingIndicator (show : bool)
| autoResizeChatInput.

Inductive Effect : Type :=
| Toast (type : ToastType) (text : string)      (* showToast *)
| Fetch (request : Request)                      (* fetch *)
| Ui (call : UICall)                             (* a call into ui.js *)
| Persist (snapshot : list Conversation).        (* localStorage.setItem *)

(* ================================================================== *)
(** ** The world: [STATE], the DOM input, and the oracles' positions *)
(* ================================================================== *)

Record World : Type := mkWorld {
  conversations : list Conversation;           (* STATE.conversations *)
  activeConversationId : option string;        (* STATE.ui.activeConversationId *)
  isGenerating : bool;                         (* STATE.ui.isGenerating *)
  isTyping : bool;                             (* STATE.ui.isTyping *)
  mode : Mode;                                 (* STATE.ui.mode *)
  settings : Settings;                         (* STATE.settings *)
  abortController : option nat;                (* STATE.abortController *)
  signals : list bool;       (* the AbortController objects made so far,
                                each with its signal's [aborted] flag *)
  chatInput : string;                          (* appElements.chatInput.value *)
  effects : list Effect;
  uuidCalls : nat;                             (* crypto.randomUUID() calls *)
  clockCalls : nat                             (* Date.now() calls *)
}.

Definition set_conversations (v : list Conversation) (w : World) : World :=
  mkWorld v (activeConversationId w) (isGenerating w) (isTyping w) (mode w)
    (settings w) (abortController w) (signals w) (chatInput w) (effects w)
    (uuidCalls w) (clockCalls w).
Definition set_activeConversationId (v : option string) (w : World) : World :=
  mkWorld (conversations w) v (isGenerating w) (isTyping w) (mode w)
    (settings w) (abortController w) (signals w) (chatInput w) (effects w)
    (uuidCalls w) (clockCalls w).
Definition set_isGenerating (v : bool) (w : World) : World :=
  mkWorld (conversations w) (activeConversationId w) v (isTyping w) (mode w)
    (settings w) (abortController w) (signals w) (chatInput w) (effects w)
    (uuidCalls w) (clockCalls w).
Definition set_isTyping (v : bool) (w : World) : World :=
  mkWorld (conversations w) (activeConversationId w) (isGenerating w) v (mode w)
    (settings w) (abortController w) (signals w) (chatInput w) (effects w)
    (uuidCalls w) (clockCalls w).
Definition set_mode (v : Mode) (w : World) : World :=
  mkWorld (conversations w) (activeConversationId w) (isGenerating w)
    (isTyping w) v (settings w) (abortController w) (signals w) (chatInput w)
    (effects w) (uuidCalls w) (clockCalls w).
Definition set_abortController (v : option nat) (w : World) : World :=
  mkWorld (conversations w) (activeConversationId w) (isGenerating w)
    (isTyping w) (mode w) (settings w) v (signals w) (chatInput w) (effects w)
    (uuidCalls w) (clockCalls w).
Definition set_signals (v : list bool) (w : World) : World :=
  mkWorld (conversations w) (activeConversationId w) (isGenerating w)
    (isTyping w) (mode w) (settings w) (abortController w) v (chatInput w)
    (effects w) (uuidCalls w) (clockCalls w).
Definition set_chatInput (v : string) (w : World) : World :=
  mkWorld (conversations w) (activeConversationId w) (isGenerating w)
    (isTyping w) (mode w) (settings w) (abortController w) (signals w) v
    (effects w) (uuidCalls w) (clockCalls w).
Definition set_effects (v : list Effect) (w : World) : World :=
  mkWorld (conversations w) (activeConversationId w) (isGenerating w)
    (isTyping w) (mode w) (settings w) (abortController w) (signals w)
    (chatInput w) v (uuidCalls w) (clockCalls w).
Definition set_uuidCalls (v : nat) (w : World) : World :=
  mkWorld (conversations w) (activeConversationId w) (isGenerating w)
    (isTyping w) (mode w) (settings w) (abortController w) (signals w)
    (chatInput w) (effects w) v (clockCalls w).
Definition set_clockCalls (v : nat) (w : World) : World :=
  mkWorld (conversations w) (activeConversationId w) (isGenerating w)
    (isTyping w) (mode w) (settings w) (abortController w) (signals w)
    (chatInput w) (effects w) (uuidCalls w) v.

(* ================================================================== *)
(** ** Control flow: a state monad with [throw], [catch] and [finally] *)
(* ================================================================== *)

Inductive Outcome (A : Type) : Type :=
| Returned (a : A)
| Thrown (e : Exn).
Arguments Thrown {A} e.

Definition M (A : Type) : Type := World -> Outcome A * World.

Definition ret {A : Type} (a : A) : M A := fun w => (Returned a, w).

Definition throw {A : Type} (e : Exn) : M A := fun w => (Thrown e, w).

Definition bind {A B : Type} (m : M A) (k : A -> M B) : M B :=
  fun w =>
    match m w with
    | (Returned a, w') => k a w'
    | (Thrown e, w') => (Thrown e, w')
    end.

Declare Scope js_scope.
Delimit Scope js_scope with js.
Notation "x <- m ;; k" := (bind m (fun x => k))
  (at level 61, m at next level, right associativity) : js_scope.
Notation "m ;; k" := (bind m (fun _ => k))
  (at level 61, right associativity) : js_scope.
Local Open Scope js_scope.

(** [try { body } catch (e) { handler e }]. *)
Definition tryCatch {A : Type} (body : M A) (handler : Exn -> M A) : M A :=
  fun w =>
    match body w with
    | (Returned a, w') => (Returned a, w')
    | (Thrown e, w') => handler e w'
    end.

(** [try { body } finally { fin }]: [fin] runs however [body] ends, and a
    throw of [fin] replaces the outcome of [body]. *)
Definition tryFinally {A : Type} (body : M A) (fin : M unit) : M A :=
  fun w =>
    match body w with
    | (r, w') =>
        match fin w' with
        | (Returned _, w'') => (r, w'')
        | (Thrown e, w'') => (Thrown e, w'')
        end
    end.

Definition gets {A : Type} (f : World -> A) : M A := fun w => (Returned (f w), w).
Definition modify (f : World -> World) : M unit := fun w => (Returned tt, f w).
Definition emit (e : Effect) : M unit :=
  modify (fun w => set_effects (effects w ++ [e])%list w).
Definition when (b : bool) (m : M unit) : M unit := if b then m else ret tt.

(* ================================================================== *)
(** ** The platform the modules run on *)
(* ================================================================== *)

(** Built-ins of the browser and the constants of [state.js], whose
    source is not part of the modelled files.  The two oracles give the
    result of the [n]-th call of [crypto.randomUUID()] and of
    [Date.now()]. *)
Record Platform : Type := mkPlatform {
  JSON_parse : string -> option JSON;          (* [None]: a SyntaxError *)
  Number_toString : Q -> string;
  uuidAt : nat -> string;
  timeAt : nat -> nat;
  sqlInjectionPatterns : list (string -> bool); (* [pattern.test] of each
                                                   literal of sanitizeInput *)
  escapeHTML : string -> string;
  encodeURIComponent : string -> string;
  location_origin : string;
  APP_NAME : string;
  IMAGE_DEFAULT_SIZE : string;
  CONVERSATION_TITLE_MAX_LENGTH : nat
}.

(** Decimal rendering of a status code in a template literal. *)
Definition natToString (n : nat) : string :=
  DecimalString.NilEmpty.string_of_uint (Nat.to_uint n).

Section Orchestrator.

Variable P : Platform.

(** [String(v)], as applied by [+=] and by [new Error(v)]. *)
Fixpoint ToString (v : JSON) : string :=
  match v with
  | JNull => "null"
  | JBool true => "true"
  | JBool false => "false"
  | JNum q => Number_toString P q
  | JStr s => s
  | JArr xs =>
      join "," (map (fun x => match x with
                              | JNull => EmptyString
                              | _ => ToString x
                              end) xs)
  | JObj _ => "[object Object]"
  end.

(** [new Error(v).message]. *)
Definition errorMessageOf (v : JsValue) : string :=
  match v with
  | None => EmptyString
  | Some x => ToString x
  end.

(* ------------------------------------------------------------------ *)
(** *** utils.js, security.js *)

Definition showToast (type : ToastType) (text : string) : M unit :=
  emit (Toast type text).

Definition sanitizeInput (input : string) : M string :=
  if existsb (fun test => test input) (sqlInjectionPatterns P)
  then throw (Error "Potential SQL injection attempt detected. Please remove suspicious characters.")
  else ret input.

Definition truncateText (str : string) (maxLength : nat) : string :=
  if (String.length str <=? maxLength)%nat then str
  else substring_to (maxLength - 3) str ++ "...".

Definition filterSQLi (input : string) : M string := sanitizeInput input.
Definition preventXSS (input : string) : string := escapeHTML P input.

(* ------------------------------------------------------------------ *)
(** *** The oracles *)

Definition randomUUID : M string :=
  fun w => (Returned (uuidAt P (uuidCalls w)),
            set_uuidCalls (S (uuidCalls w)) w).

Definition Date_now : M nat :=
  fun w => (Returned (timeAt P (clockCalls w)),
            set_clockCalls (S (clockCalls w)) w).

(* ------------------------------------------------------------------ *)
(** *** ui.js and storage.js, as the orchestrator sees them *)

Definition UI (call : UICall) : M unit :=
  match call with
  | showTypingIndicator show =>
      modify (set_isTyping show) ;; emit (Ui call)
  | _ => emit (Ui call)
  end.

(** The conversation objects are shared between [STATE.conversations]
    and the local [activeConversation] of each function.  Every such
    reference is obtained by [find(c => c.id === id)], the first
    conversation carrying the id, so writing through the reference is
    rewriting that element of the list. *)
Fixpoint updateFirst {A : Type} (p : A -> bool) (f : A -> A) (l : list A)
  : list A :=
  match l with
  | [] => []
  | x :: r => if p x then f x :: r else x :: updateFirst p f r
  end.

Definition hasConvId (i : string) (c : Conversation) : bool :=
  String.eqb (conv_id c) i.
Definition hasMsgId (i : string) (m : Message) : bool :=
  String.eqb (msg_id m) i.

Definition set_conv_messages (ms : list Message) (c : Conversation)
  : Conversation :=
  mkConversation (conv_id c) (conv_title c) ms (conv_lastUpdated c).
Definition set_conv_lastUpdated (t : nat) (c : Conversation) : Conversation :=
  mkConversation (conv_id c) (conv_title c) (conv_messages c) t.

(** A write through the reference to the conversation with id [i]. *)
Definition writeConversation (i : string) (f : Conversation -> Conversation)
  : M unit :=
  modify (fun w =>
    set_conversations (updateFirst (hasConvId i) f (conversations w)) w).

(** [STATE.conversations.find(c => c.id === STATE.ui.activeConversationId)]. *)
Definition findActive (w : World) : option Conversation :=
  match activeConversationId w with
  | None => None
  | Some i => find (hasConvId i) (conversations w)
  end.

(** [Storage.saveConversations()]. *)
Definition saveConversations : M unit :=
  cs <- gets conversations ;;
  emit (Persist cs).

(** [Storage.saveConversation(conversation)], for a conversation taken
    from [STATE.conversations]: [findIndex] finds it, the assignment
    stores the object where it already is, then the timestamp is bumped
    and everything is written out. *)
Definition saveConversation (i : string) : M unit :=
  now <- Date_now ;;
  writeConversation i (set_conv_lastUpdated now) ;;
  saveConversations.

(* ------------------------------------------------------------------ *)
(** *** chat.js: the message store *)

(** [startNewConversation(initialPrompt)]. *)
Definition startNewConversation (initialPrompt : string) : M unit :=
  i <- randomUUID ;;
  now <- Date_now ;;
  let newConversation :=
    mkConversation i
      (truncateText initialPrompt (CONVERSATION_TITLE_MAX_LENGTH P)) [] now in
  modify (fun w => set_conversations (newConversation :: conversations w) w) ;;
  modify (set_activeConversationId (Some i)) ;;
  saveConversations ;;
  UI renderApp.

(** The part of [addMessageToConversation] after the active conversation
    is known. *)
Definition pushMessage (i : string) (m : Message) : M unit :=
  writeConversation i (fun c => set_conv_messages (conv_messages c ++ [m])%list c) ;;
  now <- Date_now ;;
  writeConversation i (set_conv_lastUpdated now) ;;
  saveConversation i ;;
  UI (appendMessageToChat m false) ;;
  UI renderConversationHistory ;;
  UI scrollToBottom.

(** [addMessageToConversation(message)]. *)
Definition addMessageToConversation (m : Message) : M unit :=
  active <- gets findActive ;;
  match active with
  | Some c => pushMessage (conv_id c) m
  | None =>
      startNewConversation
        (match msg_type m with
         | text => msg_content m
         | image => "Image Generation"
         end) ;;
      active' <- gets findActive ;;
      match active' with
      | None => showToast error "Failed to start conversation."
      | Some c => pushMessage (conv_id c) m
      end
  end.

Definition set_msg_update (newContent : string) (isError : bool)
  (errorMessage : string) (m : Message) : Message :=
  mkMessage (msg_id m) (msg_role m) (msg_type m) newContent (msg_timestamp m)
    (msg_prompt m) (Some isError) (Some errorMessage).

(** [updateLastMessageContent(messageId, newContent, isError, errorMessage)];
    the defaults [false] and [''] are passed by the callers. *)
Definition updateLastMessageContent (messageId newContent : string)
  (isError : bool) (errorMessage : string) : M unit :=
  active <- gets findActive ;;
  match active with
  | None => ret tt
  | Some c =>
      match find (hasMsgId messageId) (conv_messages c) with
      | None => ret tt
      | Some m =>
          let m' := set_msg_update newContent isError errorMessage m in
          writeConversation (conv_id c) (fun c =>
            set_conv_messages
              (updateFirst (hasMsgId messageId)
                 (set_msg_update newContent isError errorMessage)
                 (conv_messages c)) c) ;;
          UI (appendMessageToChat m' true) ;;
          saveConversation (conv_id c)
      end
  end.

(** [stopGenerating()]. *)
Definition abortSignal (r : nat) (w : World) : World :=
  set_signals
    ((fix go (n : nat) (l : list bool) : list bool :=
        match l, n with
        | [], _ => []
        | _ :: t, O => true :: t
        | b :: t, S k => b :: go k t
        end) r (signals w)) w.

Definition stopGenerating : M unit :=
  ctl <- gets abortController ;;
  match ctl with
  | Some r => modify (abortSignal r)
  | None => showToast info "No active generation to stop."
  end.

(** [new AbortController()]: a fresh object whose signal is not aborted. *)
Definition newAbortController : M nat :=
  fun w => (Returned (List.length (signals w)),
            set_signals (signals w ++ [false])%list w).

(** [signal.aborted]. *)
Definition aborted (r : nat) (w : World) : bool := nth r (signals w) false.

(** [await p], where the stop button may be pressed meanwhile. *)
Definition await {A : Type} (p : Await A) : M A :=
  match p with
  | Resolved a => ret a
  | Rejected e => throw e
  | Stopped e => stopGenerating ;; throw e
  end.

(** [await fetch(...)]. *)
Definition fetch (request : Request) (net : Await Response) : M Response :=
  emit (Fetch request) ;; await net.

(* ------------------------------------------------------------------ *)
(** *** chat.js: the text generation session *)

(** [data.choices[0]?.delta?.content || ''].  Reading [choices] of [null],
    or element 0 of an absent or [null] [choices], throws. *)
Definition deltaOf (data : JSON) : Outcome JSON :=
  match data with
  | JNull => Thrown (cannotRead "null" "choices")
  | _ =>
      match prop "choices" data with
      | None => Thrown (cannotRead "undefined" "0")
      | Some JNull => Thrown (cannotRead "null" "0")
      | Some choices =>
          match optProp "content" (optProp "delta" (item0 choices)) with
          | Some c => Returned (if truthy (Some c) then c else JStr EmptyString)
          | None => Returned (JStr EmptyString)
          end
      end
  end.

(** The decoding inside the callback of [chunk.split('\n\n').forEach]:
    the text one piece of a chunk adds to the accumulator, if any.  A
    piece without the [data: ] prefix, the [[DONE]] marker, a payload
    [JSON.parse] rejects, a payload whose read throws (both [catch]es
    only log) and a falsy delta add nothing. *)
Definition partDelta (part : string) : option string :=
  if startsWith "data: " part then
    let jsonStr := substring_from 6 part in
    if String.eqb jsonStr "[DONE]" then None
    else
      match JSON_parse P jsonStr with
      | None => None
      | Some data =>
          match deltaOf data with
          | Thrown _ => None
          | Returned delta =>
              if truthy (Some delta) then Some (ToString delta) else None
          end
      end
  else None.

(** The callback itself.  [aiMessageContent] is the local accumulator of
    [sendChatMessage]; the function returns its new value.  The store is
    patched once for every delta; a throw of the patch would be caught
    and logged like a parse failure. *)
Definition processPart (aiMessageId aiMessageContent part : string)
  (w : World) : string * World :=
  match partDelta part with
  | Some delta =>
      let aiMessageContent' := aiMessageContent ++ delta in
      (aiMessageContent',
       snd (updateLastMessageContent aiMessageId aiMessageContent'
              false EmptyString w))
  | None => (aiMessageContent, w)
  end.

Fixpoint forEachPart (aiMessageId aiMessageContent : string)
  (parts : list string) (w : World) : string * World :=
  match parts with
  | [] => (aiMessageContent, w)
  | part :: rest =>
      let (acc, w') := processPart aiMessageId aiMessageContent part w in
      forEachPart aiMessageId acc rest w'
  end.

(** The [while (true)] loop over the chunks the reader delivers. *)
Fixpoint readLoop (aiMessageId aiMessageContent : string)
  (chunks : list string) (w : World) : string * World :=
  match chunks with
  | [] => (aiMessageContent, w)
  | chunk :: rest =>
      let (acc, w') :=
        forEachPart aiMessageId aiMessageContent (split LFLF chunk) w in
      readLoop aiMessageId acc rest w'
  end.

(** The deltas the decoder delivers, in arrival order: those of one
    chunk, and those of the whole stream. *)
Definition deltaList (part : string) : list string :=
  match partDelta part with
  | Some delta => [delta]
  | None => []
  end.

Definition chunkDeltas (chunk : string) : list string :=
  flat_map deltaList (split LFLF chunk).

Definition streamDeltas (chunks : list string) : list string :=
  flat_map chunkDeltas chunks.

(** [new Error(errorData.error ? errorData.error.message : response.statusText)],
    or the TypeError of reading [error] of [null]. *)
Definition responseError (errorData : JSON) (statusText : string) : Exn :=
  match errorData with
  | JNull => cannotRead "null" "error"
  | _ =>
      match prop "error" errorData with
      | Some e =>
          if truthy (Some e) then Error (errorMessageOf (prop "message" e))
          else Error statusText
      | None => Error statusText
      end
  end.

Definition chatRequest (key : string) (model : string)
  (messagesForApi : list ApiMessage) : Request :=
  mkRequest "https://openrouter.ai/api/v1/chat/completions" "POST"
    [("Authorization", "Bearer " ++ key);
     ("Content-Type", "application/json");
     ("HTTP-Referer", location_origin P);
     ("X-Title", APP_NAME P)]
    (ChatBody model messagesForApi true).

(** The [try] block of [sendChatMessage].  It gives how control leaves
    the block and the value [aiMessageContent] has then. *)
Definition chatTry (aiMessageId : string) (request : Request)
  (net : Await Response) (w : World) : Outcome unit * string * World :=
  match fetch request net w with
  | (Thrown e, w1) => (Thrown e, EmptyString, w1)
  | (Returned response, w1) =>
      if negb (ok response) then
        match await (json response) w1 with
        | (Thrown e, w2) => (Thrown e, EmptyString, w2)
        | (Returned errorData, w2) =>
            (Thrown (responseError errorData (statusText response)),
             EmptyString, w2)
        end
      else
        let (acc, w2) := readLoop aiMessageId EmptyString (body response) w1 in
        let (r, w3) := await (bodyEnd response) w2 in
        (r, acc, w3)
  end.

Definition stoppedNotice : string := LFLF ++ "*(Generation stopped by user)*".
Definition errorNotice (m : string) : string := LFLF ++ "**Error:** " ++ m.

(** The [catch (error)] block of [sendChatMessage]. *)
Definition chatCatch (aiMessageId : string) (signal : nat)
  (aiMessageContent : string) (err : Exn) : M unit :=
  isAborted <- gets (aborted signal) ;;
  if (isAborted : bool) then
    showToast info "AI response generation stopped." ;;
    updateLastMessageContent aiMessageId (aiMessageContent ++ stoppedNotice)
      true (message err)
  else
    showToast error ("AI chat error: " ++ message err) ;;
    updateLastMessageContent aiMessageId
      (aiMessageContent ++ errorNotice (message err)) true (message err).

(** The [finally] block of [sendChatMessage]. *)
Definition chatFinally : M unit :=
  modify (set_isGenerating false) ;;
  UI updateChatInputArea ;;
  UI (showTypingIndicator false) ;;
  modify (set_abortController None) ;;
  saveConversations.

(** [activeConversation.messages.filter(m => m.type === 'text').map(...)]. *)
Definition roleName (r : Role) : string :=
  match r with user => "user" | ai => "ai" end.

Definition historyForApi (ms : list Message) : list ApiMessage :=
  map (fun m => mkApiMessage (roleName (msg_role m)) (msg_content m))
    (filter (fun m => MessageType_eqb (msg_type m) text) ms).

(** [!STATE.ui.activeConversationId ||
     STATE.conversations.find(...)?.messages.length === 0]. *)
Definition needsNewConversation (w : World) : bool :=
  match activeConversationId w with
  | None => true
  | Some i =>
      isEmpty i ||
      match findActive w with
      | Some c => (List.length (conv_messages c) =? 0)%nat
      | None => false
      end
  end.

(** The messages of the conversation a local reference points to. *)
Definition messagesOf (i : string) (w : World) : list Message :=
  match find (hasConvId i) (conversations w) with
  | Some c => conv_messages c
  | None => []
  end.

(** The first branch of [sendChatMessage]: no credential. *)
Definition reportMissingKey (prompt : string) : M unit :=
  showToast error "OpenRouter API key is not configured in settings." ;;
  i1 <- randomUUID ;;
  t1 <- Date_now ;;
  addMessageToConversation (mkMessage i1 user text prompt t1 None None None) ;;
  i2 <- randomUUID ;;
  t2 <- Date_now ;;
  addMessageToConversation
    (mkMessage i2 ai text
       "Error: OpenRouter API key is not configured. Please check settings."
       t2 None (Some true) (Some "API key not configured.")).

(** [try { ... } catch (error) { ... }] of [sendChatMessage]. *)
Definition chatStream (aiMessageId : string) (signal : nat)
  (request : Request) (net : Await Response) : M unit :=
  fun w =>
    match chatTry aiMessageId request net w with
    | (Returned _, _, w1) => (Returned tt, w1)
    | (Thrown e, aiMessageContent, w1) =>
        chatCatch aiMessageId signal aiMessageContent e w1
    end.

(** [sendChatMessage] from the point where [activeConversation] is
    known. *)
Definition chatSession (prompt key : string)
  (activeConversation : Conversation) (net : Await Response) : M unit :=
  userId <- randomUUID ;;
  userTime <- Date_now ;;
  addMessageToConversation
    (mkMessage userId user text prompt userTime None None None) ;;
  history <- gets (messagesOf (conv_id activeConversation)) ;;
  sys <- gets (fun w => systemPrompt (settings w)) ;;
  let messagesForApi :=
    ([mkApiMessage "system" sys] ++ historyForApi history
     ++ [mkApiMessage "user" prompt])%list in
  signal <- newAbortController ;;
  modify (set_abortController (Some signal)) ;;
  aiMessageId <- randomUUID ;;
  aiTime <- Date_now ;;
  addMessageToConversation
    (mkMessage aiMessageId ai text EmptyString aiTime None None None) ;;
  model <- gets (fun w => modelId (settings w)) ;;
  tryFinally
    (chatStream aiMessageId signal (chatRequest key model messagesForApi) net)
    chatFinally.

(** [sendChatMessage(prompt)]; [net] is what the request meets. *)
Definition sendChatMessage (prompt : string) (net : Await Response) : M unit :=
  key <- gets (fun w => openrouterKey (settings w)) ;;
  if isEmpty key then reportMissingKey prompt
  else
    fresh <- gets needsNewConversation ;;
    when fresh (startNewConversation prompt) ;;
    active <- gets findActive ;;
    match active with
    | None => showToast error "No active conversation found."
    | Some activeConversation => chatSession prompt key activeConversation net
    end.

(** Positions and removal in an array. *)
Fixpoint findIndex {A : Type} (p : A -> bool) (l : list A) : option nat :=
  match l with
  | [] => None
  | x :: r => if p x then Some 0
              else match findIndex p r with
                   | Some i => Some (S i)
                   | None => None
                   end
  end.

(** [l.splice(i, 1)]. *)
Fixpoint removeAt {A : Type} (i : nat) (l : list A) : list A :=
  match l, i with
  | [], _ => []
  | _ :: r, O => r
  | x :: r, S k => x :: removeAt k r
  end.

(** [messages.slice().reverse().find(msg => msg.role === 'user' &&
     msg.type === 'text')]. *)
Definition lastUserText (ms : list Message) : option Message :=
  find (fun msg => Role_eqb (msg_role msg) user
                   && MessageType_eqb (msg_type msg) text) (rev ms).

(** [messages.findIndex(msg => msg.id === messages.at(-1)?.id &&
     msg.role === 'ai')]. *)
Definition lastAIMessageIndex (ms : list Message) : option nat :=
  match last (map Some ms) None with
  | None => None
  | Some lastMsg =>
      findIndex (fun msg => String.eqb (msg_id msg) (msg_id lastMsg)
                            && Role_eqb (msg_role msg) ai) ms
  end.

Definition busyWarning : string :=
  "Please wait for the current generation to complete or stop it.".

(** The [catch (error)] and the [finally] block of
    [regenerateResponse]. *)
Definition regenerateCatch (err : Exn) : M unit :=
  showToast error ("Regeneration failed: " ++ message err).

Definition regenerateFinally : M unit :=
  modify (set_isGenerating false) ;;
  UI updateChatInputArea ;;
  UI (showTypingIndicator false).

(** [regenerateResponse()]. *)
Definition regenerateResponse (net : Await Response) : M unit :=
  busy <- gets isGenerating ;;
  if (busy : bool) then showToast warning busyWarning
  else
    active <- gets findActive ;;
    match active with
    | None => showToast info "No previous AI response to regenerate."
    | Some activeConversation =>
        let ms := conv_messages activeConversation in
        if (List.length ms <? 2)%nat
        then showToast info "No previous AI response to regenerate."
        else
          match lastUserText ms with
          | None => showToast info "No user message found to regenerate from."
          | Some lastUserMessage =>
              match lastAIMessageIndex ms with
              | Some i =>
                  writeConversation (conv_id activeConversation)
                    (set_conv_messages (removeAt i ms)) ;;
                  saveConversation (conv_id activeConversation) ;;
                  UI renderChatArea
              | None => ret tt
              end ;;
              showToast info "Regenerating AI response..." ;;
              tryFinally
                (tryCatch
                   (modify (set_isGenerating true) ;;
                    UI updateChatInputArea ;;
                    UI (showTypingIndicator true) ;;
                    sendChatMessage (msg_content lastUserMessage) net)
                   regenerateCatch)
                regenerateFinally
          end
    end.

(* ------------------------------------------------------------------ *)
(** *** image.js: the image generation session *)

(** What [import * as Chat from './chat.js'] binds: the names [chat.js]
    exports.  [chat.js] imports [STATE] and [Storage] for its own use and
    does not export them, so [Chat.STATE] and [Chat.Storage] are
    [undefined]. *)
Definition chatExports : list string :=
  ["setupEventListeners"; "setMode"; "addMessageToConversation";
   "startNewConversation"; "loadConversation"; "deleteConversation";
   "clearAllConversations"; "stopGenerating"; "regenerateResponse"].

Definition exportedByChat (name : string) : bool :=
  existsb (String.eqb name) chatExports.

(** [generateWithPollinations(prompt, signal)]; its [catch] logs and
    rethrows. *)
Definition generateWithPollinations (prompt : string) (net : Await Response)
  : M string :=
  let url := "https://image.pollinations.ai/prompt/"
             ++ encodeURIComponent P prompt ++ "?width=1024&height=1024" in
  response <- fetch (mkRequest url "GET" [] NoBody) net ;;
  if negb (ok response) then
    throw (Error ("Pollinations.ai returned status "
                  ++ natToString (status response)))
  else
    match contentType response with
    | Some ct =>
        if negb (isEmpty ct) && startsWith "image/" ct then ret url
        else throw (Error "Pollinations.ai did not return an image. It might be an error page.")
    | None =>
        throw (Error "Pollinations.ai did not return an image. It might be an error page.")
    end.

(** [generateWithLoremFlickr()]; an index past the end of [size] reads
    [undefined], which the template literal prints. *)
Definition generateWithLoremFlickr : string :=
  let size := split "x" (IMAGE_DEFAULT_SIZE P) in
  let width := nth 0 size "undefined" in
  let height := nth 1 size "undefined" in
  "https://loremflickr.com/" ++ width ++ "/" ++ height ++ "/abstract,random".

(** [data.data && data.data.length > 0 && data.data[0].url], then the
    [return] or the [throw] that follows; a URL that is not a string is
    taken by its string form. *)
Definition firstImageUrl (data : JSON) : M string :=
  match data with
  | JNull => throw (cannotRead "null" "data")
  | _ =>
      match prop "data" data with
      | Some d =>
          if truthy (Some d) && hasPositiveLength d then
            match item0 d with
            | None => throw (cannotRead "undefined" "url")
            | Some JNull => throw (cannotRead "null" "url")
            | Some first =>
                match prop "url" first with
                | Some u =>
                    if truthy (Some u) then ret (ToString u)
                    else throw (Error "OpenRouter did not return an image URL.")
                | None =>
                    throw (Error "OpenRouter did not return an image URL.")
                end
            end
          else throw (Error "OpenRouter did not return an image URL.")
      | None => throw (Error "OpenRouter did not return an image URL.")
      end
  end.

Definition imageRequest (key model prompt : string) : Request :=
  mkRequest "https://openrouter.ai/api/v1/images/generations" "POST"
    [("Authorization", "Bearer " ++ key);
     ("Content-Type", "application/json");
     ("HTTP-Referer", location_origin P);
     ("X-Title", APP_NAME P)]
    (ImageBody prompt model (IMAGE_DEFAULT_SIZE P) "standard" 1).

(** [generateWithOpenRouter(prompt, signal)]; its [catch] logs and
    rethrows. *)
Definition generateWithOpenRouter (prompt : string) (net : Await Response)
  : M string :=
  key <- gets (fun w => openrouterKey (settings w)) ;;
  model <- gets (fun w => imageModel (settings w)) ;;
  if isEmpty key then
    throw (Error "OpenRouter API key is not configured for image generation.")
  else if isEmpty model then
    throw (Error "OpenRouter image model ID is not configured.")
  else
    response <- fetch (imageRequest key model prompt) net ;;
    if negb (ok response) then
      errorData <- await (json response) ;;
      throw (responseError errorData (statusText response))
    else
      data <- await (json response) ;;
      firstImageUrl data.

(** The [try] block of [generateImage]; it returns [imageUrl]. *)
Definition imageTry (prompt : string) (net : Await Response) : M string :=
  showToast info "Generating image..." ;;
  signal <- newAbortController ;;
  modify (set_abortController (Some signal)) ;;
  provider <- gets (fun w => imageProvider (settings w)) ;;
  imageUrl <-
    (if String.eqb provider "pollinations"
     then generateWithPollinations prompt net
     else if String.eqb provider "openrouter"
     then generateWithOpenRouter prompt net
     else ret EmptyString) ;;
  if isEmpty imageUrl
  then throw (Error "Image generation failed or returned no URL.")
  else ret imageUrl.

(** The locals [imageUrl], [errorOccurred] and [errorMessage] of
    [generateImage]. *)
Record ImageLocals : Type := mkImageLocals {
  imageUrl : string;
  errorOccurred : bool;
  errorMessage : string
}.

(** The [catch (error)] block of [generateImage].  [generateWithLoremFlickr]
    does not throw, so the inner [catch] is never entered. *)
Definition imageCatch (err : Exn) : M ImageLocals :=
  showToast error ("Image generation failed: " ++ message err) ;;
  provider <- gets (fun w => imageProvider (settings w)) ;;
  if String.eqb provider "pollinations" then
    showToast info "Pollinations.ai failed, falling back to LoremFlickr..." ;;
    ret (mkImageLocals generateWithLoremFlickr false EmptyString)
  else
    ret (mkImageLocals EmptyString true (message err)).

Definition set_msg_image (l : ImageLocals) (prompt : string) (m : Message)
  : Message :=
  mkMessage (msg_id m) (msg_role m)
    (if errorOccurred l then text else image)
    (if errorOccurred l
     then "Image generation failed: " ++ errorMessage l
     else imageUrl l)
    (msg_timestamp m) (Some prompt) (Some (errorOccurred l))
    (Some (errorMessage l)).

(** The [finally] block of [generateImage].  Its first statement reads
    [Chat.STATE.conversations]. *)
Definition imageFinally (aiImageMessageId prompt : string) (l : ImageLocals)
  : M unit :=
  if negb (exportedByChat "STATE")
  then throw (cannotRead "undefined" "conversations")
  else
    active <- gets findActive ;;
    match active with
    | Some c =>
        match find (hasMsgId aiImageMessageId) (conv_messages c) with
        | Some _ =>
            writeConversation (conv_id c) (fun c =>
              set_conv_messages
                (updateFirst (hasMsgId aiImageMessageId)
                   (set_msg_image l prompt) (conv_messages c)) c) ;;
            (if exportedByChat "Storage" then saveConversation (conv_id c)
             else throw (cannotRead "undefined" "saveConversation")) ;;
            UI renderChatArea
        | None => ret tt
        end
    | None => ret tt
    end ;;
    modify (set_isGenerating false) ;;
    UI updateChatInputArea ;;
    UI (showTypingIndicator false) ;;
    modify (set_abortController None).

Definition imagePlaceholder (i : string) (t : nat) : Message :=
  mkMessage i ai text "Generating image..." t None None None.

(** [generateImage(prompt)]; [net] is what the provider request meets. *)
Definition generateImage (prompt : string) (net : Await Response) : M unit :=
  userId <- randomUUID ;;
  userTime <- Date_now ;;
  addMessageToConversation
    (mkMessage userId user text prompt userTime None None None) ;;
  aiImageMessageId <- randomUUID ;;
  aiTime <- Date_now ;;
  addMessageToConversation (imagePlaceholder aiImageMessageId aiTime) ;;
  locals <-
    tryCatch
      (url <- imageTry prompt net ;;
       ret (mkImageLocals url false EmptyString))
      imageCatch ;;
  imageFinally aiImageMessageId prompt locals.

(* ------------------------------------------------------------------ *)
(** *** chat.js: the send entry point *)

(** The [finally] block of [handleSendMessage]. *)
Definition sendFinally : M unit :=
  modify (set_isGenerating false) ;;
  UI updateChatInputArea ;;
  UI (showTypingIndicator false) ;;
  modify (set_abortController None).

(** The [catch (error)] block of [handleSendMessage]. *)
Definition sendCatch (prompt : string) (err : Exn) : M unit :=
  showToast error (message err) ;;
  m <- gets mode ;;
  match m with
  | chat =>
      i1 <- randomUUID ;;
      t1 <- Date_now ;;
      addMessageToConversation
        (mkMessage i1 user text prompt t1 None None None) ;;
      i2 <- randomUUID ;;
      t2 <- Date_now ;;
      addMessageToConversation
        (mkMessage i2 ai text
           "An internal error occurred while processing your request."
           t2 None (Some true) (Some (message err)))
  | imageMode => ret tt
  end.

(** [handleSendMessage()]; [net] is what the session's request meets. *)
Definition handleSendMessage (net : Await Response) : M unit :=
  value <- gets chatInput ;;
  let prompt := trim value in
  if isEmpty prompt
  then showToast warning "Please enter a message or prompt."
  else
    busy <- gets isGenerating ;;
    if (busy : bool) then showToast warning busyWarning
    else
      tryFinally
        (tryCatch
           (sanitizedPrompt <- filterSQLi prompt ;;
            let escapedPrompt := preventXSS sanitizedPrompt in
            modify (set_chatInput EmptyString) ;;
            UI autoResizeChatInput ;;
            modify (set_isGenerating true) ;;
            UI updateChatInputArea ;;
            UI (showTypingIndicator true) ;;
            m <- gets mode ;;
            match m with
            | chat => sendChatMessage escapedPrompt net
            | imageMode => generateImage escapedPrompt net
            end)
           (sendCatch prompt))
        sendFinally.

End Orchestrator.

(* ================================================================== *)
(** ** The other entry points of chat.js, with storage.js behind them *)
(* ================================================================== *)

Definition Mode_eqb (a b : Mode) : bool :=
  match a, b with chat, chat | imageMode, imageMode => true | _, _ => false end.

(** [setMode(mode)]. *)
Definition setMode (m : Mode) : M unit :=
  current <- gets mode ;;
  if Mode_eqb current m then ret tt
  else
    busy <- gets isGenerating ;;
    if (busy : bool) then showToast warning busyWarning
    else
      modify (set_mode m) ;;
      UI updateChatInputArea ;;
      showToast info
        ("Switched to "
         ++ match m with chat => "Chat" | imageMode => "Image Generation" end
         ++ " Mode.").

(** [STATE.ui.activeConversationId === conversationId]. *)
Definition isActive (conversationId : string) (w : World) : bool :=
  match activeConversationId w with
  | Some i => String.eqb i conversationId
  | None => false
  end.

(** [loadConversation(conversationId)]. *)
Definition loadConversation (conversationId : string) : M unit :=
  same <- gets (isActive conversationId) ;;
  if (same : bool) then ret tt
  else
    modify (set_activeConversationId (Some conversationId)) ;;
    UI renderChatArea ;;
    UI renderConversationHistory.

Module Storage.

(** [deleteConversation(conversationId)] of storage.js. *)
Definition deleteConversation (conversationId : string) : M unit :=
  modify (fun w =>
    set_conversations
      (filter (fun c => negb (hasConvId conversationId c)) (conversations w))
      w) ;;
  same <- gets (isActive conversationId) ;;
  when same (modify (set_activeConversationId None)) ;;
  saveConversations.

(** What [loadConversations] finds under [CONVERSATIONS_KEY]: nothing
    ([getItem] gives [null], or the empty text); a text [JSON.parse] turns
    into an array of conversation objects, as [saveConversations] writes
    them; or anything else, on which [getItem], [JSON.parse], [length] or
    [sort] throws. *)
Inductive StoredConversations : Type :=
| NothingStored
| StoredList (cs : list Conversation)
| Unreadable (e : Exn).

(** [cs.sort((a, b) => b.lastUpdated - a.lastUpdated)].  The sort of an
    array is stable, so with this comparator its result is fixed: a
    conversation comes before every one updated earlier, and
    conversations updated at the same time keep their order. *)
Fixpoint insertByLastUpdated (c : Conversation) (sorted : list Conversation)
  : list Conversation :=
  match sorted with
  | [] => [c]
  | d :: r =>
      if (conv_lastUpdated d <=? conv_lastUpdated c)%nat then c :: d :: r
      else d :: insertByLastUpdated c r
  end.

Definition sortByLastUpdated (cs : list Conversation) : list Conversation :=
  fold_right insertByLastUpdated [] cs.

(** [loadConversations()]. *)
Definition loadConversations (stored : StoredConversations) : M unit :=
  match stored with
  | StoredList cs =>
      modify (set_conversations cs) ;;
      modify (fun w =>
        set_conversations (sortByLastUpdated (conversations w)) w)
  | NothingStored => modify (set_conversations [])
  | Unreadable _ =>
      showToast error "Failed to load conversations from local storage." ;;
      modify (set_conversations [])
  end.

End Storage.

(* ================================================================== *)
(** ** utils.js: tokens and dates *)
(* ================================================================== *)

Definition hexDigit (d : nat) : ascii :=
  match String.get d "0123456789abcdef" with
  | Some c => c
  | None => "0"%char
  end.

(** [n.toString(16)] for a non-negative integer: its digits, the most
    significant first, none of them a leading zero. *)
Fixpoint toString16_from (fuel n : nat) (acc : string) : string :=
  match fuel with
  | O => acc
  | S k =>
      let acc' := String (hexDigit (n mod 16)) acc in
      if (n / 16 =? 0)%nat then acc' else toString16_from k (n / 16) acc'
  end.

Definition toString16 (n : nat) : string :=
  toString16_from (S n) n EmptyString.

Fixpoint repeatString (n : nat) (s : string) : string :=
  match n with
  | O => EmptyString
  | S k => s ++ repeatString k s
  end.

(** [s.padStart(targetLength, padString)]. *)
Definition padStart (targetLength : nat) (padString s : string) : string :=
  if (targetLength <=? String.length s)%nat then s
  else
    let missing := (targetLength - String.length s)%nat in
    substring_to missing (repeatString missing padString) ++ s.

(** [generateCsrfToken(bytes)].  [entropy i] is what
    [crypto.getRandomValues] puts at index [i]; an element of a
    [Uint8Array] holds it modulo 256. *)
Definition generateCsrfToken (entropy : nat -> nat) (bytes : nat) : string :=
  let array := map (fun i => entropy i mod 256) (seq 0 bytes) in
  join EmptyString
    (map (fun byte => padStart 2 "0" (toString16 byte)) array).

(** [formatDate(timestamp)].  [now] is what [new Date()] holds when the
    function runs and [getDate t] the day of the month of the instant [t]
    in the browser's time zone.  The quotient of two integers below 2^53
    and its floating-point value have the same ceiling. *)
Definition formatDate (getDate : Z -> Z) (now timestamp : Z) : string :=
  let diffTime := Z.abs (now - timestamp) in
  let diffDays := (- ((- diffTime) / (1000 * 60 * 60 * 24)))%Z in
  if ((diffDays <=? 1) && (getDate timestamp =? getDate now))%Z then "Today"
  else if ((diffDays <=? 2) && (getDate timestamp =? getDate now - 1))%Z
  then "Yesterday"
  else if (diffDays <=? 7)%Z then "This Week"
  else "Older".

(* ================================================================== *)
(** ** security.js *)
(* ================================================================== *)

(** [s.replace(pattern, replacement)] for a text pattern and a
    replacement without [$]: the first occurrence is replaced. *)
Fixpoint replace (pattern replacement s : string) : string :=
  if String.prefix pattern s
  then replacement ++ substring_from (String.length pattern) s
  else match s with
       | EmptyString => EmptyString
       | String c r => String c (replace pattern replacement r)
       end.

Module Security.

(** [STATE.security]. *)
Record Flags : Type := mkFlags {
  csrfToken : option string;
  cloudSyncActive : bool;
  adminProtectionActive : bool;
  antiSqliFilterActive : bool;
  csrfTokensActive : bool
}.

(** The four indicators of the settings modal.  [None]: the element is
    not in the document; [Some b]: it is, and [b] tells whether it
    carries the class [active]. *)
Record Panel : Type := mkPanel {
  statusCloudSync : option bool;
  statusAdminProtection : option bool;
  statusAntiSqli : option bool;
  statusCsrfTokens : option bool
}.

(** What the module works on: its variable [csrfTokenInMemory], the item
    [csrf_token] of [sessionStorage], [STATE.security] and the panel. *)
Record Session : Type := mkSession {
  csrfTokenInMemory : option string;
  csrf_token : option string;
  security : Flags;
  panel : Panel
}.

(** [element.classList.toggle('active', force)] behind [if (element)]. *)
Definition toggleActive (force : bool) (element : option bool) : option bool :=
  match element with
  | Some _ => Some force
  | None => None
  end.

(** [updateSecurityStatusUI()]. *)
Definition updateSecurityStatusUI (s : Session) : Session :=
  let f := security s in
  let p := panel s in
  mkSession (csrfTokenInMemory s) (csrf_token s) f
    (mkPanel (toggleActive (cloudSyncActive f) (statusCloudSync p))
       (toggleActive (adminProtectionActive f) (statusAdminProtection p))
       (toggleActive (antiSqliFilterActive f) (statusAntiSqli p))
       (toggleActive (csrfTokensActive f) (statusCsrfTokens p))).

(** A token as a condition: [null] and the empty text are falsy. *)
Definition present (token : option string) : bool :=
  match token with
  | Some t => negb (isEmpty t)
  | None => false
  end.

(** [initCsrfToken()]; [bytes] is [APP_CONSTANTS.CSRF_TOKEN_LENGTH_BYTES]. *)
Definition initCsrfToken (entropy : nat -> nat) (bytes : nat) (s : Session)
  : Session :=
  let storedToken := csrf_token s in
  let s1 :=
    if present storedToken
    then mkSession storedToken (csrf_token s) (security s) (panel s)
    else
      let token := generateCsrfToken entropy bytes in
      mkSession (Some token) (Some token) (security s) (panel s) in
  let f := security s1 in
  updateSecurityStatusUI
    (mkSession (csrfTokenInMemory s1) (csrf_token s1)
       (mkFlags (csrfTokenInMemory s1) (cloudSyncActive f)
          (adminProtectionActive f) (antiSqliFilterActive f) true)
       (panel s1)).

(** [verifyCsrfToken(actionName)]; the name is only logged. *)
Definition verifyCsrfToken (actionName : string) (s : Session) : bool :=
  let storedToken := csrf_token s in
  if negb (present (csrfTokenInMemory s)) || negb (present storedToken)
     || negb (match csrfTokenInMemory s, storedToken with
              | Some a, Some b => String.eqb a b
              | None, None => true
              | _, _ => false
              end)
  then false
  else true.

(** [window.location], as far as [enforceHttps] reads it. *)
Record Location : Type := mkLocation {
  protocol : string;
  hostname : string;
  href : string
}.

(** [enforceHttps()]: the address the window is sent to, if any. *)
Definition enforceHttps (l : Location) : option string :=
  if String.eqb (protocol l) "http:"
     && negb (String.eqb (hostname l) "localhost")
     && negb (String.eqb (hostname l) "127.0.0.1")
  then Some (replace "http" "https" (href l))
  else None.

End Security.

(** [deleteConversation(conversationId)] of chat.js. *)
Definition deleteConversation (session : Security.Session)
  (conversationId : string) : M unit :=
  if negb (Security.verifyCsrfToken "delete_conversation" session)
  then showToast error "Security error: CSRF token mismatch."
  else
    Storage.deleteConversation conversationId ;;
    UI renderApp.

(* ================================================================== *)
(** ** A concrete platform and concrete worlds for the examples *)
(* ================================================================== *)

Module Sample.

Definition quoted (s : string) : string :=
  String DQ (s ++ String DQ EmptyString).

(** The payload [{"choices":[{"delta":{"content":"d"}}]}] of a stream
    event carrying the delta [d]. *)
Definition payloadHead : string :=
  "{" ++ quoted "choices" ++ ":[{" ++ quoted "delta" ++ ":{"
  ++ quoted "content" ++ ":" ++ String DQ EmptyString.
Definition payloadTail : string := String DQ "}}]}".
Definition payload (d : string) : string := payloadHead ++ d ++ payloadTail.

(** The event as it travels: [data: payload]. *)
Definition event (d : string) : string := "data: " ++ payload d.

Fixpoint stripSuffix (suffix s : string) : option string :=
  if String.eqb s suffix then Some EmptyString
  else match s with
       | EmptyString => None
       | String c r => option_map (String c) (stripSuffix suffix r)
       end.

Fixpoint plainText (s : string) : bool :=
  match s with
  | EmptyString => true
  | String c r =>
      (32 <=? nat_of_ascii c)%nat && negb (Ascii.eqb c DQ)
      && negb (Ascii.eqb c "\"%char) && plainText r
  end.

(** [JSON.parse] on the payloads of the examples: a text of the shape
    above with a delta free of quotes, backslashes and control
    characters parses to the object it denotes; the other texts met in
    the examples are cut-off payloads, which [JSON.parse] rejects. *)
Definition parse (s : string) : option JSON :=
  if String.prefix payloadHead s then
    match stripSuffix payloadTail
            (substring_from (String.length payloadHead) s) with
    | Some d =>
        if plainText d then
          Some (JObj [("choices",
                  JArr [JObj [("delta", JObj [("content", JStr d)])]])])
        else None
    | None => None
    end
  else None.

Fixpoint contains (needle s : string) : bool :=
  String.prefix needle s
  || match s with
     | EmptyString => false
     | String _ r => contains needle r
     end.

Fixpoint escape (s : string) : string :=
  match s with
  | EmptyString => EmptyString
  | String c r =>
      (if Ascii.eqb c "&"%char then "&amp;"
       else if Ascii.eqb c "<"%char then "&lt;"
       else if Ascii.eqb c ">"%char then "&gt;"
       else String c EmptyString) ++ escape r
  end.

Fixpoint encode (s : string) : string :=
  match s with
  | EmptyString => EmptyString
  | String c r =>
      (if Ascii.eqb c " "%char then "%20" else String c EmptyString)
      ++ encode r
  end.

(** Identifiers [u], [uu], [uuu], ...: pairwise distinct. *)
Fixpoint uuid (n : nat) : string :=
  match n with
  | O => "u"
  | S k => String "u"%char (uuid k)
  end.

Definition platform : Platform :=
  mkPlatform parse
    (fun q => natToString (Z.to_nat (Qnum q / Zpos (Qden q))))
    uuid
    (fun n => n)
    [contains "--"; contains "#"]
    escape encode
    "https://javagoat.example" "JavaGoat" "1024x1024" 50.

Definition settingsWith (key provider model : string) : Settings :=
  mkSettings key "openrouter/auto" "You are a helpful assistant."
    provider model.

(** A world right after start-up: nothing stored, nothing running. *)
Definition idle (m : Mode) (st : Settings) (input : string) : World :=
  mkWorld [] None false false m st None [] input [] 0 0.

Definition okStream (chunks : list string) (ending : Await unit) : Response :=
  mkResponse 200 "OK" (Some "text/event-stream")
    (Rejected (mkExn "SyntaxError" "Unexpected token")) chunks ending.

Definition abortError : Exn :=
  mkExn "AbortError" "The user aborted a request.".

(** Text generation: a credential is set, the input holds [Hello]. *)
Definition chatWorld : World :=
  idle chat (settingsWith "sk-test" "pollinations" EmptyString) "Hello".

(** The same moment with a generation already running. *)
Definition busyWorld : World := set_isGenerating true chatWorld.

(** Only white space in the input. *)
Definition blankWorld : World :=
  idle chat (settingsWith "sk-test" "pollinations" EmptyString) "   ".

(** A stream of two events, [Hi] and [ there], then the end marker. *)
Definition twoDeltas : Response :=
  okStream [event "Hi" ++ LFLF;
            event " there" ++ LFLF ++ "data: [DONE]" ++ LFLF]
    (Resolved tt).

(** The same two events, then the stop button. *)
Definition stoppedAfterTwo : Response :=
  okStream [event "Hi" ++ LFLF; event " there" ++ LFLF] (Stopped abortError).

(** One event in one chunk, and the same text cut in two after its
    twentieth character. *)
Definition wholeChunk : string := event "Hi" ++ LFLF.
Definition firstHalf : string := substring_to 20 wholeChunk.
Definition secondHalf : string := substring_from 20 wholeChunk.

(** Image generation with the prompt [a cat]. *)
Definition imageWorld (provider key model : string) : World :=
  idle imageMode (settingsWith key provider model) "a cat".

Definition noJson : Await JSON :=
  Rejected (mkExn "SyntaxError" "Unexpected token").

Definition status500 : Await Response :=
  Resolved (mkResponse 500 "Internal Server Error" (Some "text/html")
              noJson [] (Resolved tt)).
Definition htmlPage : Await Response :=
  Resolved (mkResponse 200 "OK" (Some "text/html") noJson [] (Resolved tt)).
Definition networkDown : Await Response :=
  Rejected (mkExn "TypeError" "Failed to fetch").

(** Stored conversations for regeneration. *)
Definition stored (i : string) (r : Role) (content : string) : Message :=
  mkMessage i r text content 0 None None None.

Definition withConversation (ms : list Message) (busy : bool) : World :=
  mkWorld [mkConversation "c1" "Sample" ms 0] (Some "c1") busy false chat
    (settingsWith "sk-test" "pollinations" EmptyString) None [] EmptyString
    [] 0 0.

Definition answered : World :=
  withConversation [stored "m1" user "Hi"; stored "m2" ai "Hello!"] false.
Definition answering : World :=
  withConversation [stored "m1" user "Hi"; stored "m2" ai "Hel"] true.
Definition assistantOnly : World :=
  withConversation [stored "m1" ai "Welcome"; stored "m2" ai "Hello!"] false.
Definition singleMessage : World :=
  withConversation [stored "m1" user "Hi"] false.

(** The sample platform with a default size of one number. *)
Definition squarePlatform : Platform :=
  mkPlatform (JSON_parse platform) (Number_toString platform)
    (uuidAt platform) (timeAt platform) (sqlInjectionPatterns platform)
    (escapeHTML platform) (encodeURIComponent platform)
    (location_origin platform) (APP_NAME platform) "512"
    (CONVERSATION_TITLE_MAX_LENGTH platform).

(** The security module before [initCsrfToken] has run, in a document
    without the settings modal, and after it has. *)
Definition freshSession : Security.Session :=
  Security.mkSession None None
    (Security.mkFlags None false false true false)
    (Security.mkPanel None None None None).

Definition entropy (i : nat) : nat := 7 * i + 171.

Definition verifiedSession : Security.Session :=
  Security.initCsrfToken entropy 16 freshSession.

(** A calendar on which the instants before 1699950000000 fall on the
    31st and the later ones on the 1st. *)
Definition calendar (t : Z) : Z :=
  if (t <? 1699950000000)%Z then 31%Z else 1%Z.

Definition plainSite : Security.Location :=
  Security.mkLocation "http:" "javagoat.example"
    "http://javagoat.example/chat?from=http".

(** Two stored conversations, the first one active. *)
Definition twoConversations : World :=
  mkWorld [mkConversation "c1" "First" [stored "m1" user "Hi"] 5;
           mkConversation "c2" "Second" [] 3]
    (Some "c1") false false chat
    (settingsWith "sk-test" "pollinations" EmptyString) None []
    EmptyString [] 0 0.

(** Nothing stored and nothing typed. *)
Definition empty : World :=
  idle chat (settingsWith "sk-test" "pollinations" EmptyString) EmptyString.

(** A generation under way, with its controller. *)
Definition running : World :=
  set_signals [false] (set_abortController (Some 0) busyWorld).

(** No credential. *)
Definition keyless : World :=
  idle chat (settingsWith EmptyString "pollinations" EmptyString) "Hello".

(** An input the filter rejects. *)
Definition suspicious : World :=
  idle chat (settingsWith "sk-test" "pollinations" EmptyString)
    "drop -- table".

Definition status401 : Response :=
  mkResponse 401 "Unauthorized" (Some "application/json")
    (Resolved
       (JObj [("error",
               JObj [("message", JStr "No auth credentials found")])]))
    [] (Resolved tt).

Definition networkError : Exn := mkExn "TypeError" "network error".

(** One event, then the connection breaks. *)
Definition brokenStream : Response :=
  okStream [event "Hi" ++ LFLF] (Rejected networkError).

Definition imageData : JSON :=
  JObj [("data", JArr [JObj [("url", JStr "https://img.example/1.png")]])].

Definition imageAnswer : Response :=
  mkResponse 200 "OK" (Some "application/json") (Resolved imageData) []
    (Resolved tt).

End Sample.

(* ================================================================== *)
(** ** Observations on worlds and traces used by the statements *)
(* ================================================================== *)

(** The requests of a trace, in the order they were issued. *)
Definition requestsOf (es : list Effect) : list Request :=
  flat_map (fun e => match e with Fetch r => [r] | _ => [] end) es.

(** Every [finally] block of the sessions and of the entry points calls
    [UI.showTypingIndicator(false)] once, and nothing else calls it: the
    number of these calls in a trace is the number of finalizations run. *)
Definition finalizationRuns (es : list Effect) : nat :=
  List.length
    (filter (fun e => match e with
                      | Ui (showTypingIndicator false) => true
                      | _ => false
                      end) es).

(** The contents the store was patched with while streaming, one per
    patch. *)
Definition streamingPatches (es : list Effect) : list string :=
  flat_map (fun e => match e with
                     | Ui (appendMessageToChat m true) => [msg_content m]
                     | _ => []
                     end) es.

(** [D1; D1+D2; ...; D1+...+Dn], starting from the accumulator [acc]. *)
Fixpoint runningConcat (acc : string) (deltas : list string) : list string :=
  match deltas with
  | [] => []
  | d :: r => (acc ++ d) :: runningConcat (acc ++ d) r
  end.

Definition concatAll (deltas : list string) : string :=
  fold_left String.append deltas EmptyString.

(** The last message of the active conversation. *)
Definition lastMessage (w : World) : option Message :=
  match findActive w with
  | Some c => last (map Some (conv_messages c)) None
  | None => None
  end.

(** The fields the message-store operations leave alone. *)
Definition controlOf (w : World) :=
  (activeConversationId w, isGenerating w, isTyping w, mode w, settings w,
   abortController w, signals w, chatInput w, uuidCalls w).

Definition isFetch (e : Effect) : bool :=
  match e with Fetch _ => true | _ => false end.
Definition isFinalization (e : Effect) : bool :=
  match e with Ui (showTypingIndicator false) => true | _ => false end.

Definition isPatch (e : Effect) : bool :=
  match e with Ui (appendMessageToChat _ true) => true | _ => false end.

(** Effects that are neither a request nor part of a finalization, and
    those among them that are not a streaming patch either. *)
Definition quiet (e : Effect) : bool :=
  negb (isFetch e) && negb (isFinalization e).
Definition plain (e : Effect) : bool := quiet e && negb (isPatch e).
Definition notFinalization (e : Effect) : bool := negb (isFinalization e).
Definition notFetch (e : Effect) : bool := negb (isFetch e).

(** [f] only adds effects satisfying [allowed] to the trace. *)
Definition AddsOnly (allowed : Effect -> bool) (f : World -> World) : Prop :=
  forall w, exists es,
    effects (f w) = (effects w ++ es)%list /\ forallb allowed es = true.

Definition EmitsOnly {A : Type} (allowed : Effect -> bool) (m : M A) : Prop :=
  AddsOnly allowed (fun w => snd (m w)).

(** [m] always returns: it never leaves by a throw. *)
Definition Returns {A : Type} (m : M A) : Prop :=
  forall w, exists a, fst (m w) = Returned a.

(** [m] runs at most [n] finalizations. *)
Definition FinalizesAtMost {A : Type} (n : nat) (m : M A) : Prop :=
  forall w, exists es,
    effects (snd (m w)) = (effects w ++ es)%list
    /\ (finalizationRuns es <= n)%nat.

(** The active conversation ends with the message [m], which carries the
    identifier [i], after the messages [pre]. *)
Definition Target (i : string) (pre : list Message) (w : World) (m : Message)
  : Prop :=
  exists c, findActive w = Some c
            /\ conv_messages c = (pre ++ [m])%list
            /\ msg_id m = i.

(** No message of [pre] carries the identifier [i]. *)
Definition freshIn (i : string) (pre : list Message) : bool :=
  forallb (fun m => negb (hasMsgId i m)) pre.

(** An event payload holds no line feed: it is one line. *)
Fixpoint noLineFeed (s : string) : bool :=
  match s with
  | EmptyString => true
  | String c r => negb (Ascii.eqb c LF) && noLineFeed r
  end.

(** The chunk that carries the given events whole, each followed by the
    delimiter. *)
Fixpoint chunkOf (events : list string) : string :=
  match events with
  | [] => EmptyString
  | e :: r => e ++ LFLF ++ chunkOf r
  end.

(** While the world goes from [w] to [w'], the deltas are appended to
    the target message [m], giving [m']: its content grows from [acc] by
    the deltas in order, the store is patched once per delta with the
    running content, and nothing else of note happens. *)
Definition StreamedInto (i : string) (pre : list Message) (acc : string)
  (deltas : list string) (w : World) (m : Message) (w' : World)
  (m' : Message) : Prop :=
  Target i pre w' m'
  /\ msg_content m' = fold_left String.append deltas acc
  /\ msg_role m' = msg_role m
  /\ msg_type m' = msg_type m
  /\ controlOf w' = controlOf w
  /\ exists es,
       effects w' = (effects w ++ es)%list
       /\ streamingPatches es = runningConcat acc deltas
       /\ forallb quiet es = true.

Section SessionView.

Variable P : Platform.

(** The messages a text session finds stored when it starts: none when
    it opens a new conversation. *)
Definition storedHistory (w : World) : list Message :=
  if needsNewConversation w then []
  else match findActive w with
       | Some c => conv_messages c
       | None => []
       end.

(** The session reaches its request: the active identifier, when there
    is one, names a stored conversation. *)
Definition conversationResolves (w : World) : bool :=
  needsNewConversation w
  || match findActive w with Some _ => true | None => false end.

(** The identifiers a text session draws for the user message and for
    the placeholder (after the one of a new conversation, if any). *)
Definition userIdOf (w : World) : string :=
  uuidAt P (uuidCalls w + (if needsNewConversation w then 1 else 0)).
Definition targetIdOf (w : World) : string :=
  uuidAt P (S (uuidCalls w + (if needsNewConversation w then 1 else 0))).

(** [crypto.randomUUID()] gives the placeholder an identifier no message
    of the conversation carries yet. *)
Definition targetIdFresh (w : World) : bool :=
  freshIn (targetIdOf w) (storedHistory w)
  && negb (String.eqb (userIdOf w) (targetIdOf w)).

(** A well-formed event: the [data: ] prefix, then a one-line payload
    that is not the end marker and parses to a record whose
    [choices[0].delta.content] is the non-empty string [d]. *)
Definition wellFormedEvent (e d : string) : Prop :=
  exists (js : string) (data : JSON),
    e = ("data: " ++ js)%string
    /\ noLineFeed js = true
    /\ String.eqb js "[DONE]" = false
    /\ JSON_parse P js = Some data
    /\ (exists choices first delta,
           prop "choices" data = Some choices
           /\ item0 choices = Some first
           /\ prop "delta" first = Some delta
           /\ prop "content" delta = Some (JStr d))
    /\ isEmpty d = false.

(** How a request ends that delivers no stream: whether the stop button
    was pressed, and the error the [try] block of [sendChatMessage] is
    left with.  A response is read here as one whose status is outside
    the 200s. *)
Definition requestFailure (net : Await Response) : bool * Exn :=
  match net with
  | Rejected e => (false, e)
  | Stopped e => (true, e)
  | Resolved response =>
      match json response with
      | Resolved errorData =>
          (false, responseError P errorData (statusText response))
      | Rejected e => (false, e)
      | Stopped e => (true, e)
      end
  end.

End SessionView.

(** The messages of the active conversation, none when there is none. *)
Definition activeMessages (w : World) : list Message :=
  match findActive w with
  | Some c => conv_messages c
  | None => []
  end.

(** Every character of [s] satisfies [p]; the character [c] does not
    occur in [s]. *)
Fixpoint allChars (p : ascii -> bool) (s : string) : bool :=
  match s with
  | EmptyString => true
  | String c r => p c && allChars p r
  end.

Definition lacks (c : ascii) (s : string) : bool :=
  allChars (fun d => negb (Ascii.eqb d c)) s.

Definition isHexDigit (c : ascii) : bool :=
  existsb (Ascii.eqb c) (list_ascii_of_string "0123456789abcdef").

(** The two digits [generateCsrfToken] writes for a byte. *)
Definition hexPair (byte : nat) : string := padStart 2 "0" (toString16 byte).

(** The conversations come newest first. *)
Fixpoint newestFirst (cs : list Conversation) : bool :=
  match cs with
  | [] => true
  | c :: r =>
      forallb (fun d => (conv_lastUpdated d <=? conv_lastUpdated c)%nat) r
      && newestFirst r
  end.

(** What [localStorage] holds under the conversations key after the
    writes of a trace, when it held [before] at its start. *)
Definition storedAfter (before : list Conversation) (es : list Effect)
  : list Conversation :=
  fold_left (fun held e => match e with
                           | Persist snapshot => snapshot
                           | _ => held
                           end) es before.
Arguments storedAfter : simpl never.

(** [localStorage] holds the conversations of [STATE]. *)
Definition InStep (before : list Conversation) (w : World) : Prop :=
  storedAfter before (effects w) = conversations w.

(** Every run of [m] takes the world along the relation [R]. *)
Definition Steps {A : Type} (R : World -> World -> Prop) (m : M A) : Prop :=
  forall w, R w (snd (m w)).

(** The part [f] of the world is the same in both worlds. *)
Definition keeping {X : Type} (f : World -> X) (w w' : World) : Prop :=
  f w' = f w.

(** If [localStorage] holds the conversations of [STATE] in the first
    world, it does in the second. *)
Definition inStep (w w' : World) : Prop :=
  forall before, InStep before w -> InStep before w'.

(** [m] brings [localStorage] and [STATE] in step from wherever it
    starts. *)
Definition GetsInStep {A : Type} (m : M A) : Prop :=
  forall before w, InStep before (snd (m w)).

Definition notPersist (e : Effect) : bool :=
  match e with Persist _ => false | _ => true end.

(** The settings and the mode; the conversations and the one that is
    active. *)
Definition configuration (w : World) : Settings * Mode :=
  (settings w, mode w).

Definition store (w : World) : list Conversation * option string :=
  (conversations w, activeConversationId w).

(** A relation between worlds that composes, and that holds across the
    bookkeeping of the platform: a drawn identifier, a read clock, a new
    or an aborted signal, the typing flag, and an effect other than a
    write to [localStorage]. *)
Record StepOrder (R : World -> World -> Prop) : Prop := mkStepOrder {
  step_refl : forall w, R w w;
  step_trans : forall a b c, R a b -> R b c -> R a c;
  step_uuid : forall n w, R w (set_uuidCalls n w);
  step_clock : forall n w, R w (set_clockCalls n w);
  step_signals : forall s w, R w (set_signals s w);
  step_typing : forall b w, R w (set_isTyping b w);
  step_effect :
    forall e w, notPersist e = true -> R w (set_effects (effects w ++ [e])%list w)
}.
Arguments step_refl : clear implicits.
Arguments step_trans : clear implicits.
Arguments step_uuid : clear implicits.
Arguments step_clock : clear implicits.
Arguments step_signals : clear implicits.
Arguments step_typing : clear implicits.
Arguments step_effect : clear implicits.

(* ================================================================== *)
(** * Properties *)
(* ================================================================== *)

Local Open Scope list_scope.
Unset Implicit Arguments.

(** ** Arrays *)

Lemma find_app_fresh (A : Type) (p : A -> bool) (pre : list A) (x : A) :
  forallb (fun y => negb (p y)) pre = true ->
  p x = true ->
  find p (pre ++ [x]) = Some x.
Proof.
  induction pre as [|y pre IH]; simpl; intros Hpre Hx.
  - now rewrite Hx.
  - apply andb_true_iff in Hpre as [Hy Hpre].
    apply negb_true_iff in Hy. rewrite Hy. now apply IH.
Qed.

Lemma updateFirst_app_fresh (A : Type) (p : A -> bool) (f : A -> A)
  (pre : list A) (x : A) :
  forallb (fun y => negb (p y)) pre = true ->
  p x = true ->
  updateFirst p f (pre ++ [x]) = pre ++ [f x].
Proof.
  induction pre as [|y pre IH]; simpl; intros Hpre Hx.
  - now rewrite Hx.
  - apply andb_true_iff in Hpre as [Hy Hpre].
    apply negb_true_iff in Hy. rewrite Hy. f_equal. now apply IH.
Qed.

Lemma find_updateFirst (A : Type) (p : A -> bool) (f : A -> A)
  (l : list A) (x : A) :
  find p l = Some x ->
  p (f x) = true ->
  find p (updateFirst p f l) = Some (f x).
Proof.
  induction l as [|y l IH]; simpl; intros Hfind Hfx; [discriminate|].
  destruct (p y) eqn:Hy.
  - injection Hfind as ->. simpl. now rewrite Hfx.
  - simpl. rewrite Hy. now apply IH.
Qed.

Lemma find_hasConvId (i : string) (l : list Conversation) (c : Conversation) :
  find (hasConvId i) l = Some c -> conv_id c = i.
Proof.
  intros H. apply find_some in H as [_ H]. now apply String.eqb_eq in H.
Qed.

Lemma last_map_Some_app (A : Type) (l : list A) (x : A) :
  last (map Some (l ++ [x])) None = Some x.
Proof.
  rewrite map_app. simpl. now rewrite last_last.
Qed.

(** ** Traces *)

Lemma requestsOf_app (a b : list Effect) :
  requestsOf (a ++ b) = requestsOf a ++ requestsOf b.
Proof. apply flat_map_app. Qed.

Lemma streamingPatches_app (a b : list Effect) :
  streamingPatches (a ++ b) = streamingPatches a ++ streamingPatches b.
Proof. apply flat_map_app. Qed.

Lemma finalizationRuns_app (a b : list Effect) :
  finalizationRuns (a ++ b) = finalizationRuns a + finalizationRuns b.
Proof. unfold finalizationRuns. now rewrite filter_app, length_app. Qed.

Lemma requestsOf_notFetch (es : list Effect) :
  forallb notFetch es = true -> requestsOf es = [].
Proof.
  induction es as [|e es IH]; simpl; [reflexivity|].
  intros H. apply andb_true_iff in H as [He Hes].
  destruct e; try discriminate; simpl; auto.
Qed.

Lemma finalizationRuns_notFinalization (es : list Effect) :
  forallb notFinalization es = true -> finalizationRuns es = 0.
Proof.
  unfold finalizationRuns.
  induction es as [|e es IH]; simpl; [reflexivity|].
  intros H. apply andb_true_iff in H as [He Hes].
  apply negb_true_iff in He. unfold isFinalization in He.
  destruct e as [| |[]|]; simpl; auto.
  destruct show; simpl; auto; discriminate.
Qed.

Lemma streamingPatches_plain (es : list Effect) :
  forallb plain es = true -> streamingPatches es = [].
Proof.
  induction es as [|e es IH]; simpl; [reflexivity|].
  intros H. apply andb_true_iff in H as [He Hes].
  unfold plain in He. apply andb_true_iff in He as [_ He].
  destruct e as [| |[]|]; simpl; auto.
  destruct isStreaming; simpl; auto; discriminate.
Qed.

Lemma plain_quiet (e : Effect) : plain e = true -> quiet e = true.
Proof. unfold plain. intros H. now apply andb_true_iff in H. Qed.

Lemma quiet_notFetch (e : Effect) : quiet e = true -> notFetch e = true.
Proof. unfold quiet. intros H. now apply andb_true_iff in H. Qed.

Lemma quiet_notFinalization (e : Effect) :
  quiet e = true -> notFinalization e = true.
Proof. unfold quiet. intros H. now apply andb_true_iff in H. Qed.

Lemma forallb_impl (A : Type) (p q : A -> bool) (l : list A) :
  (forall x, p x = true -> q x = true) ->
  forallb p l = true -> forallb q l = true.
Proof. intros Hpq. rewrite !forallb_forall. auto. Qed.

Section Rules.

Variable allowed : Effect -> bool.

Lemma AddsOnly_id : AddsOnly allowed (fun w => w).
Proof. intros w. exists []. now rewrite app_nil_r. Qed.

Lemma AddsOnly_comp (f g : World -> World) :
  AddsOnly allowed f -> AddsOnly allowed g ->
  AddsOnly allowed (fun w => g (f w)).
Proof.
  intros Hf Hg w. destruct (Hf w) as (e1 & E1 & A1).
  destruct (Hg (f w)) as (e2 & E2 & A2).
  exists (e1 ++ e2). rewrite E2, E1, app_assoc, forallb_app, A1, A2. auto.
Qed.

Lemma EmitsOnly_ret (A : Type) (a : A) : EmitsOnly allowed (ret a).
Proof. apply AddsOnly_id. Qed.

Lemma EmitsOnly_throw (A : Type) (e : Exn) : EmitsOnly allowed (@throw A e).
Proof. apply AddsOnly_id. Qed.

Lemma EmitsOnly_gets (A : Type) (f : World -> A) : EmitsOnly allowed (gets f).
Proof. apply AddsOnly_id. Qed.

Lemma EmitsOnly_modify (f : World -> World) :
  (forall w, effects (f w) = effects w) -> EmitsOnly allowed (modify f).
Proof.
  intros Hf w. exists []. simpl. now rewrite Hf, app_nil_r.
Qed.

Lemma EmitsOnly_emit (e : Effect) :
  allowed e = true -> EmitsOnly allowed (emit e).
Proof. intros He w. exists [e]. simpl. now rewrite He. Qed.

Lemma EmitsOnly_bind (A B : Type) (m : M A) (k : A -> M B) :
  EmitsOnly allowed m -> (forall a, EmitsOnly allowed (k a)) ->
  EmitsOnly allowed (bind m k).
Proof.
  intros Hm Hk w. unfold bind. destruct (Hm w) as (e1 & E1 & A1).
  destruct (m w) as [[a|e] w1] eqn:Hrun; simpl in E1.
  - destruct (Hk a w1) as (e2 & E2 & A2).
    exists (e1 ++ e2). rewrite E2, E1, app_assoc, forallb_app, A1, A2. auto.
  - exists e1. simpl. auto.
Qed.

Lemma EmitsOnly_tryCatch (A : Type) (m : M A) (h : Exn -> M A) :
  EmitsOnly allowed m -> (forall e, EmitsOnly allowed (h e)) ->
  EmitsOnly allowed (tryCatch m h).
Proof.
  intros Hm Hh w. unfold tryCatch. destruct (Hm w) as (e1 & E1 & A1).
  destruct (m w) as [[a|e] w1] eqn:Hrun; simpl in E1.
  - exists e1. simpl. auto.
  - destruct (Hh e w1) as (e2 & E2 & A2).
    exists (e1 ++ e2). rewrite E2, E1, app_assoc, forallb_app, A1, A2. auto.
Qed.

Lemma EmitsOnly_tryFinally (A : Type) (m : M A) (fin : M unit) :
  EmitsOnly allowed m -> EmitsOnly allowed fin ->
  EmitsOnly allowed (tryFinally m fin).
Proof.
  intros Hm Hf w. unfold tryFinally. destruct (Hm w) as (e1 & E1 & A1).
  destruct (m w) as [r w1] eqn:Hrun; simpl in E1.
  destruct (Hf w1) as (e2 & E2 & A2).
  exists (e1 ++ e2).
  destruct (fin w1) as [[u|e] w2]; simpl in *;
    rewrite E2, E1, app_assoc, forallb_app, A1, A2; auto.
Qed.

Lemma EmitsOnly_when (b : bool) (m : M unit) :
  EmitsOnly allowed m -> EmitsOnly allowed (when b m).
Proof. destruct b; simpl; auto using EmitsOnly_ret. Qed.

End Rules.

Lemma EmitsOnly_weaken (A : Type) (a1 a2 : Effect -> bool) (m : M A) :
  (forall e, a1 e = true -> a2 e = true) ->
  EmitsOnly a1 m -> EmitsOnly a2 m.
Proof.
  intros Hsub Hm w. destruct (Hm w) as (es & E & Hall).
  exists es. split; [assumption|]. now apply forallb_impl with a1.
Qed.

Lemma EmitsOnly_plain_quiet (A : Type) (m : M A) :
  EmitsOnly plain m -> EmitsOnly quiet m.
Proof. apply EmitsOnly_weaken, plain_quiet. Qed.

Lemma EmitsOnly_quiet_notFinalization (A : Type) (m : M A) :
  EmitsOnly quiet m -> EmitsOnly notFinalization m.
Proof. apply EmitsOnly_weaken, quiet_notFinalization. Qed.

Lemma EmitsOnly_quiet_notFetch (A : Type) (m : M A) :
  EmitsOnly quiet m -> EmitsOnly notFetch m.
Proof. apply EmitsOnly_weaken, quiet_notFetch. Qed.

(** Follows the structure of a computation to show which effects it can
    add. *)
Ltac emits_step :=
  match goal with
  | |- EmitsOnly _ (bind _ _) => apply EmitsOnly_bind; [|intro]
  | |- EmitsOnly _ (tryCatch _ _) => apply EmitsOnly_tryCatch; [|intro]
  | |- EmitsOnly _ (tryFinally _ _) => apply EmitsOnly_tryFinally
  | |- EmitsOnly _ (when _ _) => apply EmitsOnly_when
  | |- EmitsOnly _ (ret _) => apply EmitsOnly_ret
  | |- EmitsOnly _ (throw _) => apply EmitsOnly_throw
  | |- EmitsOnly _ (gets _) => apply EmitsOnly_gets
  | |- EmitsOnly _ (modify _) => apply EmitsOnly_modify; reflexivity
  | |- EmitsOnly _ (emit _) => apply EmitsOnly_emit; reflexivity
  | |- EmitsOnly _ (showToast _ _) => apply EmitsOnly_emit; reflexivity
  | |- EmitsOnly _ (UI _) => apply EmitsOnly_emit; reflexivity
  | |- EmitsOnly _ (if ?b then _ else _) => destruct b
  | |- EmitsOnly _ (match ?o with _ => _ end) => destruct o
  end.

Create HintDb emits.

Ltac emits :=
  repeat (first
    [ solve [auto with emits nocore]
    | solve [apply EmitsOnly_plain_quiet; auto with emits nocore]
    | solve [apply EmitsOnly_quiet_notFinalization; auto with emits nocore]
    | solve [apply EmitsOnly_quiet_notFinalization, EmitsOnly_plain_quiet;
             auto with emits nocore]
    | emits_step ]).

(** ** The message store *)

Section Store.

Variable P : Platform.

Lemma randomUUID_plain : EmitsOnly plain (randomUUID P).
Proof. intros w. exists []. simpl. now rewrite app_nil_r. Qed.

Lemma Date_now_plain : EmitsOnly plain (Date_now P).
Proof. intros w. exists []. simpl. now rewrite app_nil_r. Qed.

Hint Resolve randomUUID_plain Date_now_plain : emits.

Lemma saveConversations_plain : EmitsOnly plain saveConversations.
Proof. unfold saveConversations. emits. Qed.

Lemma writeConversation_plain i f : EmitsOnly plain (writeConversation i f).
Proof. unfold writeConversation. emits. Qed.

Hint Resolve saveConversations_plain writeConversation_plain : emits.

Lemma saveConversation_plain i : EmitsOnly plain (saveConversation P i).
Proof. unfold saveConversation. emits. Qed.

Hint Resolve saveConversation_plain : emits.

Lemma startNewConversation_plain s :
  EmitsOnly plain (startNewConversation P s).
Proof. unfold startNewConversation. emits. Qed.

Lemma pushMessage_plain i m : EmitsOnly plain (pushMessage P i m).
Proof. unfold pushMessage. emits. Qed.

Hint Resolve startNewConversation_plain pushMessage_plain : emits.

Lemma addMessageToConversation_plain m :
  EmitsOnly plain (addMessageToConversation P m).
Proof. unfold addMessageToConversation. emits. Qed.

Lemma updateLastMessageContent_quiet i c e em :
  EmitsOnly quiet (updateLastMessageContent P i c e em).
Proof. unfold updateLastMessageContent. emits. Qed.

Lemma stopGenerating_plain : EmitsOnly plain stopGenerating.
Proof. unfold stopGenerating. emits. Qed.

Lemma await_plain (A : Type) (p : Await A) : EmitsOnly plain (await p).
Proof. unfold await. pose proof stopGenerating_plain. emits. Qed.

Lemma newAbortController_plain : EmitsOnly plain newAbortController.
Proof. intros w. exists []. simpl. now rewrite app_nil_r. Qed.

Lemma filterSQLi_plain (input : string) : EmitsOnly plain (filterSQLi P input).
Proof. unfold filterSQLi, sanitizeInput. emits. Qed.

End Store.

#[export] Hint Resolve randomUUID_plain Date_now_plain saveConversations_plain
  writeConversation_plain saveConversation_plain startNewConversation_plain
  pushMessage_plain addMessageToConversation_plain
  updateLastMessageContent_quiet stopGenerating_plain await_plain
  newAbortController_plain filterSQLi_plain : emits.

(** ** The guards of the send entry point *)

Section Guards.

Variable P : Platform.


(** C4.  A send made while a generation is active is rejected with a
    warning and changes nothing: the world after the call is the world
    before it with one warning toast added to the trace; no controller
    is created and no conversation or message is touched. *)
Theorem handleSendMessage_while_generating (net : Await Response) (w : World) :
  isGenerating w = true ->
  exists notice : string,
    handleSendMessage P net w
    = (Returned tt, set_effects (effects w ++ [Toast warning notice]) w).
Proof.
  intros Hbusy. unfold handleSendMessage, bind, gets.
  destruct (isEmpty (trim (chatInput w))).
  - eexists. reflexivity.
  - rewrite Hbusy. eexists. reflexivity.
Qed.

End Guards.

(** ** The stream decoder *)

Lemma append_empty_r (s : string) : (s ++ EmptyString)%string = s.
Proof. induction s as [|c s IH]; simpl; congruence. Qed.

Lemma append_assoc (a b c : string) :
  ((a ++ b) ++ c)%string = (a ++ (b ++ c))%string.
Proof. induction a as [|x a IH]; simpl; congruence. Qed.

(** A piece without line feed, followed by the delimiter, is split off
    whole. *)
Lemma split_from_event (e cur rest : string) :
  noLineFeed e = true ->
  split_from LFLF 0 cur (e ++ LFLF ++ rest)%string
  = (cur ++ e)%string :: split_from LFLF 0 EmptyString rest.
Proof.
  revert cur. induction e as [|c e IH]; intros cur Hno.
  - rewrite append_empty_r. destruct rest; reflexivity.
  - simpl in Hno. apply andb_true_iff in Hno as [Hc Hno].
    apply negb_true_iff in Hc.
    change ((String c e ++ LFLF ++ rest)%string)
      with (String c (e ++ LFLF ++ rest)%string).
    cbn [split_from]. 
    assert (Hp : String.prefix LFLF (String c (e ++ LFLF ++ rest)%string) = false).
    { unfold LFLF. cbn [String.prefix].
      destruct (ascii_dec LF c) as [Heq|Hne]; [|reflexivity].
      rewrite <- Heq, Ascii.eqb_refl in Hc. discriminate. }
    rewrite Hp, IH by exact Hno.
    now rewrite append_assoc.
Qed.

Lemma split_chunkOf (events : list string) :
  forallb noLineFeed events = true ->
  split LFLF (chunkOf events) = events ++ [EmptyString].
Proof.
  unfold split. induction events as [|e events IH]; intros Hall.
  - reflexivity.
  - simpl in Hall. apply andb_true_iff in Hall as [He Hall].
    cbn [chunkOf]. rewrite split_from_event by exact He.
    simpl. now rewrite IH.
Qed.

Section Decoder.
Variable P : Platform.

Lemma deltaList_empty : deltaList P EmptyString = [].
Proof. reflexivity. Qed.

(** The deltas of a chunk of whole events are those of its events. *)
Lemma chunkDeltas_chunkOf (events : list string) :
  forallb noLineFeed events = true ->
  chunkDeltas P (chunkOf events) = flat_map (deltaList P) events.
Proof.
  intros Hall. unfold chunkDeltas. rewrite split_chunkOf by exact Hall.
  rewrite flat_map_app. simpl. now rewrite app_nil_r.
Qed.

Lemma streamDeltas_chunkOf (groups : list (list string)) :
  forallb noLineFeed (concat groups) = true ->
  streamDeltas P (map chunkOf groups) = flat_map (deltaList P) (concat groups).
Proof.
  unfold streamDeltas. induction groups as [|g groups IH]; intros Hall.
  - reflexivity.
  - simpl in *. rewrite forallb_app in Hall.
    apply andb_true_iff in Hall as [Hg Hall].
    now rewrite flat_map_app, chunkDeltas_chunkOf, IH.
Qed.

Lemma optProp_Some (k : string) (v x : JSON) :
  prop k v = Some x -> optProp k (Some v) = Some x.
Proof. intros H. destruct v; simpl in *; try discriminate; exact H. Qed.

Lemma deltaList_wellFormed (e d : string) :
  wellFormedEvent P e d -> deltaList P e = [d].
Proof.
  intros (js & data & -> & _ & Hdone & Hparse
          & (choices & first & delta & Hch & Hfirst & Hdelta & Hcontent)
          & Hd).
  unfold deltaList, partDelta.
  change (startsWith "data: " ("data: " ++ js)%string)
    with (String.prefix EmptyString js).
  change (substring_from 6 ("data: " ++ js)%string) with js.
  assert (Hpre : String.prefix EmptyString js = true) by (destruct js; reflexivity).
  rewrite Hpre, Hdone, Hparse.
  assert (Hdelta' : deltaOf data = Returned (JStr d)).
  { unfold deltaOf. rewrite Hch.
    assert (Hc : choices <> JNull) by (intros ->; discriminate).
    rewrite Hfirst, (optProp_Some _ _ _ Hdelta), (optProp_Some _ _ _ Hcontent).
    simpl. rewrite Hd. simpl.
    destruct data; try discriminate; destruct choices; try reflexivity;
      contradiction. }
  rewrite Hdelta'. simpl. now rewrite Hd.
Qed.


Lemma noLineFeed_event (js : string) :
  noLineFeed js = true -> noLineFeed ("data: " ++ js)%string = true.
Proof. intros H. simpl. exact H. Qed.

Lemma wellFormedEvents_deltas (events ds : list string) :
  Forall2 (wellFormedEvent P) events ds ->
  forallb noLineFeed events = true
  /\ flat_map (deltaList P) events = ds.
Proof.
  induction 1 as [|e d events ds He _ [IHno IHds]]; [split; reflexivity|].
  simpl. rewrite (deltaList_wellFormed e d He), IHds, IHno.
  split; [|reflexivity].
  destruct He as (js & data & -> & Hno & _). now rewrite noLineFeed_event.
Qed.

(** The deltas of a stream that carries well-formed events whole are the
    content fields of the events, in order. *)
Lemma streamDeltas_wellFormed (groups : list (list string)) (ds : list string) :
  Forall2 (wellFormedEvent P) (concat groups) ds ->
  streamDeltas P (map chunkOf groups) = ds.
Proof.
  intros H. destruct (wellFormedEvents_deltas _ _ H) as [Hno Hds].
  now rewrite streamDeltas_chunkOf.
Qed.

(** C3, as the code has it.  The decoder keeps nothing between chunks:
    each chunk is split and decoded on its own.  Decoding is therefore
    invariant under re-chunking along event boundaries only: however the
    events of a stream (each one line, each followed by the
    double-newline delimiter) are grouped into chunks of whole events,
    the same deltas come out, in the same order. *)
Theorem rechunking_along_event_boundaries (groups1 groups2 : list (list string)) :
  concat groups1 = concat groups2 ->
  forallb noLineFeed (concat groups1) = true ->
  streamDeltas P (map chunkOf groups1) = streamDeltas P (map chunkOf groups2).
Proof.
  intros Hsame Hall.
  rewrite !streamDeltas_chunkOf; [now rewrite Hsame | now rewrite <- Hsame | assumption].
Qed.

End Decoder.

(** ** The text generation session *)

Section TextSession.
Variable P : Platform.

Lemma findActive_id (w : World) (c : Conversation) :
  findActive w = Some c -> activeConversationId w = Some (conv_id c).
Proof.
  unfold findActive. destruct (activeConversationId w) as [i|]; [|discriminate].
  intros H. apply find_hasConvId in H. now subst.
Qed.

Lemma find_conv_update (i : string) (F : Conversation -> Conversation)
  (l : list Conversation) :
  (forall c, conv_id (F c) = conv_id c) ->
  find (hasConvId i) (updateFirst (hasConvId i) F l)
  = option_map F (find (hasConvId i) l).
Proof.
  intros HF. induction l as [|c l IH]; simpl; [reflexivity|].
  destruct (hasConvId i c) eqn:Hc; simpl.
  - unfold hasConvId in *. now rewrite HF, Hc.
  - now rewrite Hc.
Qed.

Lemma hasMsgId_refl (m : Message) : hasMsgId (msg_id m) m = true.
Proof. apply String.eqb_refl. Qed.

Lemma updateLastMessageContent_target (i nc : string) (e : bool) (em : string)
  (pre : list Message) (w : World) (m : Message) :
  Target i pre w m ->
  freshIn i pre = true ->
  exists w',
    updateLastMessageContent P i nc e em w = (Returned tt, w')
    /\ Target i pre w' (set_msg_update nc e em m)
    /\ controlOf w' = controlOf w
    /\ exists snapshot,
         effects w'
         = effects w ++ [Ui (appendMessageToChat (set_msg_update nc e em m) true);
                         Persist snapshot].
Proof.
  intros (c & Hc & Hm & Hid) Hfresh. subst i.
  pose proof (findActive_id _ _ Hc) as Hact.
  unfold updateLastMessageContent, bind, gets. rewrite Hc, Hm.
  rewrite (find_app_fresh _ (hasMsgId (msg_id m)) pre m Hfresh (hasMsgId_refl m)).
  eexists. split; [reflexivity|]. split; [|split].
  - unfold Target, findActive. cbn. rewrite Hact.
    rewrite !find_conv_update by reflexivity.
    unfold findActive in Hc. rewrite Hact in Hc. rewrite Hc. simpl.
    eexists. split; [reflexivity|]. simpl. split; [|reflexivity].
    rewrite Hm. apply (updateFirst_app_fresh _ (hasMsgId (msg_id m))); [exact Hfresh|apply hasMsgId_refl].
  - reflexivity.
  - eexists. cbn. rewrite <- app_assoc. reflexivity.
Qed.


Lemma runningConcat_app (acc : string) (d1 d2 : list string) :
  runningConcat acc (d1 ++ d2)
  = runningConcat acc d1 ++ runningConcat (fold_left String.append d1 acc) d2.
Proof.
  revert acc. induction d1 as [|d d1 IH]; intros acc; simpl; [reflexivity|].
  now rewrite IH.
Qed.

Lemma StreamedInto_refl (i : string) (pre : list Message) (w : World)
  (m : Message) :
  Target i pre w m -> StreamedInto i pre (msg_content m) [] w m w m.
Proof.
  intros HT. split; [exact HT|]. do 4 (split; [reflexivity|]).
  exists []. now rewrite app_nil_r.
Qed.

Lemma StreamedInto_trans (i : string) (pre : list Message) (acc : string)
  (d1 d2 : list string) (w w1 w2 : World) (m m1 m2 : Message) :
  StreamedInto i pre acc d1 w m w1 m1 ->
  StreamedInto i pre (fold_left String.append d1 acc) d2 w1 m1 w2 m2 ->
  StreamedInto i pre acc (d1 ++ d2) w m w2 m2.
Proof.
  intros (_ & C1 & R1 & T1 & K1 & es1 & E1 & S1 & A1)
         (HT & C2 & R2 & T2 & K2 & es2 & E2 & S2 & A2).
  split; [exact HT|]. split; [now rewrite fold_left_app|].
  do 3 (split; [congruence|]).
  exists (es1 ++ es2). rewrite E2, E1, app_assoc. split; [reflexivity|].
  rewrite streamingPatches_app, S1, S2, runningConcat_app, forallb_app, A1, A2.
  auto.
Qed.

Lemma processPart_streams (i : string) (pre : list Message) (acc part : string)
  (w : World) (m : Message) :
  freshIn i pre = true ->
  Target i pre w m ->
  msg_content m = acc ->
  fst (processPart P i acc part w)
  = fold_left String.append (deltaList P part) acc
  /\ exists m',
       StreamedInto i pre acc (deltaList P part) w m
         (snd (processPart P i acc part w)) m'.
Proof.
  intros Hfresh HT Hacc. unfold processPart, deltaList.
  destruct (partDelta P part) as [delta|]; simpl.
  - split; [reflexivity|].
    destruct (updateLastMessageContent_target i (acc ++ delta)%string false
                EmptyString pre w m HT Hfresh)
      as (w' & Hrun & HT' & HK & snap & HE).
    rewrite Hrun. simpl. eexists. split; [exact HT'|].
    do 3 (split; [reflexivity|]). split; [exact HK|].
    exists [Ui (appendMessageToChat
                  (set_msg_update (acc ++ delta)%string false EmptyString m) true);
            Persist snap].
    auto.
  - split; [reflexivity|]. exists m. subst acc. now apply StreamedInto_refl.
Qed.

Lemma forEachPart_streams (i : string) (pre : list Message)
  (parts : list string) :
  freshIn i pre = true ->
  forall (acc : string) (w : World) (m : Message),
    Target i pre w m ->
    msg_content m = acc ->
    fst (forEachPart P i acc parts w)
    = fold_left String.append (flat_map (deltaList P) parts) acc
    /\ exists m',
         StreamedInto i pre acc (flat_map (deltaList P) parts) w m
           (snd (forEachPart P i acc parts w)) m'.
Proof.
  intros Hfresh. induction parts as [|part parts IH]; intros acc w m HT Hacc.
  - simpl. split; [reflexivity|]. exists m. subst acc.
    now apply StreamedInto_refl.
  - simpl.
    destruct (processPart_streams i pre acc part w m Hfresh HT Hacc)
      as (Hfst & m1 & HS1).
    destruct (processPart P i acc part w) as [acc1 w1]. simpl in Hfst, HS1.
    assert (HT1 : Target i pre w1 m1) by apply HS1.
    assert (Hc1 : msg_content m1 = acc1).
    { destruct HS1 as (_ & C & _). now rewrite C, Hfst. }
    destruct (IH acc1 w1 m1 HT1 Hc1) as (Hfst2 & m2 & HS2).
    rewrite fold_left_app, <- Hfst. split; [exact Hfst2|].
    exists m2. apply StreamedInto_trans with (w1 := w1) (m1 := m1); auto.
    now rewrite <- Hfst.
Qed.

Lemma readLoop_streams (i : string) (pre : list Message)
  (chunks : list string) :
  freshIn i pre = true ->
  forall (acc : string) (w : World) (m : Message),
    Target i pre w m ->
    msg_content m = acc ->
    fst (readLoop P i acc chunks w)
    = fold_left String.append (streamDeltas P chunks) acc
    /\ exists m',
         StreamedInto i pre acc (streamDeltas P chunks) w m
           (snd (readLoop P i acc chunks w)) m'.
Proof.
  intros Hfresh. induction chunks as [|chunk chunks IH]; intros acc w m HT Hacc.
  - simpl. split; [reflexivity|]. exists m. subst acc.
    now apply StreamedInto_refl.
  - simpl.
    destruct (forEachPart_streams i pre (split LFLF chunk) Hfresh acc w m HT Hacc)
      as (Hfst & m1 & HS1).
    fold (chunkDeltas P chunk) in Hfst, HS1.
    destruct (forEachPart P i acc (split LFLF chunk) w) as [acc1 w1].
    simpl in Hfst, HS1.
    assert (HT1 : Target i pre w1 m1) by apply HS1.
    assert (Hc1 : msg_content m1 = acc1).
    { destruct HS1 as (_ & C & _). now rewrite C, Hfst. }
    destruct (IH acc1 w1 m1 HT1 Hc1) as (Hfst2 & m2 & HS2).
    unfold streamDeltas. simpl. fold (streamDeltas P chunks).
    rewrite fold_left_app, <- Hfst. split; [exact Hfst2|].
    exists m2. apply StreamedInto_trans with (w1 := w1) (m1 := m1); auto.
    now rewrite <- Hfst.
Qed.


(** *** Stepping through straight-line code *)

Lemma bind_returned (A B : Type) (m : M A) (k : A -> M B) (w w1 : World) (a : A) :
  m w = (Returned a, w1) -> bind m k w = k a w1.
Proof. intros H. unfold bind. now rewrite H. Qed.

Lemma bind_thrown (A B : Type) (m : M A) (k : A -> M B) (w w1 : World) (e : Exn) :
  m w = (Thrown e, w1) -> bind m k w = (Thrown e, w1).
Proof. intros H. unfold bind. now rewrite H. Qed.

Lemma bind_ret (A B : Type) (a : A) (k : A -> M B) (w : World) :
  bind (ret a) k w = k a w.
Proof. reflexivity. Qed.

Lemma bind_randomUUID (B : Type) (k : string -> M B) (w : World) :
  bind (randomUUID P) k w
  = k (uuidAt P (uuidCalls w)) (set_uuidCalls (S (uuidCalls w)) w).
Proof. reflexivity. Qed.

Lemma bind_Date_now (B : Type) (k : nat -> M B) (w : World) :
  bind (Date_now P) k w
  = k (timeAt P (clockCalls w)) (set_clockCalls (S (clockCalls w)) w).
Proof. reflexivity. Qed.

Lemma bind_gets (A B : Type) (f : World -> A) (k : A -> M B) (w : World) :
  bind (gets f) k w = k (f w) w.
Proof. reflexivity. Qed.

Lemma bind_modify (B : Type) (f : World -> World) (k : unit -> M B) (w : World) :
  bind (modify f) k w = k tt (f w).
Proof. reflexivity. Qed.

Lemma bind_newAbortController (B : Type) (k : nat -> M B) (w : World) :
  bind newAbortController k w
  = k (List.length (signals w)) (set_signals (signals w ++ [false]) w).
Proof. reflexivity. Qed.

Lemma addMessageToConversation_spec (m : Message) (w : World) (c : Conversation) :
  findActive w = Some c ->
  exists w' c',
    addMessageToConversation P m w = (Returned tt, w')
    /\ findActive w' = Some c'
    /\ conv_id c' = conv_id c
    /\ conv_messages c' = conv_messages c ++ [m]
    /\ controlOf w' = controlOf w
    /\ exists es, effects w' = effects w ++ es /\ forallb plain es = true.
Proof.
  intros Hc. pose proof (findActive_id _ _ Hc) as Hact.
  destruct (pushMessage_plain P (conv_id c) m w) as (es & HE & Hes).
  exists (snd (pushMessage P (conv_id c) m w)).
  exists (set_conv_lastUpdated (timeAt P (S (clockCalls w)))
            (set_conv_lastUpdated (timeAt P (clockCalls w))
               (set_conv_messages (conv_messages c ++ [m]) c))).
  split.
  { unfold addMessageToConversation. rewrite bind_gets, Hc. reflexivity. }
  split.
  { unfold findActive in *. cbn. rewrite Hact in *.
    rewrite !find_conv_update by reflexivity. now rewrite Hc. }
  do 3 (split; [reflexivity|]).
  exists es. auto.
Qed.

Ltac control H :=
  unfold controlOf in H;
  let a := fresh "Kactive" in let b := fresh "Kgen" in
  let c := fresh "Ktyping" in let d := fresh "Kmode" in
  let e := fresh "Ksettings" in let f := fresh "Kabort" in
  let g := fresh "Ksignals" in let h := fresh "Kinput" in
  let i := fresh "Kuuid" in
  injection H as a b c d e f g h i.

Lemma findActive_messagesOf (w : World) (c : Conversation) :
  findActive w = Some c -> messagesOf (conv_id c) w = conv_messages c.
Proof.
  intros Hc. pose proof (findActive_id _ _ Hc) as Hact.
  unfold messagesOf. unfold findActive in Hc. rewrite Hact in Hc.
  now rewrite Hc.
Qed.

Lemma chatSession_prefix (prompt key : string) (c : Conversation)
  (net : Await Response) (w : World) :
  findActive w = Some c ->
  let userMessage :=
    mkMessage (uuidAt P (uuidCalls w)) user text prompt
      (timeAt P (clockCalls w)) None None None in
  let aiId := uuidAt P (S (uuidCalls w)) in
  exists (w' : World) (aiTime : nat),
    chatSession P prompt key c net w
    = tryFinally
        (chatStream P aiId (List.length (signals w))
           (chatRequest P key (modelId (settings w))
              ([mkApiMessage "system" (systemPrompt (settings w))]
               ++ historyForApi (conv_messages c ++ [userMessage])
               ++ [mkApiMessage "user" prompt]))
           net)
        chatFinally w'
    /\ Target aiId (conv_messages c ++ [userMessage]) w'
         (mkMessage aiId ai text EmptyString aiTime None None None)
    /\ abortController w' = Some (List.length (signals w))
    /\ signals w' = signals w ++ [false]
    /\ isGenerating w' = isGenerating w
    /\ settings w' = settings w
    /\ exists es, effects w' = effects w ++ es /\ forallb plain es = true.
Proof.
  intros Hc userMessage aiId.
  unfold chatSession.
  rewrite bind_randomUUID, bind_Date_now.
  destruct (addMessageToConversation_spec userMessage
              (set_clockCalls (S (clockCalls w))
                 (set_uuidCalls (S (uuidCalls w)) w)) c Hc)
    as (w1 & c1 & Hrun1 & Hc1 & Hid1 & Hm1 & HK1 & es1 & HE1 & Hes1).
  fold userMessage.
  rewrite (bind_returned _ _ _ _ _ _ _ Hrun1).
  rewrite !bind_gets, bind_newAbortController, bind_modify, bind_randomUUID,
    bind_Date_now.
  control HK1. cbn in Ksignals, Kuuid, Ksettings, Kabort, Kgen.
  cbn [uuidCalls set_abortController set_signals clockCalls].
  rewrite <- Hid1, (findActive_messagesOf _ _ Hc1), Hm1.
  match goal with
  | |- context [bind (addMessageToConversation P ?m) _ ?w0] =>
      destruct (addMessageToConversation_spec m w0 c1 Hc1)
        as (w2 & c2 & Hrun2 & Hc2 & Hid2 & Hm2 & HK2 & es2 & HE2 & Hes2)
  end.
  rewrite (bind_returned _ _ _ _ _ _ _ Hrun2), bind_gets.
  control HK2. clear Hrun1 Hrun2. cbn in *.
  rewrite Kuuid, Ksignals, Ksettings in *.
  exists w2. eexists.
  rewrite Ksettings0. split; [reflexivity|].
  split.
  { exists c2. split; [exact Hc2|]. rewrite Hm2, Hm1. split; reflexivity. }
  rewrite Kabort0, Ksignals0, Kgen0, Kgen.
  do 4 (split; [reflexivity|]).
  exists (es1 ++ es2). rewrite HE2, HE1.
  rewrite app_assoc, forallb_app, Hes1, Hes2. auto.
Qed.


(** *** The abort signal *)

Lemma aborted_abortSignal (r : nat) (w : World) :
  r < List.length (signals w) -> aborted r (abortSignal r w) = true.
Proof.
  unfold aborted, abortSignal. cbn. generalize (signals w) as l.
  induction r as [|r IH]; intros [|b l] Hlt; simpl in *;
    try reflexivity; try lia.
  apply IH. lia.
Qed.

Lemma aborted_new_signal (s : list bool) (w : World) :
  signals w = s ++ [false] -> aborted (List.length s) w = false.
Proof.
  intros H. unfold aborted. rewrite H, app_nth2 by lia.
  now rewrite Nat.sub_diag.
Qed.

Lemma Target_store (i : string) (pre : list Message) (w w' : World) (m : Message) :
  conversations w' = conversations w ->
  activeConversationId w' = activeConversationId w ->
  Target i pre w m -> Target i pre w' m.
Proof.
  intros Hc Ha (c & Hf & H). exists c. split; [|exact H].
  unfold findActive in *. now rewrite Ha, Hc.
Qed.

(** What the [try]/[catch] of the session does to the target message
    when the response is a stream: the deltas are appended in order, and
    the way the stream ends decides the rest. *)
Lemma chatStream_ok (aiId : string) (r : nat) (request : Request)
  (response : Response) (pre : list Message) (s : list bool)
  (w : World) (m : Message) :
  ok response = true ->
  freshIn aiId pre = true ->
  Target aiId pre w m ->
  msg_content m = EmptyString ->
  abortController w = Some r ->
  signals w = s ++ [false] ->
  r = List.length s ->
  let deltas := streamDeltas P (body response) in
  exists (w' : World) (m' : Message),
    chatStream P aiId r request (Resolved response) w = (Returned tt, w')
    /\ Target aiId pre w' m'
    /\ msg_role m' = msg_role m
    /\ match bodyEnd response with
       | Resolved _ =>
           msg_content m' = concatAll deltas
           /\ exists es,
                effects w' = effects w ++ Fetch request :: es
                /\ streamingPatches es = runningConcat EmptyString deltas
       | Stopped e =>
           msg_content m' = (concatAll deltas ++ stoppedNotice)%string
           /\ msg_error m' = Some true
           /\ msg_errorMessage m' = Some (message e)
       | Rejected e =>
           msg_content m' = (concatAll deltas ++ errorNotice (message e))%string
           /\ msg_error m' = Some true
           /\ msg_errorMessage m' = Some (message e)
       end.
Proof.
  intros Hok Hfresh HT Hcontent Hctl Hsig Hr deltas. subst r.
  set (w1 := set_effects (effects w ++ [Fetch request]) w).
  assert (HT1 : Target aiId pre w1 m) by (eapply Target_store; eauto).
  destruct (readLoop_streams aiId pre (body response) Hfresh EmptyString w1 m
              HT1 Hcontent) as (Hacc & m2 & HS).
  fold deltas in Hacc, HS. fold (concatAll deltas) in Hacc.
  unfold chatStream, chatTry.
  change (fetch request (Resolved response) w) with (Returned response, w1).
  cbv iota beta. rewrite Hok. cbv iota beta. simpl negb. cbv iota.
  destruct (readLoop P aiId EmptyString (body response) w1) as [acc w2].
  simpl in Hacc, HS. subst acc.
  destruct HS as (HT2 & Hc2 & Hr2 & Hty2 & HK2 & es & HE2 & Hpatch & Hplain).
  control HK2. cbn in Kabort, Ksignals.
  destruct (bodyEnd response) as [[]|e|e].
  - simpl. exists w2, m2. split; [reflexivity|]. split; [exact HT2|].
    split; [exact Hr2|]. split; [exact Hc2|].
    exists es. split; [|exact Hpatch].
    rewrite HE2. cbn. rewrite <- app_assoc. reflexivity.
  - (* a transport failure: the signal is not aborted *)
    simpl await. cbv iota beta. unfold throw. cbv iota beta.
    unfold chatCatch. rewrite bind_gets.
    rewrite (aborted_new_signal s w2) by congruence.
    unfold showToast. unfold bind at 1. cbn [emit modify].
    match goal with
    | |- context [updateLastMessageContent P aiId ?nc ?e0 ?em ?w0] =>
        destruct (updateLastMessageContent_target aiId nc e0 em pre w0 m2)
          as (w3 & Hrun & HT3 & _ & _)
    end; [eapply Target_store; eauto|exact Hfresh|].
    exists w3. eexists. split; [exact Hrun|]. split; [exact HT3|].
    split; [exact Hr2|]. simpl. auto.
  - (* the stop button: [stopGenerating] aborts the signal first *)
    assert (Hstop : stopGenerating w2
                    = (Returned tt, abortSignal (List.length s) w2)).
    { unfold stopGenerating. now rewrite bind_gets, Kabort, Hctl. }
    simpl await. rewrite (bind_returned _ _ _ _ _ _ _ Hstop).
    unfold throw. cbv iota beta.
    unfold chatCatch. rewrite bind_gets.
    rewrite aborted_abortSignal
      by (rewrite Ksignals, Hsig, length_app; simpl; lia).
    unfold showToast. unfold bind at 1. cbn [emit modify].
    match goal with
    | |- context [updateLastMessageContent P aiId ?nc ?e0 ?em ?w0] =>
        destruct (updateLastMessageContent_target aiId nc e0 em pre w0 m2)
          as (w3 & Hrun & HT3 & _ & _)
    end; [eapply Target_store; eauto|exact Hfresh|].
    exists w3. eexists. split; [exact Hrun|]. split; [exact HT3|].
    split; [exact Hr2|]. simpl. auto.
Qed.


Lemma startNewConversation_spec (prompt : string) (w : World) :
  exists (w' : World) (c : Conversation),
    startNewConversation P prompt w = (Returned tt, w')
    /\ findActive w' = Some c
    /\ conv_messages c = []
    /\ uuidCalls w' = S (uuidCalls w)
    /\ settings w' = settings w
    /\ abortController w' = abortController w
    /\ signals w' = signals w
    /\ isGenerating w' = isGenerating w
    /\ exists es, effects w' = effects w ++ es /\ forallb plain es = true.
Proof.
  destruct (startNewConversation_plain P prompt w) as (es & HE & Hes).
  exists (snd (startNewConversation P prompt w)). eexists.
  split; [reflexivity|]. split.
  { unfold findActive. cbn. unfold hasConvId at 1. cbn.
    rewrite String.eqb_refl. reflexivity. }
  do 6 (split; [reflexivity|]). exists es. auto.
Qed.

(** A session with a credential whose conversation resolves goes on from
    a world whose active conversation holds the stored history. *)
Lemma sendChatMessage_resolves (prompt : string) (net : Await Response)
  (w : World) :
  isEmpty (openrouterKey (settings w)) = false ->
  conversationResolves w = true ->
  exists (w1 : World) (c : Conversation),
    sendChatMessage P prompt net w
    = chatSession P prompt (openrouterKey (settings w)) c net w1
    /\ findActive w1 = Some c
    /\ conv_messages c = storedHistory w
    /\ uuidCalls w1 = uuidCalls w + (if needsNewConversation w then 1 else 0)
    /\ settings w1 = settings w
    /\ abortController w1 = abortController w
    /\ signals w1 = signals w
    /\ isGenerating w1 = isGenerating w
    /\ exists es, effects w1 = effects w ++ es /\ forallb plain es = true.
Proof.
  intros Hkey Hres. unfold sendChatMessage.
  rewrite bind_gets, Hkey, bind_gets.
  unfold conversationResolves, storedHistory in *.
  destruct (needsNewConversation w) eqn:Hnew.
  - destruct (startNewConversation_spec prompt w)
      as (w1 & c & Hrun & Hc & Hm & Hu & Hs & Ha & Hsig & Hg & es & HE & Hes).
    simpl when. rewrite (bind_returned _ _ _ _ _ _ _ Hrun), bind_gets, Hc.
    exists w1, c. split; [reflexivity|]. split; [exact Hc|].
    split; [exact Hm|]. split; [rewrite Hu; lia|].
    do 4 (split; [assumption|]). exists es. auto.
  - simpl in Hres. destruct (findActive w) as [c|] eqn:Hc; [|discriminate].
    simpl when. rewrite bind_ret, bind_gets, Hc.
    exists w, c. split; [reflexivity|]. split; [exact Hc|].
    split; [reflexivity|]. split; [lia|].
    do 4 (split; [reflexivity|]). exists []. now rewrite app_nil_r.
Qed.

Lemma freshIn_snoc (i : string) (pre : list Message) (m : Message) :
  freshIn i (pre ++ [m]) = freshIn i pre && negb (String.eqb (msg_id m) i).
Proof.
  unfold freshIn. rewrite forallb_app. simpl. now rewrite andb_true_r.
Qed.

Lemma chatFinally_run (w : World) :
  exists w', chatFinally w = (Returned tt, w')
    /\ conversations w' = conversations w
    /\ activeConversationId w' = activeConversationId w
    /\ isGenerating w' = false
    /\ abortController w' = None
    /\ exists snapshot,
         effects w' = effects w ++ [Ui updateChatInputArea;
                                    Ui (showTypingIndicator false);
                                    Persist snapshot].
Proof.
  eexists. split; [reflexivity|]. do 4 (split; [reflexivity|]).
  eexists. cbn. rewrite <- !app_assoc. reflexivity.
Qed.

(** The text session on a response that streams: where the target
    message ends up, for each way the stream can end. *)
Lemma sendChatMessage_streams (prompt : string) (response : Response)
  (w : World) :
  isEmpty (openrouterKey (settings w)) = false ->
  conversationResolves w = true ->
  targetIdFresh P w = true ->
  ok response = true ->
  let w' := snd (sendChatMessage P prompt (Resolved response) w) in
  let deltas := streamDeltas P (body response) in
  exists m : Message,
    lastMessage w' = Some m
    /\ msg_role m = ai
    /\ match bodyEnd response with
       | Resolved _ =>
           msg_content m = concatAll deltas
           /\ exists es,
                effects w' = effects w ++ es
                /\ streamingPatches es = runningConcat EmptyString deltas
       | Stopped e =>
           msg_content m = (concatAll deltas ++ stoppedNotice)%string
           /\ msg_error m = Some true
           /\ msg_errorMessage m = Some (message e)
       | Rejected e =>
           msg_content m = (concatAll deltas ++ errorNotice (message e))%string
           /\ msg_error m = Some true
           /\ msg_errorMessage m = Some (message e)
       end.
Proof.
  intros Hkey Hres Hfresh Hok w' deltas. subst w'.
  destruct (sendChatMessage_resolves prompt (Resolved response) w Hkey Hres)
    as (w1 & c & Hrun & Hc & Hm & Hu & Hs & Ha & Hsig & Hg & es1 & HE1 & Hes1).
  rewrite Hrun.
  destruct (chatSession_prefix prompt (openrouterKey (settings w)) c
              (Resolved response) w1 Hc)
    as (w2 & aiTime & Hrun2 & HT & Hctl & Hsig2 & Hg2 & Hs2 & es2 & HE2 & Hes2).
  rewrite Hrun2.
  unfold targetIdFresh, targetIdOf, userIdOf in Hfresh. rewrite <- Hu, <- Hm in Hfresh.
  match type of HT with
  | Target ?i ?pre _ ?m =>
      destruct (chatStream_ok i (List.length (signals w1))
                  (chatRequest P (openrouterKey (settings w))
                     (modelId (settings w1))
                     ([mkApiMessage "system" (systemPrompt (settings w1))]
                      ++ historyForApi pre ++ [mkApiMessage "user" prompt]))
                  response pre (signals w1) w2 m)
        as (w3 & m3 & Hrun3 & HT3 & Hrole & Hend)
  end; auto.
  { now rewrite freshIn_snoc. }
  unfold tryFinally. rewrite Hrun3.
  destruct (chatFinally_run w3) as (w4 & Hrun4 & Hconv & Hact & _ & _ & snap & HE4).
  rewrite Hrun4. cbn [snd].
  exists m3. split.
  { apply (Target_store _ _ w3 w4) in HT3; auto.
    destruct HT3 as (c3 & Hc3 & Hm3 & _).
    unfold lastMessage. rewrite Hc3, Hm3. apply last_map_Some_app. }
  split; [exact Hrole|].
  destruct (bodyEnd response) as [[]|e|e]; auto.
  destruct Hend as (Hcontent & es3 & HE3 & Hpatch).
  split; [exact Hcontent|].
  eexists. split.
  { rewrite HE4, HE3, HE2, HE1. rewrite <- !app_assoc. reflexivity. }
  pose proof (streamingPatches_plain es1 Hes1) as Z1.
  pose proof (streamingPatches_plain es2 Hes2) as Z2.
  unfold streamingPatches in *. rewrite !flat_map_app. simpl.
  rewrite Z1, Z2, Hpatch. simpl. now rewrite app_nil_r.
Qed.

Lemma processPart_quiet (i acc part : string) :
  AddsOnly quiet (fun w => snd (processPart P i acc part w)).
Proof.
  unfold processPart. destruct (partDelta P part) as [delta|]; simpl.
  - apply (updateLastMessageContent_quiet P).
  - apply AddsOnly_id.
Qed.

Lemma forEachPart_quiet (i : string) (parts : list string) (acc : string) :
  AddsOnly quiet (fun w => snd (forEachPart P i acc parts w)).
Proof.
  revert acc. induction parts as [|part parts IH]; intros acc; simpl.
  - apply AddsOnly_id.
  - intros w. pose proof (processPart_quiet i acc part w) as H1.
    cbv beta in *.
    destruct (processPart P i acc part w) as [acc1 w1]. simpl in H1.
    destruct H1 as (e1 & E1 & A1). destruct (IH acc1 w1) as (e2 & E2 & A2).
    exists (e1 ++ e2). rewrite E2, E1, app_assoc, forallb_app, A1, A2. auto.
Qed.

Lemma readLoop_quiet (i : string) (chunks : list string) (acc : string) :
  AddsOnly quiet (fun w => snd (readLoop P i acc chunks w)).
Proof.
  revert acc. induction chunks as [|chunk chunks IH]; intros acc; simpl.
  - apply AddsOnly_id.
  - intros w. pose proof (forEachPart_quiet i (split LFLF chunk) acc w) as H1.
    cbv beta in *.
    destruct (forEachPart P i acc (split LFLF chunk) w) as [acc1 w1].
    simpl in H1.
    destruct H1 as (e1 & E1 & A1). destruct (IH acc1 w1) as (e2 & E2 & A2).
    exists (e1 ++ e2). rewrite E2, E1, app_assoc, forallb_app, A1, A2. auto.
Qed.

Lemma chatCatch_quiet (i : string) (r : nat) (acc : string) (e : Exn) :
  EmitsOnly quiet (chatCatch P i r acc e).
Proof. unfold chatCatch. emits. Qed.

Lemma chatFinally_notFetch : EmitsOnly notFetch chatFinally.
Proof. unfold chatFinally, saveConversations. emits. Qed.

(** The [try]/[catch] of the session issues its request first and no
    other request after it. *)
Lemma chatStream_request (i : string) (r : nat) (request : Request)
  (net : Await Response) (w : World) :
  exists es,
    effects (snd (chatStream P i r request net w))
    = effects w ++ Fetch request :: es
    /\ forallb quiet es = true.
Proof.
  pose proof (fun A (p : Await A) =>
                EmitsOnly_plain_quiet _ _ (await_plain P A p)) as Haw.
  unfold chatStream, chatTry, fetch.
  rewrite (bind_returned _ _ (emit (Fetch request)) _ w
             (set_effects (effects w ++ [Fetch request]) w) tt)
    by reflexivity.
  destruct (Haw _ net (set_effects (effects w ++ [Fetch request]) w))
    as (e1 & E1 & A1).
  destruct (await net (set_effects (effects w ++ [Fetch request]) w))
    as [[response|e] w2]; simpl in E1.
  - destruct (ok response); simpl.
    + pose proof (readLoop_quiet i (body response) EmptyString w2) as H2.
      cbv beta in H2.
      destruct (readLoop P i EmptyString (body response) w2) as [acc w3].
      simpl in H2. destruct H2 as (e2 & E2 & A2).
      destruct (Haw _ (bodyEnd response) w3) as (e3 & E3 & A3).
      destruct (await (bodyEnd response) w3) as [[u|e] w4]; simpl in E3.
      * exists (e1 ++ e2 ++ e3). simpl. rewrite E3, E2, E1.
        split; [now rewrite <- !app_assoc|].
        rewrite !forallb_app, A1, A2, A3. auto.
      * destruct (chatCatch_quiet i r acc e w4) as (e4 & E4 & A4).
        exists (e1 ++ e2 ++ e3 ++ e4). rewrite E4, E3, E2, E1.
        split; [now rewrite <- !app_assoc|].
        rewrite !forallb_app, A1, A2, A3, A4. auto.
    + destruct (Haw _ (json response) w2) as (e2 & E2 & A2).
      destruct (await (json response) w2) as [[errorData|e] w3]; simpl in E2.
      * match goal with
        | |- context [chatCatch P i r ?acc ?e0 w3] =>
            destruct (chatCatch_quiet i r acc e0 w3) as (e4 & E4 & A4)
        end.
        exists (e1 ++ e2 ++ e4). rewrite E4, E2, E1.
        split; [now rewrite <- !app_assoc|].
        rewrite !forallb_app, A1, A2, A4. auto.
      * destruct (chatCatch_quiet i r EmptyString e w3) as (e4 & E4 & A4).
        exists (e1 ++ e2 ++ e4). rewrite E4, E2, E1.
        split; [now rewrite <- !app_assoc|].
        rewrite !forallb_app, A1, A2, A4. auto.
  - destruct (chatCatch_quiet i r EmptyString e w2) as (e4 & E4 & A4).
    exists (e1 ++ e4). rewrite E4, E1.
    split; [now rewrite <- !app_assoc|].
    rewrite !forallb_app, A1, A4. auto.
Qed.


Lemma tryFinally_world (A : Type) (m : M A) (fin : M unit) (w : World) :
  snd (tryFinally m fin w) = snd (fin (snd (m w))).
Proof.
  unfold tryFinally. destruct (m w) as [r w1]. simpl.
  now destruct (fin w1) as [[u|e] w2].
Qed.

Lemma requestsOf_quiet (es : list Effect) :
  forallb quiet es = true -> requestsOf es = [].
Proof.
  intros H. apply requestsOf_notFetch.
  now apply forallb_impl with quiet; [apply quiet_notFetch|].
Qed.

Lemma requestsOf_plain (es : list Effect) :
  forallb plain es = true -> requestsOf es = [].
Proof.
  intros H. apply requestsOf_quiet.
  now apply forallb_impl with plain; [apply plain_quiet|].
Qed.

Lemma historyForApi_snoc_user (ms : list Message) (i prompt : string) (t : nat) :
  historyForApi (ms ++ [mkMessage i user text prompt t None None None])
  = historyForApi ms ++ [mkApiMessage "user" prompt].
Proof.
  unfold historyForApi. now rewrite filter_app, map_app.
Qed.



(** The same for a stream that carries well-formed events whole: the
    message ends with the concatenation of their content fields. *)
Corollary streamed_events_are_concatenated (prompt : string)
  (response : Response) (groups : list (list string)) (ds : list string)
  (w : World) :
  isEmpty (openrouterKey (settings w)) = false ->
  conversationResolves w = true ->
  targetIdFresh P w = true ->
  ok response = true ->
  bodyEnd response = Resolved tt ->
  body response = map chunkOf groups ->
  Forall2 (wellFormedEvent P) (concat groups) ds ->
  exists m : Message,
    lastMessage (snd (sendChatMessage P prompt (Resolved response) w)) = Some m
    /\ msg_role m = ai
    /\ msg_content m = concatAll ds.
Proof.
  intros Hkey Hres Hfresh Hok Hend Hbody Hevents.
  destruct (sendChatMessage_streams prompt response w Hkey Hres Hfresh Hok)
    as (m & Hlast & Hrole & Hcase).
  rewrite Hend in Hcase. destruct Hcase as (Hcontent & _).
  rewrite Hbody, (streamDeltas_wellFormed P groups ds Hevents) in Hcontent.
  exists m. auto.
Qed.

End TextSession.

(** ** Finalization *)

Lemma FinalizesAtMost_quiet (A : Type) (m : M A) :
  EmitsOnly notFinalization m -> FinalizesAtMost 0 m.
Proof.
  intros Hm w. destruct (Hm w) as (es & HE & Hes).
  exists es. split; [exact HE|].
  now rewrite finalizationRuns_notFinalization.
Qed.

Lemma FinalizesAtMost_le (A : Type) (n n' : nat) (m : M A) :
  n <= n' -> FinalizesAtMost n m -> FinalizesAtMost n' m.
Proof.
  intros Hle Hm w. destruct (Hm w) as (es & HE & Hes).
  exists es. split; [exact HE|lia].
Qed.

Lemma FinalizesAtMost_bind (A B : Type) (n1 n2 : nat) (m : M A) (k : A -> M B) :
  FinalizesAtMost n1 m -> (forall a, FinalizesAtMost n2 (k a)) ->
  FinalizesAtMost (n1 + n2) (bind m k).
Proof.
  intros Hm Hk w. unfold bind. destruct (Hm w) as (e1 & E1 & A1).
  destruct (m w) as [[a|e] w1]; simpl in E1.
  - destruct (Hk a w1) as (e2 & E2 & A2).
    exists (e1 ++ e2). rewrite E2, E1, app_assoc, finalizationRuns_app.
    split; [reflexivity|lia].
  - exists e1. simpl. split; [exact E1|lia].
Qed.

Lemma FinalizesAtMost_tryCatch (A : Type) (n1 n2 : nat) (m : M A)
  (h : Exn -> M A) :
  FinalizesAtMost n1 m -> (forall e, FinalizesAtMost n2 (h e)) ->
  FinalizesAtMost (n1 + n2) (tryCatch m h).
Proof.
  intros Hm Hh w. unfold tryCatch. destruct (Hm w) as (e1 & E1 & A1).
  destruct (m w) as [[a|e] w1]; simpl in E1.
  - exists e1. simpl. split; [exact E1|lia].
  - destruct (Hh e w1) as (e2 & E2 & A2).
    exists (e1 ++ e2). rewrite E2, E1, app_assoc, finalizationRuns_app.
    split; [reflexivity|lia].
Qed.

Lemma FinalizesAtMost_tryFinally (A : Type) (n1 n2 : nat) (m : M A)
  (fin : M unit) :
  FinalizesAtMost n1 m -> FinalizesAtMost n2 fin ->
  FinalizesAtMost (n1 + n2) (tryFinally m fin).
Proof.
  intros Hm Hf w. rewrite tryFinally_world.
  destruct (Hm w) as (e1 & E1 & A1).
  destruct (Hf (snd (m w))) as (e2 & E2 & A2).
  exists (e1 ++ e2). rewrite E2, E1, app_assoc, finalizationRuns_app.
  split; [reflexivity|lia].
Qed.

Section Finalization.
Variable P : Platform.

Lemma fetch_notFinalization (request : Request) (net : Await Response) :
  EmitsOnly notFinalization (fetch request net).
Proof. unfold fetch. emits. Qed.

Lemma chatStream_notFinalization (i : string) (r : nat) (request : Request)
  (net : Await Response) :
  EmitsOnly notFinalization (chatStream P i r request net).
Proof.
  intros w. destruct (chatStream_request P i r request net w) as (es & HE & Hes).
  exists (Fetch request :: es). split; [exact HE|].
  simpl. now apply forallb_impl with quiet; [apply quiet_notFinalization|].
Qed.

Lemma chatFinally_once : FinalizesAtMost 1 chatFinally.
Proof.
  intros w. destruct (chatFinally_run w) as (w' & Hrun & _ & _ & _ & _ & s & HE).
  rewrite Hrun. eexists. split; [exact HE|]. cbn. lia.
Qed.

Lemma chatSession_once (prompt key : string) (c : Conversation)
  (net : Await Response) :
  FinalizesAtMost 1 (chatSession P prompt key c net).
Proof.
  unfold chatSession.
  repeat (apply (FinalizesAtMost_bind _ _ 0 1);
          [solve [apply FinalizesAtMost_quiet; emits]|intro]).
  apply (FinalizesAtMost_tryFinally _ 0 1).
  - apply FinalizesAtMost_quiet, chatStream_notFinalization.
  - apply chatFinally_once.
Qed.

Lemma reportMissingKey_notFinalization (prompt : string) :
  EmitsOnly notFinalization (reportMissingKey P prompt).
Proof. unfold reportMissingKey. emits. Qed.

Lemma sendChatMessage_once (prompt : string) (net : Await Response) :
  FinalizesAtMost 1 (sendChatMessage P prompt net).
Proof.
  unfold sendChatMessage.
  apply (FinalizesAtMost_bind _ _ 0 1);
    [apply FinalizesAtMost_quiet; emits|intro key].
  destruct (isEmpty key).
  - apply FinalizesAtMost_le with 0; [lia|].
    apply FinalizesAtMost_quiet, reportMissingKey_notFinalization.
  - repeat (apply (FinalizesAtMost_bind _ _ 0 1);
            [solve [apply FinalizesAtMost_quiet; emits]|intro]).
    match goal with |- FinalizesAtMost _ (match ?o with _ => _ end) => destruct o end.
    + apply chatSession_once.
    + apply FinalizesAtMost_le with 0; [lia|].
      apply FinalizesAtMost_quiet. emits.
Qed.


Lemma generateWithPollinations_notFinalization (prompt : string)
  (net : Await Response) :
  EmitsOnly notFinalization (generateWithPollinations P prompt net).
Proof.
  unfold generateWithPollinations. pose proof fetch_notFinalization. emits.
Qed.

Lemma firstImageUrl_notFinalization (data : JSON) :
  EmitsOnly notFinalization (firstImageUrl P data).
Proof. unfold firstImageUrl. emits. Qed.

Lemma generateWithOpenRouter_notFinalization (prompt : string)
  (net : Await Response) :
  EmitsOnly notFinalization (generateWithOpenRouter P prompt net).
Proof.
  unfold generateWithOpenRouter.
  pose proof fetch_notFinalization. pose proof firstImageUrl_notFinalization.
  emits.
Qed.

Lemma imageTry_notFinalization (prompt : string) (net : Await Response) :
  EmitsOnly notFinalization (imageTry P prompt net).
Proof.
  unfold imageTry.
  pose proof generateWithPollinations_notFinalization.
  pose proof generateWithOpenRouter_notFinalization.
  emits.
Qed.

Lemma imageCatch_notFinalization (e : Exn) :
  EmitsOnly notFinalization (imageCatch P e).
Proof. unfold imageCatch. emits. Qed.

Lemma imageFinally_once (i prompt : string) (l : ImageLocals) :
  FinalizesAtMost 1 (imageFinally P i prompt l).
Proof.
  unfold imageFinally. destruct (negb (exportedByChat "STATE")).
  - apply FinalizesAtMost_le with 0; [lia|]. apply FinalizesAtMost_quiet. emits.
  - apply (FinalizesAtMost_bind _ _ 0 1).
    { apply FinalizesAtMost_quiet. emits. }
    intros active.
    apply (FinalizesAtMost_bind _ _ 0 1).
    { apply FinalizesAtMost_quiet.
      destruct active as [c|]; [|emits].
      destruct (find (hasMsgId i) (conv_messages c)); emits. }
    intros _.
    apply (FinalizesAtMost_bind _ _ 0 1); [apply FinalizesAtMost_quiet; emits|intro].
    apply (FinalizesAtMost_bind _ _ 0 1); [apply FinalizesAtMost_quiet; emits|intro].
    apply (FinalizesAtMost_bind _ _ 1 0); [|intro; apply FinalizesAtMost_quiet; emits].
    intros w. eexists. split; [reflexivity|]. cbn. lia.
Qed.

Lemma generateImage_once (prompt : string) (net : Await Response) :
  FinalizesAtMost 1 (generateImage P prompt net).
Proof.
  unfold generateImage.
  pose proof imageTry_notFinalization. pose proof imageCatch_notFinalization.
  repeat (apply (FinalizesAtMost_bind _ _ 0 1);
          [solve [apply FinalizesAtMost_quiet; emits]|intro]).
  apply imageFinally_once.
Qed.

Lemma sendCatch_notFinalization (prompt : string) (e : Exn) :
  EmitsOnly notFinalization (sendCatch P prompt e).
Proof. unfold sendCatch. emits. Qed.

Lemma sendFinally_run (w : World) :
  exists w', sendFinally w = (Returned tt, w')
    /\ isGenerating w' = false
    /\ abortController w' = None
    /\ effects w' = effects w ++ [Ui updateChatInputArea;
                                  Ui (showTypingIndicator false)].
Proof.
  eexists. split; [reflexivity|]. do 2 (split; [reflexivity|]).
  cbn. now rewrite <- app_assoc.
Qed.

(** C5, as the code has it.  Every generation started through the send
    entry point, text or image, whatever its request meets and whether
    its session returns or throws, ends with the generation flag false
    and the controller reference null.  The [finally] block of the entry
    point always runs; when the session's own [finally] block has run as
    well, the finalization has run twice: once or twice, not exactly
    once. *)
Theorem generation_always_finalized (net : Await Response) (w : World) :
  isEmpty (trim (chatInput w)) = false ->
  isGenerating w = false ->
  let w' := snd (handleSendMessage P net w) in
  isGenerating w' = false
  /\ abortController w' = None
  /\ exists es : list Effect,
       effects w' = effects w ++ es
       /\ 1 <= finalizationRuns es <= 2.
Proof.
  intros Hprompt Hidle w'. subst w'.
  unfold handleSendMessage. rewrite bind_gets, Hprompt, bind_gets, Hidle.
  rewrite tryFinally_world.
  match goal with
  | |- context [sendFinally (snd (?body w))] =>
      assert (Hbody : FinalizesAtMost 1 body)
  end.
  { apply (FinalizesAtMost_tryCatch _ 1 0);
      [|intro; apply FinalizesAtMost_quiet, sendCatch_notFinalization].
    repeat (apply (FinalizesAtMost_bind _ _ 0 1);
            [solve [apply FinalizesAtMost_quiet; emits]|intro]).
    match goal with |- FinalizesAtMost _ (match ?o with _ => _ end) => destruct o end.
    - apply sendChatMessage_once.
    - apply generateImage_once. }
  destruct (Hbody w) as (es1 & HE1 & Hn1).
  match goal with
  | |- context [sendFinally ?w1] =>
      destruct (sendFinally_run w1) as (w2 & Hrun & Hgen & Hctl & HE2)
  end.
  rewrite Hrun. cbn [snd]. split; [exact Hgen|]. split; [exact Hctl|].
  eexists. split; [rewrite HE2, HE1, <- app_assoc; reflexivity|].
  rewrite finalizationRuns_app. cbn. lia.
Qed.

End Finalization.

(** ** Regeneration *)

Lemma findIndex_app_fresh (A : Type) (p q : A -> bool) (pre : list A) (x : A) :
  forallb (fun y => negb (p y)) pre = true ->
  p x = true -> q x = true ->
  findIndex (fun y => p y && q y) (pre ++ [x]) = Some (List.length pre).
Proof.
  intros Hpre Hp Hq. induction pre as [|y pre IH]; simpl.
  - now rewrite Hp, Hq.
  - simpl in Hpre. apply andb_true_iff in Hpre as [Hy Hpre].
    apply negb_true_iff in Hy. rewrite Hy. simpl. now rewrite IH.
Qed.

Lemma removeAt_last (A : Type) (pre : list A) (x : A) :
  removeAt (List.length pre) (pre ++ [x]) = pre.
Proof. induction pre as [|y pre IH]; simpl; congruence. Qed.

Lemma updateFirst_twice (A : Type) (p : A -> bool) (f g : A -> A) (l : list A) :
  (forall x, p (g x) = p x) ->
  updateFirst p f (updateFirst p g l) = updateFirst p (fun x => f (g x)) l.
Proof.
  intros Hg. induction l as [|x l IH]; simpl; [reflexivity|].
  destruct (p x) eqn:Hx; simpl.
  - now rewrite Hg, Hx.
  - now rewrite Hx, IH.
Qed.

Section Regeneration.
Variable P : Platform.

Lemma bind_assoc (A B C : Type) (m : M A) (f : A -> M B) (g : B -> M C)
  (w : World) :
  bind (bind m f) g w = bind m (fun a => bind (f a) g) w.
Proof. unfold bind. destruct (m w) as [[a|e] w1]; reflexivity. Qed.

Lemma bind_emit (B : Type) (e : Effect) (k : unit -> M B) (w : World) :
  bind (emit e) k w = k tt (set_effects (effects w ++ [e]) w).
Proof. reflexivity. Qed.

Lemma try_step (A B : Type) (m : M A) (k : A -> M B) (h : Exn -> M B)
  (fin : M unit) (w w1 : World) (a : A) :
  m w = (Returned a, w1) ->
  tryFinally (tryCatch (bind m k) h) fin w
  = tryFinally (tryCatch (k a) h) fin w1.
Proof.
  intros H. unfold tryFinally, tryCatch, bind. now rewrite H.
Qed.

Lemma lastAIMessageIndex_last (pre : list Message) (m : Message) :
  msg_role m = ai ->
  freshIn (msg_id m) pre = true ->
  lastAIMessageIndex (pre ++ [m]) = Some (List.length pre).
Proof.
  intros Hrole Hfresh. unfold lastAIMessageIndex.
  rewrite last_map_Some_app.
  apply (findIndex_app_fresh _ (fun msg => String.eqb (msg_id msg) (msg_id m))
           (fun msg => Role_eqb (msg_role msg) ai)).
  - exact Hfresh.
  - apply String.eqb_refl.
  - now rewrite Hrole.
Qed.


End Regeneration.

(** ** The image generation session *)

Lemma Returns_bind (A B : Type) (m : M A) (k : A -> M B) :
  Returns m -> (forall a, Returns (k a)) -> Returns (bind m k).
Proof.
  intros Hm Hk w. unfold bind. destruct (Hm w) as (a & Ha).
  destruct (m w) as [[a'|e] w1]; simpl in Ha; [|discriminate].
  apply Hk.
Qed.

Lemma Returns_tryCatch (A : Type) (m : M A) (h : Exn -> M A) :
  (forall e, Returns (h e)) -> Returns (tryCatch m h).
Proof.
  intros Hh w. unfold tryCatch. destruct (m w) as [[a|e] w1].
  - now exists a.
  - apply Hh.
Qed.

Lemma Returns_ret (A : Type) (a : A) : Returns (ret a).
Proof. intros w. now exists a. Qed.

Lemma Returns_gets (A : Type) (f : World -> A) : Returns (gets f).
Proof. intros w. now exists (f w). Qed.

Lemma Returns_modify (f : World -> World) : Returns (modify f).
Proof. intros w. now exists tt. Qed.

Lemma Returns_emit (e : Effect) : Returns (emit e).
Proof. intros w. now exists tt. Qed.

Ltac returns_step :=
  match goal with
  | |- Returns (bind _ _) => apply Returns_bind; [|intro]
  | |- Returns (tryCatch _ _) => apply Returns_tryCatch; intro
  | |- Returns (ret _) => apply Returns_ret
  | |- Returns (gets _) => apply Returns_gets
  | |- Returns (modify _) => apply Returns_modify
  | |- Returns (emit _) => apply Returns_emit
  | |- Returns (showToast _ _) => apply Returns_emit
  | |- Returns (UI _) => intros ?; eexists; reflexivity
  | |- Returns (randomUUID _) => intros ?; eexists; reflexivity
  | |- Returns (Date_now _) => intros ?; eexists; reflexivity
  | |- Returns (if ?b then _ else _) => destruct b
  | |- Returns (match ?o with _ => _ end) => destruct o
  end.

Ltac returns := repeat (first [solve [auto 2] | returns_step]).

Section ImageSession.
Variable P : Platform.

Lemma addMessageToConversation_returns (m : Message) :
  Returns (addMessageToConversation P m).
Proof.
  unfold addMessageToConversation, pushMessage, startNewConversation,
    saveConversation, saveConversations, writeConversation.
  returns.
Qed.

Lemma imageCatch_returns (e : Exn) : Returns (imageCatch P e).
Proof. unfold imageCatch. returns. Qed.

(** The [finally] block of [generateImage] throws on its first
    statement, whatever the outcome of the provider was: the session
    never patches the placeholder and never reaches its own reset of the
    generation flag. *)
Lemma generateImage_finalization_throws (prompt : string)
  (net : Await Response) (w : World) :
  fst (generateImage P prompt net w)
  = Thrown (cannotRead "undefined" "conversations").
Proof.
  assert (Hthrows : forall (A : Type) (m : M A) (k : A -> M unit),
             Returns m ->
             (forall a w1, fst (k a w1)
                           = Thrown (cannotRead "undefined" "conversations")) ->
             forall w0, fst (bind m k w0)
                        = Thrown (cannotRead "undefined" "conversations")).
  { intros A m k Hm Hk w0. unfold bind. destruct (Hm w0) as (a & Ha).
    destruct (m w0) as [[a'|e] w1]; simpl in Ha; [apply Hk|discriminate]. }
  pose proof addMessageToConversation_returns as Hadd.
  pose proof imageCatch_returns as Hcatch.
  unfold generateImage.
  repeat (apply Hthrows; [solve [returns]|intros ? ?]).
  reflexivity.
Qed.

(** What [addMessageToConversation] does in every case: it returns,
    leaves the settings alone, and adds plain effects only. *)
Lemma addMessageToConversation_run (m : Message) (w : World) :
  exists w',
    addMessageToConversation P m w = (Returned tt, w')
    /\ settings w' = settings w
    /\ exists es, effects w' = effects w ++ es /\ forallb plain es = true.
Proof.
  destruct (addMessageToConversation_plain P m w) as (es & HE & Hes).
  exists (snd (addMessageToConversation P m w)).
  split; [|split; [|exists es; auto]].
  - unfold addMessageToConversation. rewrite bind_gets.
    destruct (findActive w); [reflexivity|].
    destruct (startNewConversation_spec P
                (match msg_type m with
                 | text => msg_content m
                 | image => "Image Generation"
                 end) w) as (w1 & c & Hrun & Hc & _).
    rewrite (bind_returned _ _ _ _ _ _ _ Hrun), bind_gets, Hc. reflexivity.
  - unfold addMessageToConversation. rewrite bind_gets.
    destruct (findActive w); [reflexivity|].
    destruct (startNewConversation_spec P
                (match msg_type m with
                 | text => msg_content m
                 | image => "Image Generation"
                 end) w) as (w1 & c & Hrun & Hc & _ & _ & Hs & _).
    rewrite (bind_returned _ _ _ _ _ _ _ Hrun), bind_gets, Hc.
    exact Hs.
Qed.

Lemma tryCatch_thrown (A : Type) (m : M A) (h : Exn -> M A) (w w1 : World)
  (e : Exn) :
  m w = (Thrown e, w1) -> tryCatch m h w = h e w1.
Proof. intros H. unfold tryCatch. now rewrite H. Qed.

(** With OpenRouter selected and no credential, or no image model, the
    [try] block throws before any request. *)
Lemma imageTry_unconfigured (prompt : string) (net : Await Response)
  (w : World) :
  imageProvider (settings w) = "openrouter" ->
  isEmpty (openrouterKey (settings w)) || isEmpty (imageModel (settings w))
  = true ->
  exists (e : Exn) (w' : World),
    imageTry P prompt net w = (Thrown e, w')
    /\ settings w' = settings w
    /\ effects w' = effects w ++ [Toast info "Generating image..."].
Proof.
  intros Hprov Hmissing. unfold imageTry, showToast.
  rewrite bind_emit, bind_newAbortController, bind_modify, bind_gets.
  cbn [settings set_abortController set_signals set_effects].
  rewrite Hprov. cbn [String.eqb Ascii.eqb Bool.eqb].
  unfold generateWithOpenRouter. rewrite bind_assoc, bind_gets.
  rewrite bind_assoc, bind_gets.
  cbn [settings set_abortController set_signals set_effects].
  destruct (isEmpty (openrouterKey (settings w))).
  - eexists. eexists. split; [reflexivity|]. split; reflexivity.
  - simpl in Hmissing. rewrite Hmissing.
    eexists. eexists. split; [reflexivity|]. split; reflexivity.
Qed.

(** With OpenRouter selected and no credential, or no image model, the
    image session issues no request. *)
Lemma openrouter_unconfigured_no_request (prompt : string)
  (net : Await Response) (w : World) :
  imageProvider (settings w) = "openrouter" ->
  isEmpty (openrouterKey (settings w)) || isEmpty (imageModel (settings w))
  = true ->
  let w' := snd (generateImage P prompt net w) in
  requestsOf (effects w') = requestsOf (effects w).
Proof.
  intros Hprov Hmissing w'. subst w'. unfold generateImage.
  rewrite bind_randomUUID, bind_Date_now.
  match goal with
  | |- context [bind (addMessageToConversation P ?m) _ ?w0] =>
      destruct (addMessageToConversation_run m w0)
        as (w1 & Hrun1 & Hs1 & es1 & HE1 & Hes1)
  end.
  rewrite (bind_returned _ _ _ _ _ _ _ Hrun1), bind_randomUUID, bind_Date_now.
  match goal with
  | |- context [bind (addMessageToConversation P ?m) _ ?w0] =>
      destruct (addMessageToConversation_run m w0)
        as (w2 & Hrun2 & Hs2 & es2 & HE2 & Hes2)
  end.
  rewrite (bind_returned _ _ _ _ _ _ _ Hrun2).
  cbn in Hs1, Hs2, HE1, HE2.
  assert (Hset : settings w2 = settings w) by congruence.
  rewrite <- Hset in Hprov, Hmissing.
  destruct (imageTry_unconfigured prompt net w2 Hprov Hmissing)
    as (e & w3 & Hrun3 & Hs3 & HE3).
  unfold bind at 1.
  rewrite (tryCatch_thrown _ _ _ w2 w3 e)
    by (now rewrite (bind_thrown _ _ _ _ _ _ _ Hrun3)).
  unfold imageCatch, showToast. rewrite bind_emit, bind_gets.
  cbn [settings set_effects]. rewrite Hs3, Hprov.
  cbn [String.eqb Ascii.eqb Bool.eqb ret].
  unfold imageFinally.
  cbn [exportedByChat chatExports existsb String.eqb Ascii.eqb Bool.eqb orb
       negb].
  unfold throw. cbn [snd effects set_effects].
  rewrite HE3, HE2, HE1. cbn [effects set_uuidCalls set_clockCalls].
  rewrite !requestsOf_app, (requestsOf_plain es1 Hes1),
    (requestsOf_plain es2 Hes2).
  cbn. now rewrite !app_nil_r.
Qed.

End ImageSession.

(** ** Texts *)

Lemma length_append (a b : string) :
  String.length (a ++ b)%string = String.length a + String.length b.
Proof. induction a as [|c a IH]; simpl; congruence. Qed.

Lemma length_substring_to (n : nat) (s : string) :
  String.length (substring_to n s) = Nat.min n (String.length s).
Proof.
  revert s. induction n as [|n IH]; intros [|c s]; simpl; try reflexivity.
  now rewrite IH.
Qed.

Lemma substring_to_append (n : nat) (a b : string) :
  n <= String.length a -> substring_to n (a ++ b)%string = substring_to n a.
Proof.
  revert a. induction n as [|n IH]; intros [|c a] Hle; simpl in *;
    try reflexivity; try lia.
  f_equal. apply IH. lia.
Qed.

Lemma substring_to_twice (n : nat) (s : string) :
  substring_to n (substring_to n s) = substring_to n s.
Proof.
  revert s. induction n as [|n IH]; intros [|c s]; simpl; try reflexivity.
  now rewrite IH.
Qed.

Lemma allChars_append (p : ascii -> bool) (a b : string) :
  allChars p (a ++ b)%string = allChars p a && allChars p b.
Proof.
  induction a as [|c a IH]; simpl; [reflexivity|].
  now rewrite IH, andb_assoc.
Qed.

Lemma join_empty_cons (x : string) (r : list string) :
  join EmptyString (x :: r) = (x ++ join EmptyString r)%string.
Proof. destruct r; simpl; [now rewrite append_empty_r|reflexivity]. Qed.

Lemma append_injective (a b c d : string) :
  String.length a = String.length c ->
  (a ++ b)%string = (c ++ d)%string -> a = c /\ b = d.
Proof.
  revert c. induction a as [|x a IH]; intros [|y c] Hlen Heq;
    simpl in *; try discriminate; [auto|].
  injection Heq as -> Heq. injection Hlen as Hlen.
  destruct (IH c Hlen Heq) as [-> ->]. auto.
Qed.

Lemma prefix_char (c d : ascii) (r s : string) :
  String.prefix (String c r) (String d s)
  = Ascii.eqb d c && String.prefix r s.
Proof.
  cbn [String.prefix]. destruct (ascii_dec c d) as [->|Hne].
  - now rewrite Ascii.eqb_refl.
  - apply not_eq_sym in Hne. apply Ascii.eqb_neq in Hne. now rewrite Hne.
Qed.

(** Splitting at a character: a text without it is one piece, and the
    text before its first occurrence is the first piece. *)
Lemma split_from_lacking (c : ascii) (cur s : string) :
  lacks c s = true ->
  split_from (String c EmptyString) 0 cur s = [(cur ++ s)%string].
Proof.
  unfold lacks. revert cur. induction s as [|d s IH]; intros cur Hs.
  - now rewrite append_empty_r.
  - simpl in Hs. apply andb_true_iff in Hs as [Hd Hs].
    apply negb_true_iff in Hd. cbn [split_from]. rewrite prefix_char, Hd.
    cbn [andb]. rewrite IH by exact Hs. now rewrite append_assoc.
Qed.

Lemma split_from_separator (c : ascii) (cur a b : string) :
  lacks c a = true ->
  split_from (String c EmptyString) 0 cur (a ++ String c b)%string
  = (cur ++ a)%string :: split_from (String c EmptyString) 0 EmptyString b.
Proof.
  unfold lacks. revert cur. induction a as [|d a IH]; intros cur Ha.
  - rewrite append_empty_r. cbn [append split_from].
    rewrite prefix_char, Ascii.eqb_refl. now destruct b.
  - simpl in Ha. apply andb_true_iff in Ha as [Hd Ha].
    apply negb_true_iff in Hd.
    cbn [append split_from]. rewrite prefix_char, Hd. cbn [andb].
    rewrite IH by exact Ha. now rewrite append_assoc.
Qed.

(** ** utils.js: texts, tokens and dates *)

(** X1.  With a limit of at least three characters [truncateText] never
    gives more than the limit: the length of its result is the smaller of
    the length of the text and the limit, and the result starts with the
    first [maxLength - 3] characters of the text. *)
Theorem truncateText_length (str : string) (maxLength : nat) :
  3 <= maxLength ->
  String.length (truncateText str maxLength)
  = Nat.min (String.length str) maxLength
  /\ substring_to (maxLength - 3) (truncateText str maxLength)
     = substring_to (maxLength - 3) str.
Proof.
  intros Hmax. unfold truncateText.
  destruct (String.length str <=? maxLength)%nat eqn:Hle.
  - apply Nat.leb_le in Hle. split; [lia|reflexivity].
  - apply Nat.leb_gt in Hle. split.
    + rewrite length_append, length_substring_to. simpl. lia.
    + rewrite substring_to_append by (rewrite length_substring_to; lia).
      apply substring_to_twice.
Qed.

(** X2.  At a limit of three or less, a text longer than the limit is cut
    to the three dots alone: with a limit below three the result is
    longer than the limit. *)
Theorem truncateText_small_limit (str : string) (maxLength : nat) :
  maxLength <= 3 ->
  maxLength < String.length str ->
  truncateText str maxLength = "...".
Proof.
  intros Hsmall Hlong. unfold truncateText.
  apply Nat.leb_gt in Hlong. rewrite Hlong.
  replace (maxLength - 3) with 0 by lia. reflexivity.
Qed.

Lemma below_256 (p : nat -> bool) :
  forallb p (seq 0 256) = true -> forall n, n < 256 -> p n = true.
Proof.
  intros H n Hn. rewrite forallb_forall in H. apply H, in_seq. lia.
Qed.

(** A byte is written as two hexadecimal digits, and no two bytes as the
    same two. *)
Lemma hexPair_shape (byte : nat) :
  byte < 256 ->
  String.length (hexPair byte) = 2 /\ allChars isHexDigit (hexPair byte) = true.
Proof.
  intros Hb.
  assert (H : (String.length (hexPair byte) =? 2)%nat
              && allChars isHexDigit (hexPair byte) = true).
  { revert byte Hb. apply below_256. vm_compute. reflexivity. }
  apply andb_true_iff in H as [H1 H2]. apply Nat.eqb_eq in H1. auto.
Qed.

Lemma hexPair_injective (a b : nat) :
  a < 256 -> b < 256 -> hexPair a = hexPair b -> a = b.
Proof.
  intros Ha Hb Heq.
  assert (H : forallb (fun y => implb (String.eqb (hexPair a) (hexPair y))
                                  (a =? y)%nat) (seq 0 256) = true).
  { clear Heq. revert a Ha. apply below_256. vm_compute. reflexivity. }
  pose proof (below_256 _ H b Hb) as Hab. cbv beta in Hab.
  rewrite Heq, String.eqb_refl in Hab. simpl in Hab. now apply Nat.eqb_eq.
Qed.

Lemma hexPairs_injective (l1 l2 : list nat) :
  Forall (fun b => b < 256) l1 -> Forall (fun b => b < 256) l2 ->
  join EmptyString (map hexPair l1) = join EmptyString (map hexPair l2) ->
  l1 = l2.
Proof.
  intros H1. revert l2. induction H1 as [|x l1 Hx H1 IH]; intros l2 H2 Heq.
  - destruct H2 as [|y l2 Hy H2]; [reflexivity|].
    cbn [map] in Heq. rewrite join_empty_cons in Heq.
    apply (f_equal String.length) in Heq. rewrite length_append in Heq.
    destruct (hexPair_shape y Hy) as [Hl _]. simpl in Heq. lia.
  - destruct H2 as [|y l2 Hy H2].
    + cbn [map] in Heq. rewrite join_empty_cons in Heq.
      apply (f_equal String.length) in Heq. rewrite length_append in Heq.
      destruct (hexPair_shape x Hx) as [Hl _]. simpl in Heq. lia.
    + cbn [map] in Heq. rewrite !join_empty_cons in Heq.
      apply append_injective in Heq as [Hxy Hrest].
      * apply hexPair_injective in Hxy; auto. subst y. f_equal. now apply IH.
      * destruct (hexPair_shape x Hx) as [-> _].
        destruct (hexPair_shape y Hy) as [-> _]. reflexivity.
Qed.

Lemma bytes_below_256 (entropy : nat -> nat) (l : list nat) :
  Forall (fun b => b < 256) (map (fun i => entropy i mod 256) l).
Proof.
  induction l as [|i l IH]; cbn [map]; constructor; [|exact IH].
  apply Nat.mod_upper_bound. discriminate.
Qed.

Lemma hexPairs_shape (entropy : nat -> nat) (l : list nat) :
  let token :=
    join EmptyString (map hexPair (map (fun i => entropy i mod 256) l)) in
  String.length token = 2 * List.length l
  /\ allChars isHexDigit token = true.
Proof.
  induction l as [|i l [IHlen IHhex]]; [split; reflexivity|].
  cbn [map]. rewrite join_empty_cons, length_append, allChars_append.
  destruct (hexPair_shape (entropy i mod 256)) as [Hl Hh].
  { apply Nat.mod_upper_bound. discriminate. }
  cbv zeta in IHlen, IHhex.
  rewrite Hl, Hh, IHlen, IHhex. cbn [List.length]. split; [lia|reflexivity].
Qed.

(** X3.  The token [generateCsrfToken] makes from [bytes] random bytes is
    a text of [2 * bytes] characters, each a lower-case hexadecimal
    digit. *)
Theorem generateCsrfToken_shape (entropy : nat -> nat) (bytes : nat) :
  String.length (generateCsrfToken entropy bytes) = 2 * bytes
  /\ allChars isHexDigit (generateCsrfToken entropy bytes) = true.
Proof.
  destruct (hexPairs_shape entropy (seq 0 bytes)) as [Hlen Hhex].
  rewrite length_seq in Hlen. split; assumption.
Qed.

(** X4.  The token determines the bytes it was made from: two tokens are
    the same text only when they were made from the same number of bytes
    and from the same byte at every index. *)
Theorem generateCsrfToken_injective (entropy1 entropy2 : nat -> nat)
  (bytes1 bytes2 : nat) :
  generateCsrfToken entropy1 bytes1 = generateCsrfToken entropy2 bytes2 ->
  bytes1 = bytes2
  /\ forall i, i < bytes1 -> entropy1 i mod 256 = entropy2 i mod 256.
Proof.
  unfold generateCsrfToken.
  change (fun byte : nat => padStart 2 "0" (toString16 byte)) with hexPair.
  intros Heq. apply hexPairs_injective in Heq; try apply bytes_below_256.
  assert (Hn : bytes1 = bytes2).
  { apply (f_equal (@List.length nat)) in Heq.
    now rewrite !length_map, !length_seq in Heq. }
  subst bytes2. split; [reflexivity|]. intros i Hi.
  apply (f_equal (fun l => nth i l 0)) in Heq.
  assert (Hnth : forall (f : nat -> nat),
             nth i (map f (seq 0 bytes1)) 0 = f i).
  { intros f.
    rewrite (nth_indep _ 0 (f 0)) by (now rewrite length_map, length_seq).
    rewrite map_nth, seq_nth by exact Hi. reflexivity. }
  now rewrite !Hnth in Heq.
Qed.

(** The number of days [formatDate] computes is at most [n] exactly when
    the two instants are at most [n] times 86400000 milliseconds apart. *)
Lemma ceiling_days (a n : Z) :
  ((- ((- a) / (1000 * 60 * 60 * 24)) <=? n) = (a <=? n * 86400000))%Z.
Proof.
  change (1000 * 60 * 60 * 24)%Z with 86400000%Z.
  pose proof (Z.div_mod (- a) 86400000 ltac:(discriminate)) as Hdm.
  pose proof (Z.mod_pos_bound (- a) 86400000 ltac:(reflexivity)) as Hb.
  destruct (Z.leb_spec (- (- a / 86400000)) n);
    destruct (Z.leb_spec a (n * 86400000)); try reflexivity; lia.
Qed.

(** X5.  [formatDate] answers [Older] exactly for the instants more than
    seven days away from now, before or after. *)
Theorem formatDate_older (getDate : Z -> Z) (now timestamp : Z) :
  formatDate getDate now timestamp = "Older"
  <-> (7 * 86400000 < Z.abs (now - timestamp))%Z.
Proof.
  unfold formatDate. rewrite !ceiling_days.
  destruct (Z.leb_spec (Z.abs (now - timestamp)) (7 * 86400000)) as [Hle|Hgt].
  - split; [|lia]. intros H.
    destruct (_ && _); [discriminate|]. destruct (_ && _); discriminate.
  - split; [intros _; lia|intros _].
    assert (H1 : (Z.abs (now - timestamp) <=? 1 * 86400000)%Z = false)
      by (apply Z.leb_gt; lia).
    assert (H2 : (Z.abs (now - timestamp) <=? 2 * 86400000)%Z = false)
      by (apply Z.leb_gt; lia).
    now rewrite H1, H2.
Qed.

(** X6.  On the first day of a month no instant is labelled [Yesterday]:
    the label asks for the day of the month before today's, which is 0
    then, and no instant falls on a day 0. *)
Theorem formatDate_first_of_month (getDate : Z -> Z) (now timestamp : Z) :
  (forall t, (1 <= getDate t)%Z) ->
  getDate now = 1%Z ->
  formatDate getDate now timestamp <> "Yesterday".
Proof.
  intros Hday Hfirst. unfold formatDate.
  assert (H : (getDate timestamp =? getDate now - 1)%Z = false).
  { apply Z.eqb_neq. specialize (Hday timestamp). lia. }
  rewrite H, andb_false_r.
  destruct (_ && _); [discriminate|]. destruct (_ <=? _)%Z; discriminate.
Qed.

(** ** storage.js: loading the conversations *)

Lemma insertByLastUpdated_permutation (c : Conversation)
  (l : list Conversation) :
  Permutation (c :: l) (Storage.insertByLastUpdated c l).
Proof.
  induction l as [|d l IH]; simpl; [reflexivity|].
  destruct (conv_lastUpdated d <=? conv_lastUpdated c)%nat; [reflexivity|].
  rewrite perm_swap. now constructor.
Qed.

Lemma insertByLastUpdated_newestFirst (c : Conversation)
  (l : list Conversation) :
  newestFirst l = true -> newestFirst (Storage.insertByLastUpdated c l) = true.
Proof.
  induction l as [|d l IH]; simpl; [reflexivity|].
  intros H. apply andb_true_iff in H as [Hd Hl].
  destruct (conv_lastUpdated d <=? conv_lastUpdated c)%nat eqn:Hle.
  - simpl. rewrite Hle, Hd, Hl. simpl. rewrite andb_true_r.
    apply Nat.leb_le in Hle. rewrite forallb_forall in *.
    intros x Hx. apply Hd in Hx. apply Nat.leb_le in Hx. apply Nat.leb_le. lia.
  - simpl. rewrite (IH Hl), andb_true_r.
    apply Nat.leb_gt in Hle. rewrite forallb_forall in *.
    intros x Hx.
    apply (Permutation_in _
             (Permutation_sym (insertByLastUpdated_permutation c l))) in Hx.
    destruct Hx as [<-|Hx]; [apply Nat.leb_le; lia|now apply Hd].
Qed.

Lemma insertByLastUpdated_first (c : Conversation) (l : list Conversation) :
  forallb (fun d => (conv_lastUpdated d <=? conv_lastUpdated c)%nat) l = true ->
  Storage.insertByLastUpdated c l = c :: l.
Proof.
  destruct l as [|d l]; simpl; [reflexivity|].
  intros H. apply andb_true_iff in H as [Hd _]. now rewrite Hd.
Qed.

(** X7.  Whatever order the stored conversations come in,
    [loadConversations] puts the same conversations into [STATE], none
    lost and none twice, the most recently updated first; it changes
    nothing else and shows nothing. *)
Theorem loadConversations_newest_first (cs : list Conversation) (w : World) :
  exists sorted : list Conversation,
    Storage.loadConversations (Storage.StoredList cs) w
    = (Returned tt, set_conversations sorted w)
    /\ Permutation cs sorted
    /\ newestFirst sorted = true.
Proof.
  exists (Storage.sortByLastUpdated cs). split; [reflexivity|].
  unfold Storage.sortByLastUpdated.
  induction cs as [|c cs [IHp IHs]]; simpl; [split; [constructor|reflexivity]|].
  split.
  - rewrite <- insertByLastUpdated_permutation. now constructor.
  - now apply insertByLastUpdated_newestFirst.
Qed.

(** X8.  Conversations stored newest first are loaded in the order they
    were stored in: conversations updated at the same instant are not
    swapped. *)
Theorem loadConversations_keeps_order (cs : list Conversation) (w : World) :
  newestFirst cs = true ->
  Storage.loadConversations (Storage.StoredList cs) w
  = (Returned tt, set_conversations cs w).
Proof.
  intros Hsorted.
  assert (H : Storage.sortByLastUpdated cs = cs).
  { unfold Storage.sortByLastUpdated.
    induction cs as [|c cs IH]; simpl; [reflexivity|].
    simpl in Hsorted. apply andb_true_iff in Hsorted as [Hc Hcs].
    rewrite (IH Hcs). now apply insertByLastUpdated_first. }
  unfold Storage.loadConversations. rewrite bind_modify. unfold modify.
  cbn [conversations set_conversations]. now rewrite H.
Qed.

(** ** security.js *)

Lemma generateCsrfToken_present (entropy : nat -> nat) (bytes : nat) :
  0 < bytes ->
  Security.present (Some (generateCsrfToken entropy bytes)) = true.
Proof.
  intros Hbytes.
  destruct (hexPairs_shape entropy (seq 0 bytes)) as [Hlen _].
  rewrite length_seq in Hlen.
  change (String.length (generateCsrfToken entropy bytes) = 2 * bytes) in Hlen.
  unfold Security.present.
  destruct (generateCsrfToken entropy bytes); [simpl in Hlen; lia|reflexivity].
Qed.

Lemma verifyCsrfToken_same (actionName : string) (token : option string)
  (f : Security.Flags) (p : Security.Panel) :
  Security.present token = true ->
  Security.verifyCsrfToken actionName (Security.mkSession token token f p)
  = true.
Proof.
  intros Hp. unfold Security.verifyCsrfToken.
  cbn [Security.csrfTokenInMemory Security.csrf_token]. rewrite Hp.
  destruct token as [t|]; [|discriminate]. now rewrite String.eqb_refl.
Qed.

(** X9.  After [initCsrfToken], with a token length of at least one byte,
    [verifyCsrfToken] accepts every action; [STATE.security] holds the
    token that is in memory and is flagged active; and a token already in
    [sessionStorage] is kept, not replaced. *)
Theorem initCsrfToken_verifies (entropy : nat -> nat) (bytes : nat)
  (s : Security.Session) (actionName : string) :
  0 < bytes ->
  let s' := Security.initCsrfToken entropy bytes s in
  Security.verifyCsrfToken actionName s' = true
  /\ Security.csrfToken (Security.security s') = Security.csrfTokenInMemory s'
  /\ Security.csrfTokensActive (Security.security s') = true
  /\ (Security.present (Security.csrf_token s) = true ->
      Security.csrf_token s' = Security.csrf_token s).
Proof.
  intros Hbytes s'. subst s'. unfold Security.initCsrfToken.
  destruct (Security.present (Security.csrf_token s)) eqn:Hp;
    unfold Security.updateSecurityStatusUI;
    cbn [Security.csrfTokenInMemory Security.csrf_token Security.security
         Security.panel Security.csrfToken Security.csrfTokensActive].
  - split; [now apply verifyCsrfToken_same|]. auto.
  - split; [now apply verifyCsrfToken_same, generateCsrfToken_present|].
    repeat split. discriminate.
Qed.

(** X10.  On a page served over http from a host other than [localhost]
    and [127.0.0.1], [enforceHttps] sends the window to the same address
    with the scheme replaced by https: what follows the scheme is left as
    it is, also where it holds [http] again. *)
Theorem enforceHttps_upgrades (l : Security.Location) (rest : string) :
  Security.protocol l = "http:" ->
  Security.href l = ("http:" ++ rest)%string ->
  Security.hostname l <> "localhost" ->
  Security.hostname l <> "127.0.0.1" ->
  Security.enforceHttps l = Some ("https:" ++ rest)%string.
Proof.
  intros Hp Hh H1 H2. unfold Security.enforceHttps.
  apply String.eqb_neq in H1, H2. rewrite Hp, Hh, H1, H2. reflexivity.
Qed.

(** ** The other entry points of chat.js *)

Lemma find_filter_other (i j : string) (l : list Conversation) :
  j <> i ->
  find (hasConvId j) (filter (fun c => negb (hasConvId i c)) l)
  = find (hasConvId j) l.
Proof.
  intros Hne. induction l as [|c l IH]; simpl; [reflexivity|].
  destruct (hasConvId i c) eqn:Hi; simpl.
  - destruct (hasConvId j c) eqn:Hj; [|exact IH].
    apply String.eqb_eq in Hi, Hj. congruence.
  - now rewrite IH.
Qed.

Lemma find_filter_same (i : string) (l : list Conversation) :
  find (hasConvId i) (filter (fun c => negb (hasConvId i c)) l) = None.
Proof.
  induction l as [|c l IH]; simpl; [reflexivity|].
  destruct (hasConvId i c) eqn:Hc; simpl; [exact IH|now rewrite Hc].
Qed.


(** X12.  [setMode] changes nothing but the mode and the trace, and it
    changes the mode only while no generation is active: afterwards the
    mode is the one asked for if the application was idle, and the one it
    was otherwise.  It issues no request. *)
Theorem setMode_frame (m : Mode) (w : World) :
  exists es : list Effect,
    setMode m w
    = (Returned tt,
       set_effects (effects w ++ es)
         (set_mode (if isGenerating w then mode w else m) w))
    /\ forallb plain es = true.
Proof.
  unfold setMode. rewrite bind_gets.
  destruct w as [cs act busy typing md st ctl sigs input es u c].
  cbn [mode isGenerating effects].
  destruct (Mode_eqb md m) eqn:Hsame.
  - exists []. split; [|reflexivity].
    assert (Hm : md = m) by (destruct md, m; try discriminate; reflexivity).
    subst m. rewrite app_nil_r. now destruct busy.
  - rewrite bind_gets. cbn [isGenerating]. destruct busy.
    + exists [Toast warning busyWarning]. split; reflexivity.
    + exists [Ui updateChatInputArea;
              Toast info
                ("Switched to "
                 ++ match m with
                    | chat => "Chat"
                    | imageMode => "Image Generation"
                    end ++ " Mode.")%string].
      split; [|reflexivity].
      rewrite bind_modify. unfold UI, showToast. rewrite !bind_emit.
      unfold emit, modify. cbn [effects set_effects set_mode].
      rewrite <- app_assoc. reflexivity.
Qed.

Lemma aborted_other_signal (r r' : nat) (w : World) :
  r' <> r -> aborted r' (abortSignal r w) = aborted r' w.
Proof.
  unfold aborted, abortSignal. cbn. generalize (signals w) as l.
  revert r'. induction r as [|r IH]; intros r' l Hne.
  - destruct l as [|b l]; [reflexivity|].
    destruct r'; [contradiction|reflexivity].
  - destruct l as [|b l]; [reflexivity|]. destruct r'; [reflexivity|].
    simpl. apply IH. lia.
Qed.

(** X13.  With a controller in place [stopGenerating] aborts its signal
    and does nothing else: the signals of the other controllers keep
    their state and the rest of the world is as it was.  The generation
    flag in particular stays set; the session resets it when it ends. *)
Theorem stopGenerating_aborts (w : World) (r : nat) :
  abortController w = Some r ->
  r < List.length (signals w) ->
  exists w' : World,
    stopGenerating w = (Returned tt, w')
    /\ aborted r w' = true
    /\ (forall r', r' <> r -> aborted r' w' = aborted r' w)
    /\ w' = set_signals (signals w') w.
Proof.
  intros Hctl Hr. unfold stopGenerating. rewrite bind_gets, Hctl.
  eexists. split; [reflexivity|].
  split; [now apply aborted_abortSignal|].
  split; [intros r' Hne; now apply aborted_other_signal|].
  reflexivity.
Qed.

(** ** The message store, in full *)

Lemma find_updateFirst_other (i j : string)
  (f : Conversation -> Conversation) (l : list Conversation) :
  (forall c, conv_id (f c) = conv_id c) ->
  j <> i ->
  find (hasConvId j) (updateFirst (hasConvId i) f l) = find (hasConvId j) l.
Proof.
  intros Hf Hne. induction l as [|c l IH]; simpl; [reflexivity|].
  destruct (hasConvId i c) eqn:Hi; simpl.
  - unfold hasConvId in *. rewrite Hf.
    apply String.eqb_eq in Hi.
    destruct (String.eqb_spec (conv_id c) j); [congruence|reflexivity].
  - now rewrite IH.
Qed.

Lemma length_updateFirst (A : Type) (p : A -> bool) (f : A -> A) (l : list A) :
  List.length (updateFirst p f l) = List.length l.
Proof.
  induction l as [|x l IH]; simpl; [reflexivity|].
  destruct (p x); simpl; congruence.
Qed.

Ltac fields H :=
  unfold controlOf in H;
  let a := fresh "Kactive" in let b := fresh "Kgen" in
  let c := fresh "Ktyping" in let d := fresh "Kmode" in
  let e := fresh "Ksettings" in let f := fresh "Kabort" in
  let g := fresh "Ksignals" in let h := fresh "Kinput" in
  let i := fresh "Kuuid" in
  injection H as a b c d e f g h i.

Section StoreInFull.
Variable P : Platform.


(** X15.  With no active conversation found (none selected, or the
    selected identifier names no stored conversation),
    [addMessageToConversation] opens one: a new conversation is put
    before the others, under a fresh identifier, titled with the
    truncated text of the message (or [Image Generation] for an image),
    holding the message alone, and it becomes the active one. *)
Theorem addMessageToConversation_opens (m : Message) (w : World) :
  findActive w = None ->
  exists w' : World,
    addMessageToConversation P m w = (Returned tt, w')
    /\ conversations w'
       = mkConversation (uuidAt P (uuidCalls w))
           (truncateText (match msg_type m with
                          | text => msg_content m
                          | image => "Image Generation"
                          end) (CONVERSATION_TITLE_MAX_LENGTH P))
           [m] (timeAt P (S (S (clockCalls w))))
         :: conversations w
    /\ activeConversationId w' = Some (uuidAt P (uuidCalls w)).
Proof.
  intros Hnone. unfold addMessageToConversation. rewrite bind_gets, Hnone.
  unfold startNewConversation, saveConversations.
  repeat first [ rewrite bind_assoc | rewrite bind_modify
               | rewrite bind_Date_now | rewrite bind_gets
               | rewrite bind_emit | rewrite bind_randomUUID ].
  change (UI renderApp) with (emit (Ui renderApp)).
  rewrite bind_emit, bind_gets.
  unfold findActive at 1.
  cbn [activeConversationId set_effects set_activeConversationId
       set_conversations set_clockCalls set_uuidCalls conversations find].
  unfold hasConvId at 1. cbn [conv_id]. rewrite String.eqb_refl.
  unfold pushMessage, saveConversation, saveConversations, writeConversation, UI.
  repeat first [ rewrite bind_assoc | rewrite bind_modify
               | rewrite bind_Date_now | rewrite bind_gets
               | rewrite bind_emit ].
  eexists. split; [reflexivity|].
  cbn [conversations set_conversations set_clockCalls clockCalls effects
       set_effects activeConversationId set_activeConversationId set_uuidCalls
       uuidCalls conv_id updateFirst].
  unfold hasConvId. cbn [conv_id updateFirst].
  rewrite String.eqb_refl.
  cbn [conv_id updateFirst set_conv_messages set_conv_lastUpdated conv_title
       conv_messages app].
  rewrite String.eqb_refl.
  cbn [updateFirst conv_id set_conv_lastUpdated conv_title conv_messages].
  rewrite String.eqb_refl.
  split; reflexivity.
Qed.

(** What [addMessageToConversation] does whether or not an active
    conversation is found: afterwards there is one, and it ends with the
    message. *)
Lemma addMessageToConversation_last (m : Message) (w : World) :
  exists (w' : World) (c' : Conversation),
    addMessageToConversation P m w = (Returned tt, w')
    /\ findActive w' = Some c'
    /\ conv_messages c' = activeMessages w ++ [m]
    /\ isGenerating w' = isGenerating w
    /\ abortController w' = abortController w
    /\ signals w' = signals w
    /\ settings w' = settings w
    /\ mode w' = mode w
    /\ chatInput w' = chatInput w
    /\ exists es, effects w' = effects w ++ es /\ forallb plain es = true.
Proof.
  unfold activeMessages. destruct (findActive w) as [c|] eqn:Hc.
  - destruct (addMessageToConversation_spec P m w c Hc)
      as (w' & c' & Hrun & Hc' & _ & Hm & HK & Hes).
    fields HK. exists w', c'. auto 12.
  - destruct (startNewConversation_spec P
                (match msg_type m with
                 | text => msg_content m
                 | image => "Image Generation"
                 end) w)
      as (w1 & c1 & Hrun1 & Hc1 & Hm1 & _ & Hs1 & Ha1 & Hsig1 & Hg1
          & es1 & HE1 & Hes1).
    assert (Hmode : mode w1 = mode w /\ chatInput w1 = chatInput w).
    { apply (f_equal snd) in Hrun1. simpl in Hrun1. subst w1.
      split; reflexivity. }
    destruct (addMessageToConversation_spec P m w1 c1 Hc1)
      as (w' & c' & Hrun & Hc' & _ & Hm & HK & es2 & HE2 & Hes2).
    fields HK. exists w', c'. split.
    { unfold addMessageToConversation. rewrite bind_gets, Hc.
      rewrite (bind_returned _ _ _ _ _ _ _ Hrun1), bind_gets, Hc1.
      unfold addMessageToConversation in Hrun. rewrite bind_gets, Hc1 in Hrun.
      exact Hrun. }
    split; [exact Hc'|]. split; [now rewrite Hm, Hm1|].
    destruct Hmode as [Hmd Hin].
    repeat (split; [congruence|]).
    exists (es1 ++ es2). rewrite HE2, HE1, app_assoc, forallb_app, Hes1, Hes2.
    auto.
Qed.

End StoreInFull.

(** ** Text sessions that fail *)

Section TextFailures.
Variable P : Platform.

(** X16.  Without a credential [sendChatMessage] issues no request: it
    appends the prompt as a user message and, after it, an assistant
    message flagged as an error that tells the key is not configured,
    opening a conversation for them if none is active, and returns.  It
    leaves the generation flag as it found it. *)
Theorem sendChatMessage_without_key (prompt : string) (net : Await Response)
  (w : World) :
  isEmpty (openrouterKey (settings w)) = true ->
  exists (w' : World) (userMessage reply : Message),
    sendChatMessage P prompt net w = (Returned tt, w')
    /\ requestsOf (effects w') = requestsOf (effects w)
    /\ activeMessages w' = activeMessages w ++ [userMessage; reply]
    /\ msg_role userMessage = user
    /\ msg_content userMessage = prompt
    /\ msg_role reply = ai
    /\ msg_content reply
       = "Error: OpenRouter API key is not configured. Please check settings."
    /\ msg_error reply = Some true
    /\ msg_errorMessage reply = Some "API key not configured."
    /\ isGenerating w' = isGenerating w.
Proof.
  intros Hkey. unfold sendChatMessage. rewrite bind_gets, Hkey.
  unfold reportMissingKey, showToast.
  rewrite bind_emit, bind_randomUUID, bind_Date_now.
  match goal with
  | |- context [bind (addMessageToConversation P ?m) _ ?w0] =>
      destruct (addMessageToConversation_last P m w0)
        as (w1 & c1 & Hrun1 & Hc1 & Hm1 & Hg1 & _ & _ & _ & _ & _
            & es1 & HE1 & Hes1)
  end.
  rewrite (bind_returned _ _ _ _ _ _ _ Hrun1), bind_randomUUID, bind_Date_now.
  match goal with
  | |- context [addMessageToConversation P ?m ?w0] =>
      destruct (addMessageToConversation_last P m w0)
        as (w2 & c2 & Hrun2 & Hc2 & Hm2 & Hg2 & _ & _ & _ & _ & _
            & es2 & HE2 & Hes2)
  end.
  rewrite Hrun2. clear Hrun1 Hrun2.
  eexists. eexists. eexists. split; [reflexivity|].
  split.
  { rewrite HE2. cbn [effects set_uuidCalls set_clockCalls]. rewrite HE1.
    cbn [effects set_uuidCalls set_clockCalls set_effects].
    rewrite !requestsOf_app, (requestsOf_plain es1 Hes1),
      (requestsOf_plain es2 Hes2).
    cbn. now rewrite !app_nil_r. }
  split.
  { unfold activeMessages in *. rewrite Hc2, Hm2.
    assert (Hf : forall n w0, findActive (set_clockCalls n w0) = findActive w0)
      by reflexivity.
    assert (Hu : forall n w0, findActive (set_uuidCalls n w0) = findActive w0)
      by reflexivity.
    assert (He : forall n w0, findActive (set_effects n w0) = findActive w0)
      by reflexivity.
    rewrite Hf, Hu, Hc1, Hm1, Hf, Hu, He, <- app_assoc. reflexivity. }
  do 6 (split; [reflexivity|]).
  rewrite Hg2. cbn. rewrite Hg1. reflexivity.
Qed.

(** What the [catch] block does to the target message. *)
Lemma chatCatch_target (aiId : string) (r : nat) (acc : string) (e : Exn)
  (pre : list Message) (w : World) (m : Message) :
  Target aiId pre w m ->
  freshIn aiId pre = true ->
  exists w' : World,
    chatCatch P aiId r acc e w = (Returned tt, w')
    /\ Target aiId pre w'
         (set_msg_update
            (acc ++ (if aborted r w then stoppedNotice
                     else errorNotice (message e)))%string
            true (message e) m).
Proof.
  intros HT Hfresh. unfold chatCatch. rewrite bind_gets.
  destruct (aborted r w); unfold showToast; rewrite bind_emit;
    match goal with
    | |- context [updateLastMessageContent P aiId ?nc ?e0 ?em ?w0] =>
        destruct (updateLastMessageContent_target P aiId nc e0 em pre w0 m)
          as (w3 & Hrun & HT3 & _ & _)
    end;
    try (eapply Target_store; eauto; reflexivity); try exact Hfresh;
    exists w3; split; assumption.
Qed.

(** The [try]/[catch] of the session on a request that delivers no
    stream. *)
Lemma chatStream_failed (aiId : string) (request : Request)
  (net : Await Response) (pre : list Message) (s : list bool) (w : World)
  (m : Message) :
  freshIn aiId pre = true ->
  Target aiId pre w m ->
  abortController w = Some (List.length s) ->
  signals w = s ++ [false] ->
  (forall response, net = Resolved response -> ok response = false) ->
  exists w' : World,
    chatStream P aiId (List.length s) request net w = (Returned tt, w')
    /\ Target aiId pre w'
         (set_msg_update
            (if fst (requestFailure P net) then stoppedNotice
             else errorNotice (message (snd (requestFailure P net))))
            true (message (snd (requestFailure P net))) m).
Proof.
  intros Hfresh HT Hctl Hsig Hbad.
  set (w1 := set_effects (effects w ++ [Fetch request]) w).
  assert (HT1 : Target aiId pre w1 m) by (eapply Target_store; eauto).
  assert (Hquiet : aborted (List.length s) w1 = false)
    by (now apply aborted_new_signal).
  assert (Hstop : stopGenerating w1
                  = (Returned tt, abortSignal (List.length s) w1)).
  { unfold stopGenerating. rewrite bind_gets.
    cbn [abortController w1 set_effects]. now rewrite Hctl. }
  assert (HT2 : Target aiId pre (abortSignal (List.length s) w1) m)
    by (eapply Target_store; eauto).
  assert (Hloud : aborted (List.length s) (abortSignal (List.length s) w1)
                  = true).
  { apply aborted_abortSignal. cbn [signals w1 set_effects].
    rewrite Hsig, length_app. simpl. lia. }
  unfold chatStream, chatTry, fetch.
  rewrite (bind_returned _ _ (emit (Fetch request)) _ w w1 tt) by reflexivity.
  destruct net as [response|e|e].
  - change (await (Resolved response) w1) with (Returned response, w1).
    cbv iota beta. rewrite (Hbad response eq_refl). cbn [negb]. cbv iota.
    cbn [requestFailure].
    destruct (json response) as [errorData|e|e]; cbn [await fst snd].
    + unfold ret. cbv iota beta.
      destruct (chatCatch_target aiId (List.length s) EmptyString
                  (responseError P errorData (statusText response)) pre w1 m
                  HT1 Hfresh) as (w' & Hrun & HT').
      rewrite Hquiet in HT'. exists w'. split; assumption.
    + unfold throw. cbv iota beta.
      destruct (chatCatch_target aiId (List.length s) EmptyString e pre w1 m
                  HT1 Hfresh) as (w' & Hrun & HT').
      rewrite Hquiet in HT'. exists w'. split; assumption.
    + rewrite (bind_returned _ _ _ _ _ _ _ Hstop). unfold throw. cbv iota beta.
      destruct (chatCatch_target aiId (List.length s) EmptyString e pre _ m
                  HT2 Hfresh) as (w' & Hrun & HT').
      rewrite Hloud in HT'. exists w'. split; assumption.
  - cbn [await requestFailure fst snd]. unfold throw. cbv iota beta.
    destruct (chatCatch_target aiId (List.length s) EmptyString e pre w1 m
                HT1 Hfresh) as (w' & Hrun & HT').
    rewrite Hquiet in HT'. exists w'. split; assumption.
  - cbn [await requestFailure fst snd].
    rewrite (bind_returned _ _ _ _ _ _ _ Hstop). unfold throw. cbv iota beta.
    destruct (chatCatch_target aiId (List.length s) EmptyString e pre _ m
                HT2 Hfresh) as (w' & Hrun & HT').
    rewrite Hloud in HT'. exists w'. split; assumption.
Qed.

(** The text session on a request that delivers no stream. *)
Lemma sendChatMessage_failed (prompt : string) (net : Await Response)
  (w : World) :
  isEmpty (openrouterKey (settings w)) = false ->
  conversationResolves w = true ->
  targetIdFresh P w = true ->
  (forall response, net = Resolved response -> ok response = false) ->
  exists m : Message,
    lastMessage (snd (sendChatMessage P prompt net w)) = Some m
    /\ msg_role m = ai
    /\ msg_content m
       = (if fst (requestFailure P net) then stoppedNotice
          else errorNotice (message (snd (requestFailure P net))))
    /\ msg_error m = Some true
    /\ msg_errorMessage m = Some (message (snd (requestFailure P net))).
Proof.
  intros Hkey Hres Hfresh Hbad.
  destruct (sendChatMessage_resolves P prompt net w Hkey Hres)
    as (w1 & c & Hrun & Hc & Hm & Hu & Hs & Ha & Hsig & Hg & es1 & HE1 & Hes1).
  rewrite Hrun.
  destruct (chatSession_prefix P prompt (openrouterKey (settings w)) c
              net w1 Hc)
    as (w2 & aiTime & Hrun2 & HT & Hctl & Hsig2 & Hg2 & Hs2 & es2 & HE2 & Hes2).
  rewrite Hrun2.
  unfold targetIdFresh, targetIdOf, userIdOf in Hfresh.
  rewrite <- Hu, <- Hm in Hfresh.
  apply andb_true_iff in Hfresh as [Hf1 Hf2].
  match type of HT with
  | Target ?i ?pre _ ?m =>
      destruct (chatStream_failed i
                  (chatRequest P (openrouterKey (settings w))
                     (modelId (settings w1))
                     ([mkApiMessage "system" (systemPrompt (settings w1))]
                      ++ historyForApi pre ++ [mkApiMessage "user" prompt]))
                  net pre (signals w1) w2 m)
        as (w3 & Hrun3 & HT3)
  end; auto.
  { rewrite freshIn_snoc, Hf1. exact Hf2. }
  unfold tryFinally. rewrite Hrun3.
  destruct (chatFinally_run w3)
    as (w4 & Hrun4 & Hconv & Hact & _ & _ & snap & HE4).
  rewrite Hrun4. cbn [snd].
  eexists. split.
  { apply (Target_store _ _ w3 w4) in HT3; auto.
    destruct HT3 as (c3 & Hc3 & Hm3 & _).
    unfold lastMessage. rewrite Hc3, Hm3. apply last_map_Some_app. }
  repeat split.
Qed.




End TextFailures.

(** ** Relations every step of a computation respects *)

Section StepRules.

Variable R : World -> World -> Prop.
Hypothesis HR : StepOrder R.

Lemma Steps_bind (A B : Type) (m : M A) (k : A -> M B) :
  Steps R m -> (forall a, Steps R (k a)) -> Steps R (bind m k).
Proof.
  intros Hm Hk w. unfold bind. specialize (Hm w).
  destruct (m w) as [[a|e] w1]; simpl in *; [|exact Hm].
  apply (step_trans R HR) with w1; [exact Hm|apply Hk].
Qed.

Lemma Steps_tryCatch (A : Type) (m : M A) (h : Exn -> M A) :
  Steps R m -> (forall e, Steps R (h e)) -> Steps R (tryCatch m h).
Proof.
  intros Hm Hh w. unfold tryCatch. specialize (Hm w).
  destruct (m w) as [[a|e] w1]; simpl in *; [exact Hm|].
  apply (step_trans R HR) with w1; [exact Hm|apply Hh].
Qed.

Lemma Steps_tryFinally (A : Type) (m : M A) (fin : M unit) :
  Steps R m -> Steps R fin -> Steps R (tryFinally m fin).
Proof.
  intros Hm Hf w. rewrite tryFinally_world.
  apply (step_trans R HR) with (snd (m w)); [apply Hm|apply Hf].
Qed.

Lemma Steps_ret (A : Type) (a : A) : Steps R (ret a).
Proof. intros w. apply (step_refl R HR). Qed.

Lemma Steps_throw (A : Type) (e : Exn) : Steps R (throw (A := A) e).
Proof. intros w. apply (step_refl R HR). Qed.

Lemma Steps_gets (A : Type) (g : World -> A) : Steps R (gets g).
Proof. intros w. apply (step_refl R HR). Qed.

Lemma Steps_when (b : bool) (m : M unit) : Steps R m -> Steps R (when b m).
Proof. intros H. destruct b; [exact H|apply Steps_ret]. Qed.

Lemma Steps_modify (g : World -> World) :
  (forall w, R w (g w)) -> Steps R (modify g).
Proof. intros H w. apply H. Qed.

Lemma Steps_emit (e : Effect) : notPersist e = true -> Steps R (emit e).
Proof. intros He w. now apply (step_effect R HR). Qed.

Lemma Steps_UI (call : UICall) : Steps R (UI call).
Proof.
  destruct call; try (now apply Steps_emit).
  unfold UI. apply Steps_bind; [|intro; now apply Steps_emit].
  apply Steps_modify. intro w. apply (step_typing R HR).
Qed.

Variable P : Platform.

Lemma Steps_randomUUID : Steps R (randomUUID P).
Proof. intros w. apply (step_uuid R HR). Qed.

Lemma Steps_Date_now : Steps R (Date_now P).
Proof. intros w. apply (step_clock R HR). Qed.

Lemma Steps_newAbortController : Steps R newAbortController.
Proof. intros w. apply (step_signals R HR). Qed.

Lemma Steps_stopGenerating : Steps R stopGenerating.
Proof.
  unfold stopGenerating. apply Steps_bind; [apply Steps_gets|].
  intros [r|]; [|now apply Steps_emit].
  apply Steps_modify. intro w. apply (step_signals R HR).
Qed.

Lemma Steps_await (A : Type) (p : Await A) : Steps R (await p).
Proof.
  destruct p; simpl; [apply Steps_ret|apply Steps_throw|].
  apply Steps_bind; [apply Steps_stopGenerating|intro; apply Steps_throw].
Qed.

Lemma Steps_fetch (request : Request) (net : Await Response) :
  Steps R (fetch request net).
Proof.
  unfold fetch.
  apply Steps_bind; [now apply Steps_emit|intro; apply Steps_await].
Qed.

(** The [try]/[catch] of the text session, once the relation holds
    across a patch of the target message. *)
Hypothesis R_patch :
  forall i c e em, Steps R (updateLastMessageContent P i c e em).

Lemma readLoop_steps (i : string) (chunks : list string) (acc : string)
  (w : World) :
  R w (snd (readLoop P i acc chunks w)).
Proof.
  assert (Hpart : forall part acc w, R w (snd (processPart P i acc part w))).
  { intros part acc0 w0. unfold processPart.
    destruct (partDelta P part); simpl;
      [apply R_patch|apply (step_refl R HR)]. }
  assert (Hparts : forall parts acc w,
             R w (snd (forEachPart P i acc parts w))).
  { induction parts as [|part parts IH]; intros acc0 w0; simpl.
    - apply (step_refl R HR).
    - specialize (Hpart part acc0 w0).
      destruct (processPart P i acc0 part w0) as [acc1 w1].
      apply (step_trans R HR) with w1; [exact Hpart|apply IH]. }
  revert acc w. induction chunks as [|chunk chunks IH]; intros acc w; simpl.
  - apply (step_refl R HR).
  - specialize (Hparts (split LFLF chunk) acc w).
    destruct (forEachPart P i acc (split LFLF chunk) w) as [acc1 w1].
    apply (step_trans R HR) with w1; [exact Hparts|apply IH].
Qed.

Lemma chatCatch_steps (i : string) (r : nat) (acc : string) (e : Exn) :
  Steps R (chatCatch P i r acc e).
Proof.
  unfold chatCatch. apply Steps_bind; [apply Steps_gets|].
  intros [|]; (apply Steps_bind; [now apply Steps_emit|intro; apply R_patch]).
Qed.

Lemma chatStream_steps (i : string) (r : nat) (request : Request)
  (net : Await Response) :
  Steps R (chatStream P i r request net).
Proof.
  intros w. unfold chatStream, chatTry.
  pose proof (Steps_fetch request net w) as H1.
  destruct (fetch request net w) as [[response|e] w1]; simpl in H1.
  - destruct (negb (ok response)).
    + pose proof (Steps_await _ (json response) w1) as H2.
      destruct (await (json response) w1) as [[errorData|e] w2]; simpl in H2;
        (apply (step_trans R HR) with w1; [exact H1|]);
        (apply (step_trans R HR) with w2; [exact H2|]);
        apply chatCatch_steps.
    + pose proof (readLoop_steps i (body response) EmptyString w1) as H2.
      destruct (readLoop P i EmptyString (body response) w1) as [acc w2].
      simpl in H2.
      pose proof (Steps_await _ (bodyEnd response) w2) as H3.
      destruct (await (bodyEnd response) w2) as [[u|e] w3]; simpl in H3;
        (apply (step_trans R HR) with w1; [exact H1|]);
        (apply (step_trans R HR) with w2; [exact H2|]);
        (apply (step_trans R HR) with w3; [exact H3|]).
      * apply (step_refl R HR).
      * apply chatCatch_steps.
  - apply (step_trans R HR) with w1; [exact H1|apply chatCatch_steps].
Qed.

End StepRules.

(** Follows the structure of a computation; [leaf] settles the relation
    across a direct change of the world. *)
Ltac steps_with HR leaf :=
  repeat first
    [ solve [auto 2]
    | match goal with
      | |- Steps _ (bind _ _) => apply (Steps_bind _ HR); [|intro]
      | |- Steps _ (tryCatch _ _) => apply (Steps_tryCatch _ HR); [|intro]
      | |- Steps _ (tryFinally _ _) => apply (Steps_tryFinally _ HR)
      | |- Steps _ (when _ _) => apply (Steps_when _ HR)
      | |- Steps _ (ret _) => apply (Steps_ret _ HR)
      | |- Steps _ (throw _) => apply (Steps_throw _ HR)
      | |- Steps _ (gets _) => apply (Steps_gets _ HR)
      | |- Steps _ (emit _) =>
          first [ apply (Steps_emit _ HR); reflexivity
                | unfold emit; apply Steps_modify; intro; solve [leaf] ]
      | |- Steps _ (showToast _ _) => apply (Steps_emit _ HR); reflexivity
      | |- Steps _ (UI _) => apply (Steps_UI _ HR)
      | |- Steps _ (randomUUID _) => apply (Steps_randomUUID _ HR)
      | |- Steps _ (Date_now _) => apply (Steps_Date_now _ HR)
      | |- Steps _ newAbortController =>
          apply (Steps_newAbortController _ HR)
      | |- Steps _ stopGenerating => apply (Steps_stopGenerating _ HR)
      | |- Steps _ (await _) => apply (Steps_await _ HR)
      | |- Steps _ (fetch _ _) => apply (Steps_fetch _ HR)
      | |- Steps _ (modify _) => apply Steps_modify; intro; solve [leaf]
      | |- Steps _ (if ?b then _ else _) => destruct b
      | |- Steps _ (match ?o with _ => _ end) => destruct o
      end ].

Lemma storedAfter_app (before : list Conversation) (a b : list Effect) :
  storedAfter before (a ++ b) = storedAfter (storedAfter before a) b.
Proof. apply fold_left_app. Qed.

Lemma keeping_configuration : StepOrder (keeping configuration).
Proof. constructor; unfold keeping; intros; try reflexivity; congruence. Qed.

Lemma keeping_store : StepOrder (keeping store).
Proof. constructor; unfold keeping; intros; try reflexivity; congruence. Qed.

Lemma inStep_order : StepOrder inStep.
Proof.
  constructor; unfold inStep; intros; auto.
  unfold InStep in *. cbn [effects set_effects conversations].
  rewrite storedAfter_app. destruct e; try discriminate; assumption.
Qed.

(** ** [localStorage] in step with the store *)

Lemma Returns_tryFinally (A : Type) (m : M A) (fin : M unit) :
  Returns m -> Returns fin -> Returns (tryFinally m fin).
Proof.
  intros Hm Hf w. unfold tryFinally. destruct (Hm w) as (a & Ha).
  destruct (m w) as [r w1]. simpl in Ha. subst r.
  destruct (Hf w1) as (u & Hu). destruct (fin w1) as [[u'|e] w2];
    simpl in Hu; [now exists a|discriminate].
Qed.

Lemma Returns_when (b : bool) (m : M unit) : Returns m -> Returns (when b m).
Proof. intros H. destruct b; [exact H|apply Returns_ret]. Qed.

Ltac returns_all :=
  repeat first
    [ solve [auto 2]
    | returns_step
    | match goal with
      | |- Returns (tryFinally _ _) => apply Returns_tryFinally
      | |- Returns (when _ _) => apply Returns_when
      | |- Returns newAbortController => intros ?; eexists; reflexivity
      end ].

Lemma GetsInStep_steps (A : Type) (m : M A) : GetsInStep m -> Steps inStep m.
Proof. intros H w before _. apply H. Qed.

(** After something that returns, what brings the two in step does so
    from wherever it starts; and what keeps them in step may follow. *)
Lemma GetsInStep_after (A B : Type) (m : M A) (k : A -> M B) :
  Returns m -> (forall a, GetsInStep (k a)) -> GetsInStep (bind m k).
Proof.
  intros Hm Hk before w. unfold bind. destruct (Hm w) as (a & Ha).
  destruct (m w) as [[a'|e] w1]; simpl in Ha; [apply Hk|discriminate].
Qed.

Lemma GetsInStep_then (A B : Type) (m : M A) (k : A -> M B) :
  GetsInStep m -> (forall a, Steps inStep (k a)) -> GetsInStep (bind m k).
Proof.
  intros Hm Hk before w. unfold bind. specialize (Hm before w).
  destruct (m w) as [[a|e] w1]; simpl in *; [|exact Hm].
  now apply Hk.
Qed.

Lemma saveConversations_in_step : GetsInStep saveConversations.
Proof.
  intros before w. unfold InStep. cbn. now rewrite storedAfter_app.
Qed.

(** A change of the flags, of the input or of the active identifier does
    not touch the conversations or the trace. *)
Ltac untouched := hnf; let H := fresh in intros ? H; exact H.

Ltac in_step := steps_with inStep_order untouched.

Ltac gets_in_step :=
  repeat (first
    [ apply saveConversations_in_step
    | apply GetsInStep_then; [|intro; solve [in_step]]
    | apply GetsInStep_after; [solve [returns]|intro] ]).

Section InStep.
Variable P : Platform.

Lemma saveConversation_in_step (i : string) : GetsInStep (saveConversation P i).
Proof. unfold saveConversation, writeConversation. gets_in_step. Qed.

Lemma startNewConversation_in_step (prompt : string) :
  GetsInStep (startNewConversation P prompt).
Proof. unfold startNewConversation. gets_in_step. Qed.

Lemma pushMessage_in_step (i : string) (m : Message) :
  GetsInStep (pushMessage P i m).
Proof.
  unfold pushMessage, writeConversation.
  do 3 (apply GetsInStep_after; [solve [returns]|intro]).
  apply GetsInStep_then; [apply saveConversation_in_step|intro; in_step].
Qed.

Lemma addMessageToConversation_in_step (m : Message) :
  Steps inStep (addMessageToConversation P m).
Proof.
  pose proof (fun i => GetsInStep_steps _ _ (pushMessage_in_step i m)).
  pose proof (fun s => GetsInStep_steps _ _ (startNewConversation_in_step s)).
  unfold addMessageToConversation. in_step.
Qed.

Lemma updateLastMessageContent_in_step (i c : string) (e : bool)
  (em : string) :
  Steps inStep (updateLastMessageContent P i c e em).
Proof.
  unfold updateLastMessageContent.
  apply (Steps_bind _ inStep_order); [in_step|intros [c0|]; [|in_step]].
  destruct (find (hasMsgId i) (conv_messages c0)); [|in_step].
  apply GetsInStep_steps. unfold writeConversation.
  do 2 (apply GetsInStep_after; [solve [returns]|intro]).
  apply saveConversation_in_step.
Qed.

Lemma chatFinally_in_step : Steps inStep chatFinally.
Proof.
  apply GetsInStep_steps. unfold chatFinally.
  do 4 (apply GetsInStep_after; [solve [returns]|intro]).
  apply saveConversations_in_step.
Qed.

Lemma sendChatMessage_in_step (prompt : string) (net : Await Response) :
  Steps inStep (sendChatMessage P prompt net).
Proof.
  pose proof addMessageToConversation_in_step.
  pose proof (fun s => GetsInStep_steps _ _ (startNewConversation_in_step s)).
  pose proof chatFinally_in_step.
  pose proof (chatStream_steps _ inStep_order P
                updateLastMessageContent_in_step).
  unfold sendChatMessage, reportMissingKey, chatSession. in_step.
Qed.

Lemma generateImage_in_step (prompt : string) (net : Await Response) :
  Steps inStep (generateImage P prompt net).
Proof.
  pose proof addMessageToConversation_in_step.
  assert (Hfin : forall i l, Steps inStep (imageFinally P i prompt l)).
  { intros i l. unfold imageFinally.
    change (negb (exportedByChat "STATE")) with true. cbv iota. in_step. }
  unfold generateImage, imageTry, imageCatch, generateWithPollinations,
    generateWithOpenRouter, firstImageUrl.
  in_step.
Qed.



End InStep.

(** ** What the entry points never do *)

Ltac unchanged := hnf; reflexivity.
Ltac keeps_configuration := steps_with keeping_configuration unchanged.
Ltac keeps_store := steps_with keeping_store unchanged.

Lemma bind_ends (A B : Type) (Q : World -> Prop) (m : M A) (k : A -> M B) :
  Returns m -> (forall a w, Q (snd (k a w))) -> forall w, Q (snd (bind m k w)).
Proof.
  intros Hm Hk w. unfold bind. destruct (Hm w) as (a & Ha).
  destruct (m w) as [[a'|e] w1]; simpl in Ha; [apply Hk|discriminate].
Qed.

Section Never.
Variable P : Platform.

Lemma updateLastMessageContent_returns (i c : string) (e : bool)
  (em : string) :
  Returns (updateLastMessageContent P i c e em).
Proof.
  unfold updateLastMessageContent, saveConversation, saveConversations,
    writeConversation.
  returns.
Qed.

Lemma chatCatch_returns (i : string) (r : nat) (acc : string) (e : Exn) :
  Returns (chatCatch P i r acc e).
Proof.
  pose proof updateLastMessageContent_returns.
  unfold chatCatch. returns.
Qed.

Lemma chatStream_returns (i : string) (r : nat) (request : Request)
  (net : Await Response) :
  Returns (chatStream P i r request net).
Proof.
  intros w. unfold chatStream.
  destruct (chatTry P i request net w) as [[[u|e] acc] w1].
  - now exists tt.
  - apply chatCatch_returns.
Qed.

Lemma sendChatMessage_returns (prompt : string) (net : Await Response) :
  Returns (sendChatMessage P prompt net).
Proof.
  pose proof (addMessageToConversation_returns P).
  pose proof chatStream_returns.
  unfold sendChatMessage, reportMissingKey, chatSession, chatFinally,
    startNewConversation, saveConversations.
  returns_all.
Qed.

(** X22.  Neither [handleSendMessage] nor [regenerateResponse] ever
    leaves by a throw: whatever the input, the stored conversations, the
    settings and the fate of the request, every failure is caught inside
    and turned into a notice or a message, and the promise of the handler
    resolves. *)
Theorem entry_points_never_throw (net : Await Response) (w : World) :
  fst (handleSendMessage P net w) = Returned tt
  /\ fst (regenerateResponse P net w) = Returned tt.
Proof.
  pose proof (addMessageToConversation_returns P).
  pose proof sendChatMessage_returns.
  assert (Hunit : forall m : M unit, Returns m -> fst (m w) = Returned tt).
  { intros m Hm. destruct (Hm w) as ([] & Hr). exact Hr. }
  split; apply Hunit.
  - unfold handleSendMessage, sendCatch, sendFinally. returns_all.
  - unfold regenerateResponse, regenerateCatch, regenerateFinally,
      saveConversation, saveConversations, writeConversation.
    returns_all.
Qed.

Lemma addMessageToConversation_configuration (m : Message) :
  Steps (keeping configuration) (addMessageToConversation P m).
Proof.
  unfold addMessageToConversation, pushMessage, startNewConversation,
    saveConversation, saveConversations, writeConversation.
  keeps_configuration.
Qed.

Lemma updateLastMessageContent_configuration (i c : string) (e : bool)
  (em : string) :
  Steps (keeping configuration) (updateLastMessageContent P i c e em).
Proof.
  unfold updateLastMessageContent, saveConversation, saveConversations,
    writeConversation.
  keeps_configuration.
Qed.

Lemma sendChatMessage_configuration (prompt : string) (net : Await Response) :
  Steps (keeping configuration) (sendChatMessage P prompt net).
Proof.
  pose proof addMessageToConversation_configuration.
  pose proof (chatStream_steps _ keeping_configuration P
                updateLastMessageContent_configuration).
  unfold sendChatMessage, reportMissingKey, chatSession, chatFinally,
    startNewConversation, saveConversations.
  keeps_configuration.
Qed.

Lemma generateImage_configuration (prompt : string) (net : Await Response) :
  Steps (keeping configuration) (generateImage P prompt net).
Proof.
  pose proof addMessageToConversation_configuration.
  unfold generateImage, imageTry, imageCatch, imageFinally,
    generateWithPollinations, generateWithOpenRouter, firstImageUrl,
    saveConversation, saveConversations, writeConversation.
  keeps_configuration.
Qed.

(** X23.  Neither [handleSendMessage] nor [regenerateResponse] changes
    the settings (credential, models, system prompt, provider) or the
    mode, whatever happens to the generation. *)
Theorem generation_keeps_configuration (net : Await Response) (w : World) :
  (settings (snd (handleSendMessage P net w)) = settings w
   /\ mode (snd (handleSendMessage P net w)) = mode w)
  /\ (settings (snd (regenerateResponse P net w)) = settings w
      /\ mode (snd (regenerateResponse P net w)) = mode w).
Proof.
  pose proof addMessageToConversation_configuration.
  pose proof sendChatMessage_configuration.
  pose proof generateImage_configuration.
  assert (Hpair : forall m : M unit, Steps (keeping configuration) m ->
            settings (snd (m w)) = settings w /\ mode (snd (m w)) = mode w).
  { intros m Hm. specialize (Hm w). unfold keeping, configuration in Hm.
    now injection Hm. }
  split; apply Hpair.
  - unfold handleSendMessage, sendCatch, sendFinally, filterSQLi, sanitizeInput.
    keeps_configuration.
  - unfold regenerateResponse, regenerateCatch, regenerateFinally,
      saveConversation, saveConversations, writeConversation.
    keeps_configuration.
Qed.

End Never.

(** ** The image providers and the sessions, in general *)

Section Providers.
Variable P : Platform.

(** X24.  With a default size made of a width and a height around one
    [x], [generateWithLoremFlickr] builds the address of LoremFlickr with
    that width and that height as its two path segments. *)
Theorem generateWithLoremFlickr_url (width height : string) :
  IMAGE_DEFAULT_SIZE P = (width ++ "x" ++ height)%string ->
  lacks "x" width = true ->
  lacks "x" height = true ->
  generateWithLoremFlickr P
  = ("https://loremflickr.com/" ++ width ++ "/" ++ height
     ++ "/abstract,random")%string.
Proof.
  intros Hsize Hw Hh. unfold generateWithLoremFlickr, split.
  rewrite Hsize.
  change (width ++ "x" ++ height)%string
    with (width ++ String "x" height)%string.
  rewrite split_from_separator by exact Hw.
  rewrite split_from_lacking by exact Hh.
  reflexivity.
Qed.

(** X25.  With a default size that holds no [x], the height is read past
    the end of the split and the address carries [undefined] in its
    place; nothing is thrown. *)
Theorem generateWithLoremFlickr_without_separator :
  lacks "x" (IMAGE_DEFAULT_SIZE P) = true ->
  generateWithLoremFlickr P
  = ("https://loremflickr.com/" ++ IMAGE_DEFAULT_SIZE P
     ++ "/undefined/abstract,random")%string.
Proof.
  intros Hsize. unfold generateWithLoremFlickr, split.
  rewrite split_from_lacking by exact Hsize. reflexivity.
Qed.

Lemma requestsOf_stopGenerating (w : World) :
  requestsOf (effects (snd (stopGenerating w))) = requestsOf (effects w).
Proof.
  unfold stopGenerating. rewrite bind_gets.
  destruct (abortController w); [reflexivity|].
  cbn. rewrite requestsOf_app. cbn. now rewrite app_nil_r.
Qed.

(** X26.  [generateWithPollinations] issues exactly one request, a GET of
    the Pollinations address of the encoded prompt, and returns exactly
    when the response has a status in the 200s and a content type that
    starts with [image/]; what it returns then is the address it
    requested. *)
Theorem generateWithPollinations_result (prompt : string)
  (net : Await Response) (w : World) :
  let url := ("https://image.pollinations.ai/prompt/"
              ++ encodeURIComponent P prompt
              ++ "?width=1024&height=1024")%string in
  requestsOf (effects (snd (generateWithPollinations P prompt net w)))
  = requestsOf (effects w) ++ [mkRequest url "GET" [] NoBody]
  /\ forall u : string,
       fst (generateWithPollinations P prompt net w) = Returned u
       <-> u = url
           /\ exists (response : Response) (ct : string),
                net = Resolved response
                /\ ok response = true
                /\ contentType response = Some ct
                /\ startsWith "image/" ct = true.
Proof.
  intros url. unfold generateWithPollinations. fold url.
  unfold fetch. rewrite bind_assoc, bind_emit.
  set (w1 := set_effects
               (effects w ++ [Fetch (mkRequest url "GET" [] NoBody)]) w).
  assert (Hreq : requestsOf (effects w1)
                 = requestsOf (effects w) ++ [mkRequest url "GET" [] NoBody]).
  { subst w1. cbn [effects set_effects]. now rewrite requestsOf_app. }
  destruct net as [response|e|e].
  - cbn [await]. rewrite bind_ret.
    destruct (ok response) eqn:Hok; cbn [negb].
    + destruct (contentType response) as [ct|] eqn:Hct.
      * destruct (negb (isEmpty ct) && startsWith "image/" ct) eqn:Himg.
        -- split; [exact Hreq|]. intros u. cbn [fst ret]. split.
           ++ intros H. injection H as <-. split; [reflexivity|].
              apply andb_true_iff in Himg as [_ Himg].
              exists response, ct. auto.
           ++ intros [-> _]. reflexivity.
        -- split; [exact Hreq|]. intros u. cbn [fst throw]. split.
           ++ discriminate.
           ++ intros [_ (r & ct' & Hr & _ & Hct' & Hs)].
              injection Hr as <-. rewrite Hct in Hct'. injection Hct' as <-.
              rewrite Hs, andb_true_r in Himg.
              apply negb_false_iff in Himg. destruct ct; discriminate.
      * split; [exact Hreq|]. intros u. cbn [fst throw]. split.
        -- discriminate.
        -- intros [_ (r & ct' & Hr & _ & Hct' & _)].
           injection Hr as <-. congruence.
    + split; [exact Hreq|]. intros u. cbn [fst throw]. split.
      * discriminate.
      * intros [_ (r & ct' & Hr & Hok' & _)]. injection Hr as <-. congruence.
  - cbn [await]. split; [exact Hreq|]. intros u. cbn. split.
    + discriminate.
    + intros [_ (r & ct' & Hr & _)]. discriminate.
  - cbn [await]. rewrite bind_assoc.
    split.
    + unfold bind. pose proof (requestsOf_stopGenerating w1) as Hs.
      destruct (stopGenerating w1) as [[[]|e'] w2]; cbn [snd throw] in *;
        now rewrite Hs.
    + intros u. split.
      * unfold bind. destruct (stopGenerating w1) as [[[]|e'] w2]; discriminate.
      * intros [_ (r & ct' & Hr & _)]. discriminate.
Qed.


Lemma imageBody_store (prompt : string) (net : Await Response) :
  Steps (keeping store)
    (tryCatch (url <- imageTry P prompt net ;;
               ret (mkImageLocals url false EmptyString))
       (imageCatch P)).
Proof.
  unfold imageTry, imageCatch, generateWithPollinations,
    generateWithOpenRouter, firstImageUrl.
  keeps_store.
Qed.

(** X28.  Whatever the provider, the settings and the response,
    [generateImage] ends by the TypeError of its [finally] block, and the
    last message of the active conversation is still the placeholder as
    it was appended: it never becomes an image, nor an error message. *)
Theorem generateImage_leaves_placeholder (prompt : string)
  (net : Await Response) (w : World) :
  exists (w' : World) (id : string) (t : nat),
    generateImage P prompt net w
    = (Thrown (cannotRead "undefined" "conversations"), w')
    /\ lastMessage w' = Some (imagePlaceholder id t).
Proof.
  unfold generateImage. rewrite bind_randomUUID, bind_Date_now.
  match goal with
  | |- context [bind (addMessageToConversation P ?m) _ ?w0] =>
      destruct (addMessageToConversation_last P m w0)
        as (w1 & c1 & Hrun1 & _)
  end.
  rewrite (bind_returned _ _ _ _ _ _ _ Hrun1), bind_randomUUID, bind_Date_now.
  match goal with
  | |- context [bind (addMessageToConversation P ?m) _ ?w0] =>
      destruct (addMessageToConversation_last P m w0)
        as (w2 & c2 & Hrun2 & Hc2 & Hm2 & _)
  end.
  rewrite (bind_returned _ _ _ _ _ _ _ Hrun2).
  pose proof (imageBody_store prompt net w2) as Hstore.
  assert (Hret : Returns (tryCatch (url <- imageTry P prompt net ;;
                                    ret (mkImageLocals url false EmptyString))
                            (imageCatch P))).
  { apply Returns_tryCatch. apply imageCatch_returns. }
  destruct (Hret w2) as (l & Hl).
  unfold bind at 1.
  destruct (tryCatch _ _ w2) as [r w3]. simpl in Hl, Hstore. subst r.
  exists w3. eexists. eexists. split; [reflexivity|].
  unfold keeping, store in Hstore. injection Hstore as Hconv Hact.
  unfold lastMessage, findActive in *. rewrite Hact, Hconv, Hc2, Hm2.
  apply last_map_Some_app.
Qed.

(** X29.  A regeneration asked for while no generation is active leaves
    none active when it ends, whichever way its session went. *)
Theorem regenerateResponse_ends_idle (net : Await Response) (w : World) :
  isGenerating w = false ->
  isGenerating (snd (regenerateResponse P net w)) = false.
Proof.
  intros Hidle. unfold regenerateResponse. rewrite bind_gets, Hidle, bind_gets.
  destruct (findActive w) as [c|]; [|exact Hidle].
  destruct (_ <? _)%nat; [exact Hidle|].
  destruct (lastUserText _); [|exact Hidle].
  apply (bind_ends _ _ (fun w' => isGenerating w' = false)).
  - unfold saveConversation, saveConversations, writeConversation.
    destruct (lastAIMessageIndex _); returns.
  - intros _ w1. apply (bind_ends _ _ (fun w' => isGenerating w' = false)).
    + returns.
    + intros _ w2. rewrite tryFinally_world. reflexivity.
Qed.

(** X30.  An input the filter of [sanitizeInput] rejects is not sent: no
    request is issued, the text stays in the input box, and the error is
    shown.  In image mode nothing is stored; in chat mode the
    conversation gets the input as the user wrote it, then an assistant
    message flagged as an error that carries the filter's text. *)
Theorem rejected_input_is_not_sent (net : Await Response) (w : World) :
  isEmpty (trim (chatInput w)) = false ->
  isGenerating w = false ->
  existsb (fun test => test (trim (chatInput w))) (sqlInjectionPatterns P)
  = true ->
  let notice :=
    "Potential SQL injection attempt detected. Please remove suspicious characters."%string in
  exists w' : World,
    handleSendMessage P net w = (Returned tt, w')
    /\ requestsOf (effects w') = requestsOf (effects w)
    /\ chatInput w' = chatInput w
    /\ In (Toast error notice) (effects w')
    /\ match mode w with
       | imageMode => conversations w' = conversations w
       | chat =>
           exists userMessage reply : Message,
             activeMessages w' = activeMessages w ++ [userMessage; reply]
             /\ msg_content userMessage = trim (chatInput w)
             /\ msg_error reply = Some true
             /\ msg_errorMessage reply = Some notice
       end.
Proof.
  intros Hprompt Hidle Hbad notice.
  unfold handleSendMessage. rewrite bind_gets, Hprompt, bind_gets, Hidle.
  unfold tryFinally.
  rewrite (tryCatch_thrown _ _ _ w w (Error notice)).
  2:{ unfold filterSQLi, sanitizeInput. rewrite Hbad. reflexivity. }
  unfold sendCatch, showToast. rewrite bind_emit, bind_gets.
  cbn [mode set_effects message Error].
  destruct (mode w) eqn:Hmode.
  - rewrite bind_randomUUID, bind_Date_now.
    match goal with
    | |- context [bind (addMessageToConversation P ?m) _ ?w0] =>
        destruct (addMessageToConversation_last P m w0)
          as (w1 & c1 & Hrun1 & Hc1 & Hm1 & _ & _ & _ & _ & _ & Hin1
              & es1 & HE1 & Hes1)
    end.
    rewrite (bind_returned _ _ _ _ _ _ _ Hrun1), bind_randomUUID, bind_Date_now.
    match goal with
    | |- context [addMessageToConversation P ?m ?w0] =>
        destruct (addMessageToConversation_last P m w0)
          as (w2 & c2 & Hrun2 & Hc2 & Hm2 & _ & _ & _ & _ & _ & Hin2
              & es2 & HE2 & Hes2)
    end.
    rewrite Hrun2. clear Hrun1 Hrun2.
    eexists. split; [reflexivity|].
    cbn [effects chatInput conversations set_isGenerating set_abortController
         set_effects set_isTyping set_uuidCalls set_clockCalls] in *.
    rewrite HE2, HE1, Hin2, Hin1.
    split.
    { rewrite !requestsOf_app, (requestsOf_plain es1 Hes1),
        (requestsOf_plain es2 Hes2). cbn. now rewrite !app_nil_r. }
    split; [reflexivity|]. split.
    { rewrite !in_app_iff. cbn. auto 10. }
    eexists. eexists. split.
    { unfold activeMessages in *.
      match goal with
      | |- match findActive ?x with _ => _ end = _ =>
          change (findActive x) with (findActive w2)
      end.
      rewrite Hc2, Hm2.
      match goal with
      | |- context [findActive (set_clockCalls ?a ?x)] =>
          change (findActive (set_clockCalls a x)) with (findActive w1)
      end.
      rewrite Hc1, Hm1.
      match goal with
      | |- context [findActive (set_clockCalls ?a ?x)] =>
          change (findActive (set_clockCalls a x)) with (findActive w)
      end.
      rewrite <- app_assoc. reflexivity. }
    repeat split.
  - eexists. split; [reflexivity|].
    cbn [effects chatInput conversations set_isGenerating set_abortController
         set_effects set_isTyping].
    split.
    { rewrite !requestsOf_app. cbn. now rewrite !app_nil_r. }
    split; [reflexivity|]. split; [|reflexivity].
    rewrite !in_app_iff. cbn. auto 10.
Qed.

End Providers.

(** ** The properties at concrete inputs *)


(** C2 at a concrete input: two deltas arrive, then the user stops the
    generation.  The message keeps the partial content and the notice,
    and [updateLastMessageContent] is called with [isError = true]: the
    message is flagged as an error and carries the abort error's text. *)
Lemma cancellation_marks_error :
  lastMessage
    (snd (handleSendMessage Sample.platform (Resolved Sample.stoppedAfterTwo)
            Sample.chatWorld))
  = Some (mkMessage "uuu" ai text ("Hi there" ++ stoppedNotice)%string 4 None
            (Some true) (Some "The user aborted a request.")).
Proof. vm_compute. reflexivity. Qed.

(** C3 refuted: the event [Hi], delivered in one chunk, yields its delta;
    the same text delivered in two chunks yields nothing, because no
    buffer carries the first half over. *)
Lemma split_event_is_lost :
  (Sample.firstHalf ++ Sample.secondHalf)%string = Sample.wholeChunk
  /\ streamDeltas Sample.platform [Sample.wholeChunk] = ["Hi"]
  /\ streamDeltas Sample.platform [Sample.firstHalf; Sample.secondHalf] = [].
Proof. vm_compute. repeat split. Qed.

(** C3 at a concrete input: two events in one chunk, and in a chunk
    each. *)
Lemma rechunking_witness :
  concat [[Sample.event "Hi"; Sample.event " there"]]
  = concat [[Sample.event "Hi"]; [Sample.event " there"]]
  /\ forallb noLineFeed
       (concat [[Sample.event "Hi"; Sample.event " there"]]) = true
  /\ streamDeltas Sample.platform
       (map chunkOf [[Sample.event "Hi"; Sample.event " there"]])
     = streamDeltas Sample.platform
         (map chunkOf [[Sample.event "Hi"]; [Sample.event " there"]]).
Proof.
  do 2 (split; [reflexivity|]).
  apply rechunking_along_event_boundaries; reflexivity.
Defined.

(** C4 at a concrete input. *)
Lemma send_while_generating_witness :
  isGenerating Sample.busyWorld = true
  /\ exists notice : string,
       handleSendMessage Sample.platform (Resolved Sample.twoDeltas)
         Sample.busyWorld
       = (Returned tt,
          set_effects (effects Sample.busyWorld ++ [Toast warning notice])
            Sample.busyWorld).
Proof.
  split; [reflexivity|].
  apply handleSendMessage_while_generating. reflexivity.
Defined.

(** C5 refuted: on a text generation that streams to its end the
    finalization runs twice, in [sendChatMessage] and again in
    [handleSendMessage]. *)
Lemma finalization_runs_twice :
  finalizationRuns
    (effects (snd (handleSendMessage Sample.platform
                     (Resolved Sample.twoDeltas) Sample.chatWorld)))
  = 2.
Proof. vm_compute. reflexivity. Qed.

(** C5 at a concrete input. *)
Lemma generation_finalized_witness :
  isEmpty (trim (chatInput Sample.chatWorld)) = false
  /\ isGenerating Sample.chatWorld = false
  /\ isGenerating
       (snd (handleSendMessage Sample.platform (Resolved Sample.twoDeltas)
               Sample.chatWorld)) = false
  /\ abortController
       (snd (handleSendMessage Sample.platform (Resolved Sample.twoDeltas)
               Sample.chatWorld)) = None
  /\ exists es : list Effect,
       effects
         (snd (handleSendMessage Sample.platform (Resolved Sample.twoDeltas)
                 Sample.chatWorld))
       = effects Sample.chatWorld ++ es
       /\ 1 <= finalizationRuns es <= 2.
Proof.
  do 2 (split; [reflexivity|]).
  apply (generation_always_finalized Sample.platform
           (Resolved Sample.twoDeltas) Sample.chatWorld); reflexivity.
Defined.

(** C6 at concrete inputs: Pollinations is selected and answers with
    status 500, or with an HTML page, or not at all.  The fallback URL is
    computed, but the [finally] block throws before it patches the
    message: the placeholder stays as it was appended, of type [text],
    with the provisional content and no error flag. *)
Lemma pollinations_failure_leaves_placeholder :
  Forall
    (fun net =>
       lastMessage
         (snd (handleSendMessage Sample.platform net
                 (Sample.imageWorld "pollinations" EmptyString EmptyString)))
       = Some (imagePlaceholder "uuu" 4))
    [Sample.status500; Sample.htmlPage; Sample.networkDown].
Proof. repeat constructor. Qed.

(** C7 at a concrete input: OpenRouter is selected and no credential is
    set.  No request is issued and no fallback is announced, but the
    [finally] block throws before it patches the message: the placeholder
    stays as it was appended, with no error flag and no error detail. *)
Lemma missing_credential_leaves_placeholder :
  let w' := snd (handleSendMessage Sample.platform Sample.networkDown
                   (Sample.imageWorld "openrouter" EmptyString "dall-e-3")) in
  requestsOf (effects w') = []
  /\ ~ In (Toast info "Pollinations.ai failed, falling back to LoremFlickr...")
          (effects w')
  /\ In (Toast error
           "Image generation failed: OpenRouter API key is not configured for image generation.")
        (effects w')
  /\ lastMessage w' = Some (imagePlaceholder "uuu" 4).
Proof.
  vm_compute. split; [reflexivity|]. split; [|split; [|reflexivity]].
  - intros H. repeat (destruct H as [H|H]; [discriminate H|]). exact H.
  - repeat (first [left; reflexivity | right]).
Qed.





(** ** The further properties at concrete inputs *)

(** X1 at a concrete input: twelve characters cut to eight. *)
Lemma truncateText_length_witness :
  3 <= 8
  /\ String.length (truncateText "Hello, world" 8)
     = Nat.min (String.length "Hello, world") 8
  /\ substring_to (8 - 3) (truncateText "Hello, world" 8)
     = substring_to (8 - 3) "Hello, world".
Proof. split; [lia|]. apply truncateText_length. lia. Defined.

(** X2 at a concrete input: a limit of two. *)
Lemma truncateText_small_limit_witness :
  2 <= 3 /\ 2 < String.length "Hello" /\ truncateText "Hello" 2 = "...".
Proof.
  split; [lia|]. split; [simpl; lia|].
  apply truncateText_small_limit; simpl; lia.
Defined.

(** X4 at a concrete input: two sources of random values that agree
    modulo 256 give the same token. *)
Lemma generateCsrfToken_injective_witness :
  generateCsrfToken (fun i => i) 2 = generateCsrfToken (fun i => i + 256) 2
  /\ 2 = 2
  /\ forall i, i < 2 -> (fun i => i) i mod 256 = (fun i => i + 256) i mod 256.
Proof.
  split; [reflexivity|].
  apply (generateCsrfToken_injective (fun i => i) (fun i => i + 256) 2 2).
  reflexivity.
Defined.

(** X6 at a concrete input: now is the first of a month and the instant
    lies 80000 seconds back, on the 31st; it is labelled [This Week]. *)
Lemma formatDate_first_of_month_witness :
  (forall t : Z, (1 <= Sample.calendar t)%Z)
  /\ Sample.calendar 1700000000000%Z = 1%Z
  /\ formatDate Sample.calendar 1700000000000%Z 1699920000000%Z
     = "This Week"%string
  /\ formatDate Sample.calendar 1700000000000%Z 1699920000000%Z
     <> "Yesterday"%string.
Proof.
  assert (Hday : forall t : Z, (1 <= Sample.calendar t)%Z).
  { intros t. unfold Sample.calendar. destruct (t <? 1699950000000)%Z; lia. }
  split; [exact Hday|]. split; [reflexivity|]. split; [reflexivity|].
  apply formatDate_first_of_month; [exact Hday|reflexivity].
Defined.

(** X8 at a concrete input: two conversations, the newer one first. *)
Lemma loadConversations_keeps_order_witness :
  newestFirst (conversations Sample.twoConversations) = true
  /\ Storage.loadConversations
       (Storage.StoredList (conversations Sample.twoConversations))
       Sample.empty
     = (Returned tt,
        set_conversations (conversations Sample.twoConversations)
          Sample.empty).
Proof.
  split; [reflexivity|]. apply loadConversations_keeps_order. reflexivity.
Defined.

(** X9 at a concrete input: a first start, with sixteen bytes. *)
Lemma initCsrfToken_verifies_witness :
  0 < 16
  /\ Security.verifyCsrfToken "delete_conversation" Sample.verifiedSession
     = true.
Proof.
  split; [lia|].
  apply (initCsrfToken_verifies Sample.entropy 16 Sample.freshSession
           "delete_conversation").
  lia.
Defined.

(** X10 at a concrete input: an address whose query holds [http]. *)
Lemma enforceHttps_upgrades_witness :
  Security.protocol Sample.plainSite = "http:"
  /\ Security.href Sample.plainSite
     = ("http:" ++ "//javagoat.example/chat?from=http")%string
  /\ Security.hostname Sample.plainSite <> "localhost"
  /\ Security.hostname Sample.plainSite <> "127.0.0.1"
  /\ Security.enforceHttps Sample.plainSite
     = Some "https://javagoat.example/chat?from=http".
Proof.
  split; [reflexivity|]. split; [reflexivity|].
  split; [discriminate|]. split; [discriminate|].
  apply (enforceHttps_upgrades Sample.plainSite
           "//javagoat.example/chat?from=http");
    try reflexivity; discriminate.
Defined.


(** X13 at a concrete input: one controller, in use. *)
Lemma stopGenerating_aborts_witness :
  abortController Sample.running = Some 0
  /\ 0 < List.length (signals Sample.running)
  /\ exists w' : World,
       stopGenerating Sample.running = (Returned tt, w')
       /\ aborted 0 w' = true.
Proof.
  split; [reflexivity|]. split; [simpl; lia|].
  destruct (stopGenerating_aborts Sample.running 0 eq_refl)
    as (w' & Hrun & Hab & _); [simpl; lia|].
  exists w'. auto.
Defined.


(** X15 at a concrete input: the first message after start-up. *)
Lemma addMessageToConversation_opens_witness :
  findActive Sample.chatWorld = None
  /\ exists w' : World,
       addMessageToConversation Sample.platform (Sample.stored "m1" user "Hi")
         Sample.chatWorld = (Returned tt, w')
       /\ conversations w'
          = [mkConversation "u" "Hi" [Sample.stored "m1" user "Hi"] 2]
       /\ activeConversationId w' = Some "u".
Proof.
  split; [reflexivity|].
  apply (addMessageToConversation_opens Sample.platform
           (Sample.stored "m1" user "Hi") Sample.chatWorld eq_refl).
Defined.

(** X16 at a concrete input. *)
Lemma sendChatMessage_without_key_witness :
  isEmpty (openrouterKey (settings Sample.keyless)) = true
  /\ exists (w' : World) (userMessage reply : Message),
       sendChatMessage Sample.platform "Hello" Sample.networkDown
         Sample.keyless = (Returned tt, w')
       /\ requestsOf (effects w') = requestsOf (effects Sample.keyless)
       /\ activeMessages w'
          = activeMessages Sample.keyless ++ [userMessage; reply]
       /\ msg_error reply = Some true.
Proof.
  split; [reflexivity|].
  destruct (sendChatMessage_without_key Sample.platform "Hello"
              Sample.networkDown Sample.keyless eq_refl)
    as (w' & u & r & Hrun & Hreq & Hms & _ & _ & _ & _ & Herr & _).
  exists w', u, r. auto.
Defined.






(** X24 at a concrete input: the size [1024x1024]. *)
Lemma generateWithLoremFlickr_url_witness :
  IMAGE_DEFAULT_SIZE Sample.platform = ("1024" ++ "x" ++ "1024")%string
  /\ lacks "x" "1024" = true
  /\ generateWithLoremFlickr Sample.platform
     = "https://loremflickr.com/1024/1024/abstract,random"%string.
Proof.
  do 2 (split; [reflexivity|]).
  apply (generateWithLoremFlickr_url Sample.platform "1024" "1024");
    reflexivity.
Defined.

(** X25 at a concrete input: the size [512]. *)
Lemma generateWithLoremFlickr_without_separator_witness :
  lacks "x" (IMAGE_DEFAULT_SIZE Sample.squarePlatform) = true
  /\ generateWithLoremFlickr Sample.squarePlatform
     = "https://loremflickr.com/512/undefined/abstract,random"%string.
Proof.
  split; [reflexivity|].
  apply (generateWithLoremFlickr_without_separator Sample.squarePlatform).
  reflexivity.
Defined.


(** X29 at a concrete input. *)
Lemma regenerateResponse_ends_idle_witness :
  isGenerating Sample.answered = false
  /\ isGenerating
       (snd (regenerateResponse Sample.platform (Resolved Sample.twoDeltas)
               Sample.answered)) = false.
Proof.
  split; [reflexivity|].
  apply (regenerateResponse_ends_idle Sample.platform
           (Resolved Sample.twoDeltas) Sample.answered).
  reflexivity.
Defined.

(** X30 at a concrete input: the input holds an SQL comment. *)
Lemma rejected_input_is_not_sent_witness :
  isEmpty (trim (chatInput Sample.suspicious)) = false
  /\ isGenerating Sample.suspicious = false
  /\ existsb (fun test => test (trim (chatInput Sample.suspicious)))
       (sqlInjectionPatterns Sample.platform) = true
  /\ exists w' : World,
       handleSendMessage Sample.platform (Resolved Sample.twoDeltas)
         Sample.suspicious = (Returned tt, w')
       /\ requestsOf (effects w') = requestsOf (effects Sample.suspicious)
       /\ chatInput w' = chatInput Sample.suspicious.
Proof.
  do 3 (split; [reflexivity|]).
  destruct (rejected_input_is_not_sent Sample.platform
              (Resolved Sample.twoDeltas) Sample.suspicious)
    as (w' & Hrun & Hreq & Hinput & _); try reflexivity.
  exists w'. auto.
Defined.
